(** * The AE Transformer (tensor2tensor/models/transformer_vae.py)

    A shallow embedding of the model-definition code of
    [transformer_vae.py] and the properties its specification states.

    Tensors are modelled the way the framework stores them: a shape and a
    row-major buffer.  Floating-point numbers are read as real numbers
    (rounding, overflow and NaN are outside the model), random draws and
    trained variables are explicit inputs, and the layers that live in
    other modules of the repository ([common_layers], [common_attention],
    [transformer], [t2t_model]) are parameters: the fields of the classes
    [Layers] and [T2TModel], or definitions modelled from the
    specification.

    The functions of the module are embedded on tensors, in the order of
    the source, from [residual_conv] to [ae_transformer_internal], the
    class [TransformerAE] and the registered sets of hyperparameters; the
    compression and decompression paths are embedded on shapes as well
    (module [Shapes]). *)

From Stdlib Require Import Reals Lra Lia List String Arith PeanoNat.
From Stdlib Require Import DecimalString.
From stdpp Require Import gmap strings.
Import ListNotations.

(** ** Tensors: a shape and a row-major buffer *)

Record tensor (A : Type) := Tensor { shape : list nat; data : list A }.
Arguments Tensor {A} _ _.
Arguments shape {A} _.
Arguments data {A} _.

(** Number of elements of a shape. *)
Fixpoint numel (s : list nat) : nat :=
  match s with
  | [] => 1
  | d :: s' => d * numel s'
  end.

Definition wf {A} (t : tensor A) : Prop := length (data t) = numel (shape t).

(** Row-major offset of a multi-index, and its inverse. *)
Fixpoint ravel (s idx : list nat) : nat :=
  match s, idx with
  | _ :: s', i :: idx' => i * numel s' + ravel s' idx'
  | _, _ => 0
  end.

Fixpoint unravel (s : list nat) (n : nat) : list nat :=
  match s with
  | [] => []
  | _ :: s' => n / numel s' :: unravel s' (n mod numel s')
  end.

(** [in_range s idx]: [idx] has the rank of [s] and every coordinate is
    below its dimension. *)
Definition in_range (s idx : list nat) : Prop := Forall2 lt idx s.

Definition tget {A} (d : A) (t : tensor A) (idx : list nat) : A :=
  nth (ravel (shape t) idx) (data t) d.

(** The tensor of shape [s] whose element at [idx] is [f idx]. *)
Definition tabulate {A} (s : list nat) (f : list nat -> A) : tensor A :=
  Tensor s (map (fun n => f (unravel s n)) (seq 0 (numel s))).

Definition tmap {A B} (f : A -> B) (t : tensor A) : tensor B :=
  Tensor (shape t) (map f (data t)).

Definition Rsum (l : list R) : R := fold_right Rplus 0%R l.

(** Sum of [f k] for [k < n]. *)
Definition Rsum_n (n : nat) (f : nat -> R) : R := Rsum (map f (seq 0 n)).

(** ** The framework's operations (TensorFlow 1.x), by their documented
    semantics *)

Module tf.

(** [tf.reshape(t, s)] with a fully given shape. *)
Definition reshape {A} (t : tensor A) (s : list nat) : option (tensor A) :=
  if numel s =? length (data t) then Some (Tensor s (data t)) else None.

(** [tf.reshape(t, [-1] + rest)]: the leading dimension is inferred. *)
Definition reshape_infer {A} (t : tensor A) (rest : list nat)
  : option (tensor A) :=
  let n := length (data t) in
  let r := numel rest in
  if r =? 0 then None
  else if n mod r =? 0 then Some (Tensor (n / r :: rest) (data t))
  else None.

Definition stop_gradient {A} (t : tensor A) : tensor A := t.

(** [tf.shape(t)[i]]. *)
Definition dim {A} (t : tensor A) (i : nat) : option nat := shape t !! i.

(** Broadcasting of two dimensions, of two shapes (aligned at the last
    axis), and the source index a result index reads. *)
Definition bdim (a b : nat) : option nat :=
  if a =? b then Some a
  else if a =? 1 then Some b
  else if b =? 1 then Some a
  else None.

Fixpoint bshape_rev (s1 s2 : list nat) : option (list nat) :=
  match s1, s2 with
  | [], s => Some s
  | s, [] => Some s
  | a :: s1', b :: s2' =>
      match bdim a b, bshape_rev s1' s2' with
      | Some d, Some r => Some (d :: r)
      | _, _ => None
      end
  end.

Definition bshape (s1 s2 : list nat) : option (list nat) :=
  match bshape_rev (rev s1) (rev s2) with
  | Some r => Some (rev r)
  | None => None
  end.

Definition bindex (s idx : list nat) : list nat :=
  zip_with (fun d i => if d =? 1 then 0 else i) s
           (drop (length idx - length s) idx).

Definition bget {A} (d : A) (t : tensor A) (idx : list nat) : A :=
  tget d t (bindex (shape t) idx).

(** An elementwise binary operation, with broadcasting. *)
Definition bop (f : R -> R -> R) (x y : tensor R) : option (tensor R) :=
  match bshape (shape x) (shape y) with
  | Some s =>
      Some (tabulate s (fun idx => f (bget 0%R x idx) (bget 0%R y idx)))
  | None => None
  end.

Definition add := bop Rplus.
Definition sub := bop Rminus.
Definition mul := bop Rmult.
Definition div := bop Rdiv.

(** [tf.to_float(tf.less(x, y))]. *)
Definition less_float :=
  bop (fun a b => if Rlt_dec a b then 1%R else 0%R).

(** A Python float used as a tensor operand. *)
Definition scalar (r : R) : tensor R := Tensor [] [r].

Definition neg (t : tensor R) : tensor R := tmap Ropp t.
Definition square (t : tensor R) : tensor R := tmap (fun a => (a * a)%R) t.
Definition exp (t : tensor R) : tensor R := tmap Rtrigo_def.exp t.
Definition log (t : tensor R) : tensor R := tmap ln t.
Definition floor (t : tensor R) : tensor R :=
  tmap (fun a => IZR (Int_part a)) t.

(** Random operations.  The generator's raw output is an explicit
    sequence [rnd]: numbers of [[0, 1)] for [tf.random_uniform], which
    rescales them to [[minval, maxval)], and standard-normal numbers for
    [tf.random_normal]. *)
Definition random_uniform (s : list nat) (minval maxval : R)
           (rnd : nat -> R) : tensor R :=
  Tensor s (map (fun n => (rnd n * (maxval - minval) + minval)%R)
                (seq 0 (numel s))).

Definition random_normal (s : list nat) (rnd : nat -> R) : tensor R :=
  Tensor s (map rnd (seq 0 (numel s))).

(** [tf.nn.dropout(x, keep_prob)]:
    [x / keep_prob * floor(keep_prob + random_uniform(shape(x)))]. *)
Definition nn_dropout (x : tensor R) (keep_prob : R) (rnd : nat -> R)
  : option (tensor R) :=
  match add (scalar keep_prob) (random_uniform (shape x) 0 1 rnd),
        div x (scalar keep_prob) with
  | Some random_tensor, Some scaled => mul scaled (floor random_tensor)
  | _, _ => None
  end.

(** [tf.reduce_sum(t, axis=-1)] and [tf.reduce_mean(t, axis=-1)]. *)
Definition reduce_sum_last (t : tensor R) : tensor R :=
  let s := removelast (shape t) in
  let n := List.last (shape t) 1 in
  tabulate s (fun idx => Rsum_n n (fun k => tget 0%R t (idx ++ [k]))).

Definition reduce_mean_last (t : tensor R) : tensor R :=
  let s := removelast (shape t) in
  let n := List.last (shape t) 1 in
  tabulate s (fun idx =>
    (Rsum_n n (fun k => tget 0%R t (idx ++ [k])) / INR n)%R).

(** [tf.reduce_mean(t)] over all elements. *)
Definition reduce_mean (t : tensor R) : R :=
  (Rsum (data t) / INR (numel (shape t)))%R.

(** [tf.nn.l2_normalize(t, dim)]:
    [t * rsqrt(maximum(reduce_sum(square(t), dim, keep_dims), 1e-12))]. *)
Definition l2_epsilon : R := (/ 1000000000000)%R.

Definition l2_normalize (t : tensor R) (dim : nat) : tensor R :=
  let n := nth dim (shape t) 1 in
  tabulate (shape t) (fun idx =>
    let sq := Rsum_n n (fun k =>
                let a := tget 0%R t (<[dim := k]> idx) in (a * a)%R) in
    (tget 0%R t idx * / sqrt (Rmax sq l2_epsilon))%R).

(** [tf.matmul(a, b)] and [tf.matmul(a, b, transpose_b=True)] on
    matrices. *)
Definition matmul (a b : tensor R) : option (tensor R) :=
  match shape a, shape b with
  | [n; k], [k'; m] =>
      if k =? k' then
        Some (tabulate [n; m] (fun idx =>
          let i := nth 0 idx 0 in
          let j := nth 1 idx 0 in
          Rsum_n k (fun l => (tget 0 a [i; l] * tget 0 b [l; j])%R)))
      else None
  | _, _ => None
  end.

Definition matmul_transpose_b (a b : tensor R) : option (tensor R) :=
  match shape a, shape b with
  | [n; k], [m; k'] =>
      if k =? k' then
        Some (tabulate [n; m] (fun idx =>
          let i := nth 0 idx 0 in
          let j := nth 1 idx 0 in
          Rsum_n k (fun l => (tget 0 a [i; l] * tget 0 b [j; l])%R)))
      else None
  | _, _ => None
  end.

(** Index of the first largest entry of a vector. *)
Fixpoint argmax_from (bi : nat) (bv : R) (i : nat) (l : list R) : nat :=
  match l with
  | [] => bi
  | a :: l' =>
      if Rlt_dec bv a then argmax_from i a (S i) l'
      else argmax_from bi bv (S i) l'
  end.

Definition argmax_list (l : list R) : nat :=
  match l with
  | [] => 0
  | a :: l' => argmax_from 0 a 1 l'
  end.

(** The vector along the last axis at the leading index [idx]. *)
Definition last_axis (t : tensor R) (idx : list nat) : list R :=
  map (fun k => tget 0%R t (idx ++ [k])) (seq 0 (List.last (shape t) 1)).

(** [tf.argmax(t, axis=-1)]. *)
Definition argmax_last (t : tensor R) : tensor nat :=
  tabulate (removelast (shape t)) (fun idx => argmax_list (last_axis t idx)).

(** [tf.argmax(t, axis)] for an axis counted from the front. *)
Definition argmax (t : tensor R) (axis : nat) : option (tensor nat) :=
  if axis <? length (shape t) then
    Some (tabulate (take axis (shape t) ++ drop (S axis) (shape t))
            (fun idx =>
               argmax_list
                 (map (fun k =>
                         tget 0%R t (take axis idx ++ k :: drop axis idx))
                      (seq 0 (nth axis (shape t) 1)))))
  else None.

(** The indices returned by [tf.nn.top_k(t, k=1)]: for each vector along
    the last axis the index of its largest entry (the lowest one on
    ties), in a last axis of size 1.  The call fails when the last axis
    is empty. *)
Definition top_k1_indices (t : tensor R) : option (tensor nat) :=
  match shape t with
  | [] => None
  | _ =>
      if List.last (shape t) 1 =? 0 then None
      else Some (tabulate (removelast (shape t) ++ [1])
                   (fun idx => argmax_list (last_axis t (removelast idx))))
  end.

(** [tf.squeeze(t, axis)]. *)
Definition squeeze {A} (t : tensor A) (axis : nat) : option (tensor A) :=
  match shape t !! axis with
  | Some 1 => Some (Tensor (take axis (shape t) ++ drop (S axis) (shape t))
                           (data t))
  | _ => None
  end.

(** [tf.expand_dims(t, axis)]. *)
Definition expand_dims {A} (t : tensor A) (axis : nat) : option (tensor A) :=
  if axis <=? length (shape t)
  then Some (Tensor (take axis (shape t) ++ 1 :: drop axis (shape t))
                    (data t))
  else None.

(** [tf.zeros(s)]. *)
Definition zeros (s : list nat) : tensor Z := tabulate s (fun _ => 0%Z).

(** [tf.concat(ts, 0)]: the tensors agree on all axes but the first. *)
Definition concat0 {A} (ts : list (tensor A)) : option (tensor A) :=
  match ts with
  | [] => None
  | t :: _ =>
      match shape t with
      | [] => None
      | _ :: rest =>
          if forallb (fun t' => bool_decide (tail (shape t') = rest)
                                && negb (bool_decide (shape t' = [])))  ts
          then Some (Tensor (sum_list (map (fun t' => hd 0 (shape t')) ts)
                             :: rest)
                            (concat (map data ts)))
          else None
      end
  end.

(** [tf.one_hot(indices, depth)]: a new last axis of size [depth]. *)
Definition one_hot (indices : tensor nat) (depth : nat) : tensor R :=
  tabulate (shape indices ++ [depth]) (fun idx =>
    if List.last idx 0 =? tget 0 indices (removelast idx) then 1%R else 0%R).

(** [tf.gather(params, indices)] along axis 0; an index out of range is
    an error. *)
Definition gather (params : tensor R) (indices : tensor nat)
  : option (tensor R) :=
  match shape params with
  | [] => None
  | n :: rest =>
      if forallb (fun i => i <? n) (data indices) then
        let r := length (shape indices) in
        Some (tabulate (shape indices ++ rest) (fun idx =>
                tget 0%R params
                     (tget 0 indices (take r idx) :: drop r idx)))
      else None
  end.

(** The variable store: [tf.get_variable(name, shape)] under a scope
    whose variables exist returns the stored tensor of that shape. *)
Definition get_variable (vars : gmap string (tensor R))
           (scope name : string) (s : list nat) : option (tensor R) :=
  match vars !! (scope +:+ "/" +:+ name) with
  | Some v => if decide (shape v = s) then Some v else None
  | None => None
  end.

(** [tf.layers.dense(x, units, name)]: [x . kernel + bias] on the last
    axis. *)
Definition dense (vars : gmap string (tensor R)) (scope : string)
           (x : tensor R) (units : nat) (name : string)
  : option (tensor R) :=
  let n := List.last (shape x) 1 in
  match get_variable vars (scope +:+ "/" +:+ name) "kernel" [n; units],
        get_variable vars (scope +:+ "/" +:+ name) "bias" [units] with
  | Some kernel, Some bias =>
      Some (tabulate (removelast (shape x) ++ [units]) (fun idx =>
        let j := List.last idx 0 in
        (Rsum_n n (fun k => tget 0 x (removelast idx ++ [k])
                           * tget 0 kernel [k; j])
         + tget 0 bias [j])%R))
  | _, _ => None
  end.

(** [tf.zeros(s)] with the default dtype, float32. *)
Definition zeros_float (s : list nat) : tensor R := tabulate s (fun _ => 0%R).

(** The tensor of [ts] that holds position [i] of the concatenated axis,
    and the position inside that tensor. *)
Fixpoint concat_pick {A} (axis : nat) (ts : list (tensor A)) (i : nat)
  : option (tensor A * nat) :=
  match ts with
  | [] => None
  | t :: ts' =>
      let d := nth axis (shape t) 0 in
      if i <? d then Some (t, i) else concat_pick axis ts' (i - d)
  end.

(** [tf.concat(ts, axis)]: the tensors have one rank and agree on all axes
    but [axis]. *)
Definition concat (ts : list (tensor R)) (axis : nat) : option (tensor R) :=
  match ts with
  | [] => None
  | t :: _ =>
      if (axis <? length (shape t))
         && forallb (fun t' => bool_decide (<[axis := 0]> (shape t')
                                            = <[axis := 0]> (shape t))) ts
      then
        let d := sum_list (map (fun t' => nth axis (shape t') 0) ts) in
        Some (tabulate (<[axis := d]> (shape t)) (fun idx =>
                match concat_pick axis ts (nth axis idx 0) with
                | Some (t', i) => tget 0%R t' (<[axis := i]> idx)
                | None => 0%R
                end))
      else None
  end.

(** The sum of the exponentials along the last axis, at the index [idx]
    of an element. *)
Definition sum_exp_last (t : tensor R) (idx : list nat) : R :=
  Rsum_n (List.last (shape t) 1)
         (fun k => Rtrigo_def.exp (tget 0%R t (removelast idx ++ [k]))).

(** [tf.nn.softmax(t)]: [exp(t) / reduce_sum(exp(t), -1, keep_dims)]; a
    scalar is an error. *)
Definition softmax (t : tensor R) : option (tensor R) :=
  match shape t with
  | [] => None
  | _ => Some (tabulate (shape t) (fun idx =>
           (Rtrigo_def.exp (tget 0 t idx) / sum_exp_last t idx)%R))
  end.

(** [tf.nn.log_softmax(t)]:
    [t - log(reduce_sum(exp(t), -1, keep_dims))]. *)
Definition log_softmax (t : tensor R) : option (tensor R) :=
  match shape t with
  | [] => None
  | _ => Some (tabulate (shape t) (fun idx =>
           (tget 0 t idx - ln (sum_exp_last t idx))%R))
  end.

(** [tf.reduce_max(t, axis=-1)].  Over an empty axis the framework
    returns the lowest float, which the reals do not have; the value here
    is 0 then, and no property is stated of it. *)
Definition reduce_max_last (t : tensor R) : tensor R :=
  tabulate (removelast (shape t)) (fun idx =>
    match last_axis t idx with
    | [] => 0%R
    | a :: l => fold_left Rmax l a
    end).

(** [tf.depth_to_space(t, block_size)] on a [batch, height, width, depth]
    tensor: the output at [b, h * bs + i, w * bs + j, k] is the input at
    [b, h, w, (i * bs + j) * (depth / bs^2) + k]. *)
Definition depth_to_space (t : tensor R) (block_size : nat)
  : option (tensor R) :=
  match shape t with
  | [b; h; w; c] =>
      if (2 <=? block_size) && (c mod (block_size * block_size) =? 0) then
        let c' := c / (block_size * block_size) in
        Some (tabulate [b; h * block_size; w * block_size; c'] (fun idx =>
          let y := nth 1 idx 0 in
          let x := nth 2 idx 0 in
          tget 0%R t [nth 0 idx 0; y / block_size; x / block_size;
                      (y mod block_size * block_size + x mod block_size) * c'
                      + nth 3 idx 0]))
      else None
  | _ => None
  end.

(** [tf.nn.softmax_cross_entropy_with_logits(labels, logits)] on tensors
    of one shape: [- reduce_sum(labels * log_softmax(logits), -1)]. *)
Definition softmax_cross_entropy_with_logits (labels logits : tensor R)
  : option (tensor R) :=
  if bool_decide (shape labels = shape logits) then
    match log_softmax logits with
    | Some logsm =>
        let n := List.last (shape logits) 1 in
        Some (tabulate (removelast (shape logits)) (fun idx =>
          (- Rsum_n n (fun k =>
               tget 0 labels (idx ++ [k]) * tget 0 logsm (idx ++ [k])))%R))
    | None => None
    end
  else None.

End tf.

(** ** Hyperparameters *)

Inductive ModeKeys := TRAIN | EVAL | PREDICT.

(** The fields of [hparams] the module reads.  [is_2d] is the integer 0 or
    1 of [transformer_ae_small] and [transformer_ae_cifar], tested for
    truth. *)
Record HParams := {
  hidden_size : nat;
  dropout : R;
  layer_prepostprocess_dropout : R;
  z_size : nat;
  v_size : nat;
  num_compress_steps : nat;
  kl_warmup_steps : nat;
  startup_steps : nat;
  kmeans_lr_factor : R;
  z_dropout : R;
  is_2d : nat;
  mode : ModeKeys
}.

Definition truthy (n : nat) : bool := negb (n =? 0).

(** Python's ["%d" % i]. *)
Definition string_of_nat (i : nat) : string :=
  NilZero.string_of_uint (Nat.to_uint i).

(** Python's [a or b] on integers. *)
Definition py_or (a b : nat) : nat := if truthy a then a else b.

(** [hparams] with the fields that only [attend] reads. *)
Record AttentionHParams := {
  model_hparams :> HParams;
  attention_key_channels : nat;
  attention_value_channels : nat;
  num_heads : nat;
  attention_dropout : R
}.

(** ** Layers of the other modules of the repository *)

Inductive Padding := SAME | VALID.

(** Keyword arguments of [common_layers.conv_block]. *)
Record ConvArgs := {
  first_relu : bool;
  padding : option Padding;
  strides : option (nat * nat)
}.

(** Modelled from the spec: [common_layers], [common_attention] and
    [transformer] are not in the sources at hand; the spec only names them
    ("attention, convolutional residual blocks ... defined by the source
    framework, not by this code"), so each is an arbitrary function of its
    arguments and of the variable scope it is built under, and may fail. *)
Class Layers := {
  conv_block :
    string -> tensor R -> nat -> list ((nat * nat) * (nat * nat)) ->
    ConvArgs -> string -> option (tensor R);
  layer_norm : string -> tensor R -> nat -> string -> option (tensor R);
  (** the two decays, at the current global step *)
  inverse_lin_decay : nat -> R;
  inverse_exp_decay : nat -> R;
  (** the signal [add_timing_signal_1d] adds at a position and channel of
      a sequence of the given length and depth *)
  timing_signal : nat -> nat -> nat -> nat -> R;
  transformer_decoder :
    tensor R -> option (tensor R) -> tensor R -> option (tensor R) ->
    HParams -> option (tensor R)
}.

(** Modelled from the spec: the attention and feed-forward layers of
    [common_attention], [common_layers] and [transformer] are not in the
    sources at hand ("attention ... defined by the source framework, not
    by this code"); each is an arbitrary function of its arguments and of
    the variable scope it is built under, and may fail. *)
Class TransformerLayers := {
  multihead_attention :
    string -> tensor R -> tensor R -> option (tensor R) ->
    nat -> nat -> nat -> nat -> R -> option (tensor R);
  layer_preprocess :
    string -> tensor R -> AttentionHParams -> option (tensor R);
  layer_postprocess :
    string -> tensor R -> tensor R -> AttentionHParams -> option (tensor R);
  transformer_ffn_layer :
    string -> tensor R -> AttentionHParams -> option (tensor R);
  transformer_prepare_encoder :
    string -> tensor R -> tensor R -> AttentionHParams ->
    option (tensor R * tensor R * tensor R);
  transformer_encoder :
    string -> tensor R -> tensor R -> AttentionHParams -> option (tensor R);
  flatten4d3d : tensor R -> option (tensor R)
}.

Module common_layers.

(** Modelled from the spec: [common_layers.shift_right] is not in the
    sources at hand; "the gold targets are shifted right by one position
    (position 0 receiving cond_vec as pad value)", zero when there is no
    pad value. *)
Definition shift_right (x : tensor R) (pad_value : option (tensor R))
  : tensor R :=
  tabulate (shape x) (fun idx =>
    match nth 1 idx 0 with
    | 0 =>
        match pad_value with
        | Some p => tf.bget 0%R p idx
        | None => 0%R
        end
    | S i => tget 0%R x (<[1 := i]> idx)
    end).

(** Modelled from the spec: [common_layers.pad_to_same_length] is not in
    the sources at hand; called with both tensors equal it "pads the
    targets so that their length dimension is divisible by k", to the
    nearest such length, with zeros. *)
Definition padded_length (len k : nat) : nat :=
  if k <=? 1 then len else (len + k - 1) / k * k.

(** [pad_to_same_length(x, x, final_length_divisible_by)]. *)
Definition pad_to_same_length (x : tensor R)
           (final_length_divisible_by : nat) : tensor R :=
  let s := <[1 := padded_length (nth 1 (shape x) 0)
                                final_length_divisible_by]> (shape x) in
  tabulate s (fun idx =>
    if nth 1 idx 0 <? nth 1 (shape x) 0 then tget 0%R x idx else 0%R).

End common_layers.

Module common_attention.

(** Modelled from the spec: [common_attention.add_timing_signal_1d] is
    not in the sources at hand; it adds to a [batch, length, channels]
    tensor a signal that depends on the position and the channel. *)
Definition add_timing_signal_1d `{Layers} (x : tensor R) : tensor R :=
  let length := nth 1 (shape x) 0 in
  let channels := nth 2 (shape x) 0 in
  tabulate (shape x) (fun idx =>
    let signal := timing_signal length channels (nth 1 idx 0) (nth 2 idx 0) in
    (tget 0 x idx + signal)%R).

(** Modelled from the spec: "a lower-triangular attention bias over the
    target length": shape [1, 1, length, length], zero where the key
    position is not after the query position and -1e9 elsewhere. *)
Definition attention_bias_lower_triangle (length : nat) : tensor R :=
  tabulate [1; 1; length; length] (fun idx =>
    if nth 3 idx 0 <=? nth 2 idx 0 then 0%R else (- 1000000000)%R).

End common_attention.

(** ** The functions of [transformer_vae.py] *)

(** A stack of convolution blocks with residual connections.  [rnd i] is
    the generator output the dropout of repetition [i] draws. *)
Definition residual_conv `{Layers} (x : tensor R) (repeat : nat)
           (k : nat * nat) (hparams : HParams) (name : string)
           (rnd : nat -> nat -> R) : option (tensor R) :=
  let dilations_and_kernels := map (fun _ => ((1, 1), k)) (seq 0 3) in
  fold_left
    (fun (acc : option (tensor R)) (i : nat) =>
       x ← acc;
       let scope := name +:+ "/repeat_" +:+ string_of_nat i in
       n ← layer_norm scope x (hidden_size hparams) "lnorm";
       y ← conv_block scope n (hidden_size hparams) dilations_and_kernels
             {| first_relu := true; padding := Some SAME; strides := None |}
             "residual_conv";
       y ← tf.nn_dropout y (1 - dropout hparams) (rnd i);
       tf.add x y)
    (seq 0 repeat) (Some x).

Definition attend `{Layers} `{TransformerLayers} (x source : tensor R)
           (hparams : AttentionHParams) (name : string)
  : option (tensor R) :=
  x ← tf.squeeze x 2;
  source ←
    (if 3 <? length (shape source) then tf.squeeze source 2
     else Some source);
  let source := common_attention.add_timing_signal_1d source in
  p ← layer_preprocess name x hparams;
  y ← multihead_attention name p source None
        (py_or (attention_key_channels hparams) (hidden_size hparams))
        (py_or (attention_value_channels hparams) (hidden_size hparams))
        (hidden_size hparams) (num_heads hparams)
        (attention_dropout hparams);
  res ← layer_postprocess name x y hparams;
  tf.expand_dims res 2.

(** [interleave(x, y, axis=1)]. *)
Definition interleave (x y : tensor R) (axis : nat) : option (tensor R) :=
  x ← tf.expand_dims x (axis + 1);
  y ← tf.expand_dims y (axis + 1);
  tf.concat [x; y] (axis + 1).

(** Decompression function. *)
Definition decompress_step `{Layers} `{TransformerLayers}
           (source : tensor R) (c : option (tensor R))
           (hparams : AttentionHParams) (first_relu : bool) (is_2d : nat)
           (name : string) : option (tensor R) :=
  let shape := shape source in
  source ←
    match c with
    | Some c' => attend source c' hparams (name +:+ "/decompress_attend")
    | None => Some source
    end;
  let multiplier := if truthy is_2d then 4 else 2 in
  let kernel := if truthy is_2d then (1, 1) else (1, 1) in
  thicker ← conv_block name source (hidden_size hparams * multiplier)
              [((1, 1), kernel)]
              {| first_relu := first_relu; padding := None;
                 strides := None |}
              "decompress_conv";
  if truthy is_2d then tf.depth_to_space thicker 2
  else
    s0 ← shape !! 0;
    s1 ← shape !! 1;
    tf.reshape thicker [s0; s1 * 2; 1; hidden_size hparams].

(** Sample from the Gumbel distribution, protect from overflows. *)
Definition gumbel_sample (s : list nat) (rnd : nat -> R) : tensor R :=
  let uniform_samples := tf.random_uniform s 0.00001 0.99998 rnd in
  tf.neg (tf.log (tf.neg (tf.log uniform_samples))).

(** [dae]; the histogram summary of [kl] reads the graph and is not part
    of the value. *)
Definition dae `{Layers} (vars : gmap string (tensor R)) (x : tensor R)
           (hparams : HParams) (name : string) (rnd : nat -> R)
  : option (tensor R * tensor R * R) :=
  m ← tf.dense vars name x (v_size hparams) "mask";
  logsm ← tf.log_softmax m;
  (* Gumbel-softmax sample. *)
  let gumbel_samples := gumbel_sample (shape m) rnd in
  let steps := kl_warmup_steps hparams in
  gumbel_samples ←
    tf.mul gumbel_samples (tf.scalar (inverse_exp_decay steps * 0.1));
  let temperature := (1.2 - inverse_lin_decay steps)%R in
  logits ← tf.add logsm gumbel_samples;
  logits ← tf.div logits (tf.scalar temperature);
  s ← tf.softmax logits;
  m ← tf.softmax m;
  let kl := tf.neg (tf.reduce_max_last logsm) in
  Some (m, s, tf.reduce_mean kl).

(** The noise [vae] draws: [tf.random_normal([shape[0], shape[1], 1,
    hparams.z_size])] with [shape = tf.shape(x)]. *)
Definition vae_epsilon (x : tensor R) (hparams : HParams) (rnd : nat -> R)
  : option (tensor R) :=
  s0 ← tf.dim x 0;
  s1 ← tf.dim x 1;
  Some (tf.random_normal [s0; s1; 1; z_size hparams] rnd).

Definition vae (vars : gmap string (tensor R)) (x : tensor R)
           (hparams : HParams) (name : string) (rnd : nat -> R)
  : option (tensor R * R * tensor R * tensor R) :=
  mu ← tf.dense vars name x (z_size hparams) "mu";
  log_sigma ← tf.dense vars name x (z_size hparams) "log_sigma";
  epsilon ← vae_epsilon x hparams rnd;
  half ← tf.div log_sigma (tf.scalar 2);
  noise ← tf.mul (tf.exp half) epsilon;
  z ← tf.add mu noise;
  e ← tf.add (tf.exp log_sigma) (tf.square mu);
  e ← tf.sub e (tf.scalar 1);
  e ← tf.sub e log_sigma;
  kl ← tf.mul (tf.scalar 0.5) (tf.reduce_mean_last e);
  Some (z, tf.reduce_mean kl, mu, log_sigma).

(** Find the nearest means to elements in x. *)
Definition nearest (x means : tensor R) (hparams : HParams)
  : option (tensor R) :=
  let x := tf.stop_gradient x in
  let means := tf.stop_gradient means in
  let means := tf.l2_normalize means 1 in
  x_flat ← tf.reshape_infer x [hidden_size hparams];
  prod ← tf.matmul_transpose_b x_flat means;
  let dist := tf.neg prod in
  nearest_idx ← tf.top_k1_indices (tf.neg dist);
  nearest_idx ← tf.squeeze nearest_idx 1;
  let nearest_hot := tf.one_hot nearest_idx (v_size hparams) in
  s0 ← tf.dim x 0;
  s1 ← tf.dim x 1;
  s2 ← tf.dim x 2;
  nearest_hot ← tf.reshape nearest_hot [s0; s1; s2; v_size hparams];
  Some (tf.stop_gradient nearest_hot).

Definition kmeans (x means : tensor R) (hparams : HParams) (name : string)
  : option (tensor R * R) :=
  x_means_hot ← nearest x means hparams;
  x_means ← tf.gather means (tf.argmax_last x_means_hot);
  d ← tf.sub x x_means;
  let kl := tf.reduce_sum_last (tf.square d) in
  Some (x_means_hot, (tf.reduce_mean kl * 10)%R).

(** Compress.  [rnd i] is the generator output the residual block of step
    [i] draws. *)
Definition compress `{Layers} `{TransformerLayers} (x : tensor R)
           (c : option (tensor R)) (is_2d : nat)
           (hparams : AttentionHParams) (name : string)
           (rnd : nat -> nat -> R) : option (tensor R) :=
  (* Run compression by strided convs. *)
  let cur := x in
  let k1 := if truthy is_2d then (3, 3) else (3, 1) in
  let k2 := if truthy is_2d then (2, 2) else (2, 1) in
  fold_left
    (fun (acc : option (tensor R)) (i : nat) =>
       cur ← acc;
       cur ←
         match c with
         | Some c' =>
             attend cur c' hparams
                    (name +:+ "/compress_attend_" +:+ string_of_nat i)
         | None => Some cur
         end;
       cur ← residual_conv cur 1 k1 hparams
               (name +:+ "/compress_rc_" +:+ string_of_nat i)
               (fun _ => rnd i);
       conv_block name cur (hidden_size hparams) [((1, 1), k2)]
         {| first_relu := true; padding := None; strides := Some k2 |}
         ("compress_" +:+ string_of_nat i))
    (seq 0 (num_compress_steps hparams)) (Some cur).

(** The mixing probability of [mix]: the chosen decay, rescaled. *)
Definition mix_alpha_p `{Layers} (steps : nat) (min_prob max_prob : R)
           (mode : string) : R :=
  let alpha_p :=
    if String.eqb mode "lin" then inverse_lin_decay steps
    else inverse_exp_decay steps in
  (alpha_p * (max_prob - min_prob) + min_prob)%R.

(** Mix starting with x2, mixing mixing, going towards x1. *)
Definition mix `{Layers} (x1 x2 : tensor R) (steps : nat)
           (min_prob max_prob : R) (mode : string) (simple : bool)
           (rnd : nat -> R) : option (tensor R) :=
  let alpha_p := mix_alpha_p steps min_prob max_prob mode in
  if simple then
    a ← tf.mul (tf.scalar alpha_p) x1;
    b ← tf.mul (tf.scalar (1 - alpha_p)) x2;
    tf.add a b
  else
    let alpha := tf.random_uniform (shape x1) 0 1 rnd in
    alpha ← tf.less_float alpha (tf.scalar alpha_p);
    a ← tf.mul alpha x1;
    na ← tf.sub (tf.scalar 1) alpha;
    b ← tf.mul na x2;
    tf.add a b.

(** Transformer preparations and encoder. *)
Definition encode `{TransformerLayers} (x x_space : tensor R)
           (hparams : AttentionHParams) (name : string) (rnd : nat -> R)
  : option (tensor R * tensor R) :=
  '(encoder_input, encoder_self_attention_bias, ed) ←
    transformer_prepare_encoder name x x_space hparams;
  encoder_input ← tf.nn_dropout encoder_input (1 - dropout hparams) rnd;
  out ← transformer_encoder name encoder_input encoder_self_attention_bias
          hparams;
  Some (out, ed).

(** Transformer decoder. *)
Definition decode `{Layers} (cond_vec cond_add : option (tensor R))
           (gold : tensor R) (c ed : option (tensor R)) (hparams : HParams)
           (rnd : nat -> R) : option (tensor R) :=
  drop_gold ←
    tf.nn_dropout gold (1 - layer_prepostprocess_dropout hparams) rnd;
  let decoder_input := common_layers.shift_right drop_gold cond_vec in
  decoder_input ←
    match cond_add with
    | Some a => tf.add decoder_input a
    | None => Some decoder_input
    end;
  decoder_input ← tf.squeeze decoder_input 2;
  let decoder_input := common_attention.add_timing_signal_1d decoder_input in
  len ← tf.dim gold 1;
  let bias := common_attention.attention_bias_lower_triangle len in
  c ← match c with
      | Some c' =>
          if 3 <? length (shape c') then c'' ← tf.squeeze c' 2; Some (Some c'')
          else Some (Some c')
      | None => Some None
      end;
  transformer_decoder decoder_input c bias ed hparams.

(** Expand on batch by mul times. *)
Definition expand_batch (x : tensor R) (mul : nat) : option (tensor R) :=
  cx ← tf.expand_dims x 1;
  let x_shape := shape x in
  let batch_mul := mul in
  cx ← tf.add cx (tf.zeros_float [1; batch_mul; 1; 1; 1]);
  mid_shape ←
    (if 3 <? length x_shape then d ← tf.dim x 2; Some [d] else Some []);
  end_shape ←
    (d ← last x_shape;
     if truthy d then Some [d]
     else d' ← tf.dim x (length x_shape - 1); Some [d']);
  s1 ← tf.dim x 1;
  tf.reshape_infer cx ([s1] ++ mid_shape ++ end_shape).

(** Compress, then AE. *)
Definition ae_compress `{Layers} `{TransformerLayers}
           (vars : gmap string (tensor R)) (x : tensor R) (is_2d : nat)
           (hparams : AttentionHParams) (name : string)
           (rnd : nat -> nat -> R)
  : option (tensor R * tensor R * R) :=
  cur ← compress x None is_2d hparams (name +:+ "/compress") rnd;
  (* Convolve and ReLu to get state. *)
  cur ← conv_block name cur (hidden_size hparams) [((1, 1), (1, 1))]
          {| first_relu := true; padding := None; strides := None |}
          "mid_conv";
  let cur := tf.l2_normalize cur 3 in
  cur_n ← tf.mul (tf.scalar (kmeans_lr_factor hparams)) cur;
  rest ← tf.mul (tf.scalar (1 - kmeans_lr_factor hparams))
           (tf.stop_gradient cur);
  cur_n ← tf.add cur_n rest;
  means ← tf.get_variable vars name "z_to_dense"
            [v_size hparams; hidden_size hparams];
  '(hot, loss) ← kmeans cur_n means hparams (name +:+ "/kmeans");
  (* We need a linear layer to undo the l2-normalization. *)
  cur ← tf.dense vars name cur (hidden_size hparams) "unnormalize";
  Some (cur, hot, loss).

(** The embedding of a code before the final dense layer of [ae_embed]. *)
Definition ae_embed_lookup (vars : gmap string (tensor R)) (hot : tensor R)
           (hparams : HParams) (name : string) : option (tensor R) :=
  means ← tf.get_variable vars name "z_to_dense"
            [v_size hparams; hidden_size hparams];
  hot_flat ← tf.reshape_infer hot [v_size hparams];
  emb ← tf.matmul hot_flat means;
  s0 ← tf.dim hot 0;
  s1 ← tf.dim hot 1;
  s2 ← tf.dim hot 2;
  tf.reshape emb [s0; s1; s2; hidden_size hparams].

Definition ae_embed (vars : gmap string (tensor R)) (hot : tensor R)
           (hparams : HParams) (name : string) : option (tensor R) :=
  emb ← ae_embed_lookup vars hot hparams name;
  tf.dense vars name emb (hidden_size hparams) "unnormalize".

(** Decompress from z, leaking from ae.  The generator outputs: [rnd 0]
    for [mix], [rnd 1] for the draw of [tf.cond], [rnd 2] for the dropout
    of [z], [rnd 3] for [decode] and [rnd (4 + i)] for the residual block
    of step [i]. *)
Definition ae_decompress `{Layers} `{TransformerLayers}
           (vars : gmap string (tensor R)) (z ae x : tensor R) (is_2d : nat)
           (hparams : AttentionHParams) (name : string)
           (rnd : nat -> nat -> R) : option (tensor R) :=
  let scope := name +:+ "_decompress" in
  (* Leak at the beginning to help train. *)
  z ← mix z ae (startup_steps hparams) 0 1 "lin" false (rnd 0);
  let prob_z := (inverse_exp_decay (startup_steps hparams) * 0.8)%R in
  let prob_z :=
    match mode hparams with
    | TRAIN => prob_z
    | _ => 1%R
    end in
  let z :=
    if Rlt_dec (tget 0%R (tf.random_uniform [] 0 1 (rnd 1)) []) prob_z
    then z else ae in
  (* Dropout for better autoencoding. *)
  z ← tf.nn_dropout z (1 - z_dropout hparams) (rnd 2);
  (* Decompress. *)
  let d := z in
  let k := if truthy is_2d then (3, 3) else (3, 1) in
  d ←
    fold_left
      (fun (acc : option (tensor R)) (i : nat) =>
         d ← acc;
         let j := num_compress_steps hparams - i - 1 in
         d ← residual_conv d 1 k hparams
               (scope +:+ "/decompress_rc_" +:+ string_of_nat j)
               (fun _ => rnd (4 + i));
         decompress_step d None hparams (0 <? i) is_2d
                         (scope +:+ "/decompress_" +:+ string_of_nat j))
      (seq 0 (num_compress_steps hparams)) (Some d);
  (* Autoregressive part. *)
  dec_batch ←
    (if negb (truthy is_2d) then
       let k := 2 ^ (num_compress_steps hparams
                     * (if truthy is_2d then 2 else 1)) in
       z_batch ← tf.reshape_infer z [1; 1; hidden_size hparams];
       x_batch ← tf.reshape_infer x [k; 1; hidden_size hparams];
       d_batch ← tf.reshape_infer d [k; 1; hidden_size hparams];
       decode (Some z_batch) (Some d_batch) x_batch None None hparams
              (rnd 3)
     else Some d);
  s1 ← tf.dim x 1;
  s2 ← tf.dim x 2;
  z ← tf.reshape_infer dec_batch [s1; s2; hidden_size hparams];
  if truthy is_2d then tf.dense vars scope z (hidden_size hparams * 3) "dense"
  else Some z.

Definition ffn `{TransformerLayers} (x : tensor R)
           (hparams : AttentionHParams) (name : string)
  : option (tensor R) :=
  p ← layer_preprocess name x hparams;
  y ← transformer_ffn_layer name p hparams;
  layer_postprocess name x y hparams.

(** AE Transformer, main step used for training.  [losses] is the
    dictionary returned beside [z]; the histogram summary of the codes is
    not part of the value, and [int(hparams.startup_steps * 0.8)] is
    [startup_steps * 4 / 5], rounded down.  The generator outputs:
    [rnd 0 0] for [encode], [rnd 1] for [ae_compress], [rnd 2 0] for the
    first [decode] and [rnd 3] for [ae_decompress]. *)
Definition ae_transformer_internal `{Layers} `{TransformerLayers}
           (vars : gmap string (tensor R))
           (inputs targets target_space : tensor R)
           (hparams : AttentionHParams) (rnd : nat -> nat -> nat -> R)
  : option (tensor R * gmap string (tensor R)) :=
  let scope := "ae_transformer" in
  (* Prepare inputs, targets, k. *)
  let k := 2 ^ num_compress_steps hparams in
  let targets := common_layers.pad_to_same_length targets k in
  inputs ← flatten4d3d inputs;
  '(inputs, ed) ←
    encode inputs target_space hparams (scope +:+ "/input_enc") (rnd 0 0);
  (* Compress and ae. *)
  '(ae, hot, kl) ←
    ae_compress vars targets (is_2d hparams) hparams (scope +:+ "/ae")
                (rnd 1);
  emb ← ae_embed vars hot hparams (scope +:+ "/ae");
  (* Compress context and run autoregressive decoder on emb-hot. *)
  emb_flat ← flatten4d3d emb;
  emb_flat ← tf.expand_dims emb_flat 2;
  dec_c ← decode None None emb_flat (Some inputs) (Some ed) hparams
            (rnd 2 0);
  dec_c ← tf.reshape dec_c (shape emb);
  c_z ← tf.dense vars scope dec_c (v_size hparams) "mask_context";
  reconstruct_loss ← tf.softmax_cross_entropy_with_logits hot c_z;
  (* If not training, use the predicted z instead of the autoregressive
     one. *)
  let hot :=
    match mode hparams with
    | PREDICT => tf.one_hot (tf.argmax_last c_z) (v_size hparams)
    | _ => hot
    end in
  (* Decompress, pass for ae loss. *)
  z ← ae_decompress vars emb ae targets (is_2d hparams) hparams
        (scope +:+ "/ae") (rnd 3);
  let kl :=
    (kl * inverse_exp_decay (startup_steps hparams * 4 / 5))%R in
  reconstruct_loss ←
    tf.mul reconstruct_loss
           (tf.scalar (inverse_exp_decay (startup_steps hparams)));
  let losses : gmap string (tensor R) :=
    {[ "kl" := tf.scalar kl; "reconstruction" := reconstruct_loss ]} in
  Some (z, losses).

(** ** The model class *)

(** Modelled from the spec: [t2t_model.T2TModel] is not in the sources at
    hand ("the broader model-registration framework it plugs into");
    [model_fn] reads the features, without updating them, and returns
    the sharded logits and the losses, and [_data_parallelism] applies a
    function to every shard; either may raise. *)
Class T2TModel := {
  model_fn :
    gmap string (tensor Z) -> bool -> bool -> option (list (tensor R) * R);
  data_parallelism :
    (tensor R -> option (tensor Z)) -> list (tensor R) ->
    option (list (tensor Z))
}.

(** [TransformerAE.model_fn_body], on the features after the input
    modalities; a missing key is an error. *)
Definition model_fn_body `{Layers} `{TransformerLayers}
           (vars : gmap string (tensor R))
           (features : gmap string (tensor R)) (hparams : AttentionHParams)
           (rnd : nat -> nat -> nat -> R)
  : option (tensor R * gmap string (tensor R)) :=
  inputs ← features !! "inputs";
  targets ← features !! "targets";
  target_space_id ← features !! "target_space_id";
  ae_transformer_internal vars inputs targets target_space_id hparams rnd.

(** Statements that read and update the [features] dictionary, and may
    raise: from the dictionary to the dictionary afterwards and the value,
    if any. *)
Definition Py (A : Type) : Type :=
  gmap string (tensor Z) -> gmap string (tensor Z) * option A.

#[export] Instance Py_ret : MRet Py := fun A a features => (features, Some a).

#[export] Instance Py_bind : MBind Py := fun A B k m features =>
  match m features with
  | (features', Some a) => k a features'
  | (features', None) => (features', None)
  end.

(** [v = None] is an exception raised by the framework. *)
Definition lift {A} (v : option A) : Py A := fun features => (features, v).

(** [key in features], [features[key]] and [features[key] = v]. *)
Definition contains (key : string) : Py bool :=
  fun features => (features, Some (bool_decide (is_Some (features !! key)))).

Definition getitem (key : string) : Py (tensor Z) :=
  fun features => (features, features !! key).

Definition setitem (key : string) (v : tensor Z) : Py unit :=
  fun features => (<[key := v]> features, Some tt).

Definition current_features : Py (gmap string (tensor Z)) :=
  fun features => (features, Some features).

(** One round of [infer]: the model on the current features, and the most
    likely symbol of every shard. *)
Definition sample `{T2TModel} (last_position_only : bool) : Py (tensor Z) :=
  features ← current_features;
  r ← lift (model_fn features false last_position_only);
  let sharded_logits := fst r in
  sharded_samples ←
    lift (data_parallelism
            (fun t => t' ← tf.argmax t 4; Some (tmap Z.of_nat t'))
            sharded_logits);
  lift (tf.concat0 sharded_samples).

(** The first statements of [TransformerAE.infer]: [inputs_old], and the
    inputs expanded in place when their rank is below 4. *)
Definition save_inputs : Py (option (tensor Z)) :=
  has_inputs ← contains "inputs";
  if (has_inputs : bool) then
    inputs ← getitem "inputs";
    if length (shape inputs) <? 4 then
      expanded ← lift (tf.expand_dims inputs 2);
      setitem "inputs" expanded;;
      mret (Some inputs)
    else mret None
  else mret None.

(** The body of [TransformerAE.infer] after [features] is bound. *)
Definition infer_body `{T2TModel} (last_position_only : bool)
  : Py (tensor Z) :=
  inputs_old ← save_inputs;
  (* Create an initial targets tensor. *)
  has_partial ← contains "partial_targets";
  initial_output ←
    (if (has_partial : bool) then getitem "partial_targets"
     else
       inputs ← getitem "inputs";
       batch_size ← lift (tf.dim inputs 0);
       mret (tf.zeros [batch_size; 1; 1; 1]) : Py (tensor Z));
  setitem "targets" initial_output;;
  samples ← sample last_position_only;
  (* More steps. *)
  let how_many_more_steps := 2 in
  samples ←
    fold_left
      (fun (acc : Py (tensor Z)) (_ : nat) =>
         samples ← acc;
         setitem "targets" samples;;
         sample last_position_only)
      (seq 0 how_many_more_steps) (mret samples);
  (* Restore to not confuse Estimator. *)
  (match inputs_old with
   | Some old => setitem "inputs" old
   | None => mret tt
   end : Py unit);;
  mret samples.

(** [TransformerAE.infer].  The first component is the caller's dictionary
    after the call ([None] when the caller passed none): an empty or
    missing [features] is replaced by a fresh dictionary the caller does
    not see. *)
Definition infer `{T2TModel} (features : option (gmap string (tensor Z)))
           (decode_length beam_size top_beams : nat)
           (last_position_only : bool) (alpha : R)
  : option (gmap string (tensor Z)) * option (tensor Z) :=
  match features with
  | Some f =>
      if bool_decide (f = ∅) then (Some f, snd (infer_body last_position_only ∅))
      else
        let r := infer_body last_position_only f in
        (Some (fst r), snd r)
  | None => (None, snd (infer_body last_position_only ∅))
  end.

(** ** The registered sets of hyperparameters *)

(** The value of a hyperparameter: unset, an integer, a float, or
    something else. *)
Inductive hvalue :=
| HNone
| HInt (n : Z)
| HFloat (r : R)
| HOther (s : string).

(** [hparams.add_hparam(name, value)] on the attributes of an [HParams]
    object: a name that is an attribute with a value is refused. *)
Definition add_hparam (hparams : gmap string hvalue) (name : string)
           (value : hvalue) : option (gmap string hvalue) :=
  match hparams !! name with
  | None | Some HNone => Some (<[name := value]> hparams)
  | Some _ => None
  end.

(** Set of hyperparameters.  [transformer_small] is the result of
    [transformer.transformer_small()]. *)
Definition transformer_ae_small (transformer_small : gmap string hvalue)
  : option (gmap string hvalue) :=
  let hparams := transformer_small in
  let hparams := <["batch_size" := HInt 2048]> hparams in
  let hparams := <["learning_rate_warmup_steps" := HInt 4000]> hparams in
  hparams ← add_hparam hparams "z_size" (HInt 128);
  hparams ← add_hparam hparams "v_size" (HInt (1024 * 32));
  hparams ← add_hparam hparams "num_compress_steps" (HInt 4);
  hparams ← add_hparam hparams "kl_warmup_steps" (HInt 60000);
  hparams ← add_hparam hparams "startup_steps" (HInt 30000);
  hparams ← add_hparam hparams "kmeans_lr_factor" (HFloat 0.002);
  hparams ← add_hparam hparams "z_dropout" (HFloat 0.1);
  hparams ← add_hparam hparams "is_2d" (HInt 0);
  Some hparams.

Definition transformer_ae_cifar (transformer_small : gmap string hvalue)
  : option (gmap string hvalue) :=
  hparams ← transformer_ae_small transformer_small;
  let hparams := <["batch_size" := HInt (1024 * 16)]> hparams in
  let hparams := <["num_compress_steps" := HInt 2]> hparams in
  let hparams := <["v_size" := HInt (1024 * 16)]> hparams in
  let hparams := <["startup_steps" := HInt 120000]> hparams in
  let hparams := <["is_2d" := HInt 1]> hparams in
  Some hparams.

(** Set of hyperparameters. *)
Definition transformer_ae_base (transformer_small : gmap string hvalue)
  : option (gmap string hvalue) :=
  hparams ← transformer_ae_small transformer_small;
  let hparams := <["hidden_size" := HInt 512]> hparams in
  let hparams := <["filter_size" := HInt 2048]> hparams in
  let hparams := <["attention_dropout" := HFloat 0.0]> hparams in
  let hparams := <["relu_dropout" := HFloat 0.0]> hparams in
  let hparams := <["dropout" := HFloat 0.0]> hparams in
  let hparams := <["num_hidden_layers" := HInt 4]> hparams in
  let hparams := <["z_size" := HInt 256]> hparams in
  Some hparams.

(** ** The shapes the compression and decompression paths compute

    What [compress], [decompress_step] and the decompression loop of
    [ae_decompress] do to the shape of their argument.  Layers that keep
    the shape of their input ([layer_norm], dropout) do not appear. *)

Module Shapes.

(** Output size of a convolution along one axis, for
    [stride > 0] and [n + stride >= kernel]. *)
Definition conv_size (p : Padding) (kernel stride n : nat) : nat :=
  match p with
  | SAME => (n + stride - 1) / stride
  | VALID => (n + stride - kernel) / stride
  end.

(** Modelled from the spec: [common_layers.conv_block] is not in the
    sources at hand; a stack of convolutions ("convolutional residual
    blocks") on a rank-4 input, one per kernel, with [filters] output
    channels.  [default_padding] is the padding it uses when the caller
    names none. *)
Definition conv_block (default_padding : Padding) (s : list nat)
           (filters : nat)
           (dilations_and_kernels : list ((nat * nat) * (nat * nat)))
           (args : ConvArgs) : option (list nat) :=
  let p := default default_padding (padding args) in
  let st := default (1, 1) (strides args) in
  fold_left
    (fun acc dk =>
       match acc with
       | Some [b; l; w; _] =>
           Some [b; conv_size p (fst (snd dk)) (fst st) l;
                 conv_size p (snd (snd dk)) (snd st) w; filters]
       | _ => None
       end)
    dilations_and_kernels (Some s).

Definition residual_conv (default_padding : Padding) (x : list nat)
           (repeat : nat) (k : nat * nat) (hparams : HParams)
  : option (list nat) :=
  let dilations_and_kernels := map (fun _ => ((1, 1), k)) (seq 0 3) in
  fold_left
    (fun acc _ =>
       x ← acc;
       y ← conv_block default_padding x (hidden_size hparams)
             dilations_and_kernels
             {| first_relu := true; padding := Some SAME; strides := None |};
       tf.bshape x y)
    (seq 0 repeat) (Some x).

(** [attend] squeezes axis 2, attends, and expands axis 2 again. *)
Definition attend (x : list nat) (hparams : HParams) : option (list nat) :=
  match x with
  | [b; l; 1; _] => Some [b; l; 1; hidden_size hparams]
  | _ => None
  end.

(** The first [steps] rounds of the loop of [compress]. *)
Definition compress_loop (default_padding : Padding) (x : list nat)
           (c : option (list nat)) (is_2d : bool) (hparams : HParams)
           (steps : nat) : option (list nat) :=
  let k1 := if is_2d then (3, 3) else (3, 1) in
  let k2 := if is_2d then (2, 2) else (2, 1) in
  fold_left
    (fun acc _ =>
       cur ← acc;
       cur ← match c with
             | Some _ => attend cur hparams
             | None => Some cur
             end;
       cur ← residual_conv default_padding cur 1 k1 hparams;
       conv_block default_padding cur (hidden_size hparams) [((1, 1), k2)]
         {| first_relu := true; padding := None; strides := Some k2 |})
    (seq 0 steps) (Some x).

Definition compress (default_padding : Padding) (x : list nat)
           (c : option (list nat)) (is_2d : bool) (hparams : HParams)
  : option (list nat) :=
  compress_loop default_padding x c is_2d hparams
                (num_compress_steps hparams).

(** [tf.depth_to_space(t, 2)]. *)
Definition depth_to_space2 (s : list nat) : option (list nat) :=
  match s with
  | [b; l; w; c] => if c mod 4 =? 0 then Some [b; l * 2; w * 2; c / 4]
                    else None
  | _ => None
  end.

Definition decompress_step (default_padding : Padding) (source : list nat)
           (c : option (list nat)) (hparams : HParams) (first_relu : bool)
           (is_2d : bool) : option (list nat) :=
  let shape := source in
  source ← match c with
           | Some _ => attend source hparams
           | None => Some source
           end;
  let multiplier := if is_2d then 4 else 2 in
  let kernel := if is_2d then (1, 1) else (1, 1) in
  thicker ← conv_block default_padding source
              (hidden_size hparams * multiplier) [((1, 1), kernel)]
              {| first_relu := first_relu; padding := None;
                 strides := None |};
  if is_2d then depth_to_space2 thicker
  else
    s0 ← shape !! 0;
    s1 ← shape !! 1;
    let target := [s0; s1 * 2; 1; hidden_size hparams] in
    if numel target =? numel thicker then Some target else None.

(** The first [steps] rounds of the decompression loop of
    [ae_decompress], from the shape of [z]. *)
Definition decompress_loop (default_padding : Padding) (z : list nat)
           (is_2d : bool) (hparams : HParams) (steps : nat)
  : option (list nat) :=
  let k := if is_2d then (3, 3) else (3, 1) in
  fold_left
    (fun acc i =>
       d ← acc;
       d ← residual_conv default_padding d 1 k hparams;
       decompress_step default_padding d None hparams (0 <? i) is_2d)
    (seq 0 steps) (Some z).

End Shapes.

(** ** The vocabulary of the properties *)

(** [hot] is one-hot over [v] along its last axis. *)
Definition one_hot_over (v : nat) (hot : tensor R) : Prop :=
  forall idx, in_range (removelast (shape hot)) idx ->
    exists j, j < v /\
      forall c, c < v ->
        tget 0%R hot (idx ++ [c]) = if c =? j then 1%R else 0%R.

(** The norm by which [tf.nn.l2_normalize(table, dim=1)] divides row [j]
    of a table. *)
Definition row_norm (n : nat) (table : tensor R) (j : nat) : R :=
  sqrt (Rmax (Rsum_n n (fun k => (tget 0 table [j; k] * tget 0 table [j; k])%R))
             tf.l2_epsilon).

(** The inner product of the vector of [x] at [pos] with the normalized
    row [j] of a table. *)
Definition inner_normalized (n : nat) (x table : tensor R) (pos : list nat)
           (j : nat) : R :=
  Rsum_n n (fun k =>
    (tget 0 x (pos ++ [k]) * (tget 0 table [j; k] * / row_norm n table j))%R).

(** The summed squared difference between the vector of [x] at [pos] and
    row [j] of a table. *)
Definition squared_distance (n : nat) (x table : tensor R) (pos : list nat)
           (j : nat) : R :=
  Rsum_n n (fun k =>
    let d := (tget 0 x (pos ++ [k]) - tget 0 table [j; k])%R in (d * d)%R).

(** The code [nearest] selects at position [pos]. *)
Definition nearest_index (n v : nat) (x means : tensor R) (pos : list nat)
  : nat :=
  tf.argmax_list (map (inner_normalized n x means pos) (seq 0 v)).

(** The kernel and the bias of the dense layer [name] under [scope]. *)
Definition dense_vars (vars : gmap string (tensor R)) (scope name : string)
           (n units : nat) (kernel bias : tensor R) : Prop :=
  tf.get_variable vars (scope +:+ "/" +:+ name) "kernel" [n; units]
  = Some kernel /\
  tf.get_variable vars (scope +:+ "/" +:+ name) "bias" [units] = Some bias.

(** The value of a dense layer at the leading index [pos] and unit [j]. *)
Definition dense_at (n : nat) (x kernel bias : tensor R) (pos : list nat)
           (j : nat) : R :=
  (Rsum_n n (fun k => tget 0 x (pos ++ [k]) * tget 0 kernel [k; j])
   + tget 0 bias [j])%R.

(** The summand of the KL term at one element. *)
Definition kl_element (mu log_sigma : R) : R :=
  (0.5 * (exp log_sigma + mu * mu - 1 - log_sigma))%R.

(** One additive residual step, the way the specification words it:
    [x <- x + dropout(conv_block(layer_norm(x)))], with the variables of
    repetition [i]. *)
Definition residual_step `{Layers} (k : nat * nat) (hparams : HParams)
           (name : string) (rnd : nat -> nat -> R) (i : nat) (x : tensor R)
  : option (tensor R) :=
  let scope := name +:+ "/repeat_" +:+ string_of_nat i in
  n ← layer_norm scope x (hidden_size hparams) "lnorm";
  y ← conv_block scope n (hidden_size hparams)
        [((1, 1), k); ((1, 1), k); ((1, 1), k)]
        {| first_relu := true; padding := Some SAME; strides := None |}
        "residual_conv";
  y ← tf.nn_dropout y (1 - dropout hparams) (rnd i);
  tf.add x y.

(** [repeat] steps in a row. *)
Fixpoint residual_steps `{Layers} (k : nat * nat) (hparams : HParams)
         (name : string) (rnd : nat -> nat -> R) (repeat : nat)
         (x : tensor R) : option (tensor R) :=
  match repeat with
  | 0 => Some x
  | S m =>
      x' ← residual_steps k hparams name rnd m x;
      residual_step k hparams name rnd m x'
  end.

(** The mask [tf.nn.dropout] multiplies with: [floor(keep_prob + u)] for
    the uniform draw [u] of the element. *)
Definition dropout_mask (s : list nat) (keep_prob : R) (rnd : nat -> R)
           (idx : list nat) : R :=
  IZR (Int_part (keep_prob + (rnd (ravel s idx) * (1 - 0) + 0))).

(** [x1] and [x2] have one shape and agree at every position (axis 1) up
    to and including [i]. *)
Definition agree_upto (i : nat) (x1 x2 : tensor R) : Prop :=
  shape x1 = shape x2 /\
  forall idx, in_range (shape x1) idx -> nth 1 idx 0 <= i ->
    tget 0%R x1 idx = tget 0%R x2 idx.

(** Two outcomes are both failures, or both tensors of one shape that
    agree at position [i]. *)
Definition agree_at (i : nat) (o1 o2 : option (tensor R)) : Prop :=
  match o1, o2 with
  | Some y1, Some y2 =>
      shape y1 = shape y2 /\
      forall idx, in_range (shape y1) idx -> nth 1 idx 0 = i ->
        tget 0%R y1 idx = tget 0%R y2 idx
  | None, None => True
  | _, _ => False
  end.

(** Modelled from the spec: [transformer.transformer_decoder] is not in
    the sources at hand; "a lower-triangular attention bias over the
    target length is applied to self-attention": under that bias the output
    at a position is a function of the inputs at that position and before
    it. *)
Definition decoder_respects_bias (L : Layers) : Prop :=
  forall (x1 x2 : tensor R) (c ed : option (tensor R)) (hparams : HParams)
         (i : nat),
    wf x1 -> wf x2 -> agree_upto i x1 x2 ->
    let bias :=
      common_attention.attention_bias_lower_triangle (nth 1 (shape x1) 0) in
    agree_at i (transformer_decoder x1 c bias ed hparams)
               (transformer_decoder x2 c bias ed hparams).

(** [m] leaves the entry at [key] as it is, however it ends. *)
Definition keeps {A} (key : string) (m : Py A) : Prop :=
  forall features, (m features).1 !! key = features !! key.

(** Whenever [m] returns, the entry at [key] is [v]. *)
Definition leaves {A} (key : string) (v : tensor Z) (m : Py A) : Prop :=
  forall features, is_Some (m features).2 -> (m features).1 !! key = Some v.

(** The intermediate width of the compression after [i] rounds. *)
Fixpoint compressed_width (p : Padding) (is_2d : bool) (w i : nat) : nat :=
  match i with
  | 0 => w
  | S j =>
      Shapes.conv_size p (if is_2d then 2 else 1) (if is_2d then 2 else 1)
                       (compressed_width p is_2d w j)
  end.

(** The width of the decompression after [i] rounds. *)
Definition decompressed_width (is_2d : bool) (w i : nat) : nat :=
  if is_2d then w * 2 ^ i else w.

(** The summed squared difference between the vector of [x] at [pos] and
    the l2-normalized row [j] of a table. *)
Definition normalized_distance (n : nat) (x table : tensor R)
           (pos : list nat) (j : nat) : R :=
  Rsum_n n (fun k =>
    let d := (tget 0 x (pos ++ [k])
              - tget 0 table [j; k] * / row_norm n table j)%R in
    (d * d)%R).

(** [hparams] with another [kmeans_lr_factor]. *)
Definition with_kmeans_lr_factor (f : R) (hparams : AttentionHParams)
  : AttentionHParams :=
  {| model_hparams :=
       {| hidden_size := hidden_size hparams;
          dropout := dropout hparams;
          layer_prepostprocess_dropout := layer_prepostprocess_dropout hparams;
          z_size := z_size hparams;
          v_size := v_size hparams;
          num_compress_steps := num_compress_steps hparams;
          kl_warmup_steps := kl_warmup_steps hparams;
          startup_steps := startup_steps hparams;
          kmeans_lr_factor := f;
          z_dropout := z_dropout hparams;
          is_2d := is_2d hparams;
          mode := mode hparams |};
     attention_key_channels := attention_key_channels hparams;
     attention_value_channels := attention_value_channels hparams;
     num_heads := num_heads hparams;
     attention_dropout := attention_dropout hparams |}.

(** When [m] raises, the entry at [key] is what it was. *)
Definition keeps_on_raise {A} (key : string) (m : Py A) : Prop :=
  forall features,
    (m features).2 = None -> (m features).1 !! key = features !! key.

(** The names [transformer_ae_small] adds, and the names it assigns. *)
Definition added_names : list string :=
  ["z_size"; "v_size"; "num_compress_steps"; "kl_warmup_steps";
   "startup_steps"; "kmeans_lr_factor"; "z_dropout"; "is_2d"].

Definition assigned_names : list string :=
  ["batch_size"; "learning_rate_warmup_steps"].

(** [name] is no attribute of [hparams], or one without a value. *)
Definition is_free (hparams : gmap string hvalue) (name : string) : bool :=
  match hparams !! name with
  | None | Some HNone => true
  | Some _ => false
  end.

(** Modelled from the spec: the layers have the shapes the model of
    [common_layers.conv_block] in [Shapes] gives them, and their results
    are well formed; [layer_norm] keeps the shape. *)
Definition conv_shapes (p : Padding) (L : Layers) : Prop :=
  (forall scope x filters dks args name y,
     conv_block scope x filters dks args name = Some y ->
     Shapes.conv_block p (shape x) filters dks args = Some (shape y)
     /\ wf y) /\
  (forall scope x filters name y,
     layer_norm scope x filters name = Some y -> shape y = shape x).

(** [s] ends with [suffix]. *)
Fixpoint ends_with (s suffix : string) : bool :=
  String.eqb s suffix ||
  match s with
  | EmptyString => false
  | String _ s' => ends_with s' suffix
  end.

(** The variables of the dense layers of [dae] ("mask") and of [vae]
    ("mu" and "log_sigma"), under whatever scope [name] they are called:
    the names that end with one of these. *)
Definition dae_vae_variables : list string :=
  ["/mask/kernel"; "/mask/bias"; "/mu/kernel"; "/mu/bias";
   "/log_sigma/kernel"; "/log_sigma/bias"].

Definition is_dae_vae_variable (key : string) : bool :=
  existsb (ends_with key) dae_vae_variables.

(** The variable store without the variables of [dae] and [vae]. *)
Definition without_dae_vae (vars : gmap string (tensor R))
  : gmap string (tensor R) :=
  filter (fun kv => is_dae_vae_variable kv.1 = false) vars.

(** The first [steps] rounds of the loop of [compress]. *)
Definition compress_rounds `{Layers} `{TransformerLayers} (x : tensor R)
           (c : option (tensor R)) (is_2d : nat)
           (hparams : AttentionHParams) (name : string)
           (rnd : nat -> nat -> R) (steps : nat) : option (tensor R) :=
  let k1 := if truthy is_2d then (3, 3) else (3, 1) in
  let k2 := if truthy is_2d then (2, 2) else (2, 1) in
  fold_left
    (fun (acc : option (tensor R)) (i : nat) =>
       cur ← acc;
       cur ←
         match c with
         | Some c' =>
             attend cur c' hparams
                    (name +:+ "/compress_attend_" +:+ string_of_nat i)
         | None => Some cur
         end;
       cur ← residual_conv cur 1 k1 hparams
               (name +:+ "/compress_rc_" +:+ string_of_nat i)
               (fun _ => rnd i);
       conv_block name cur (hidden_size hparams) [((1, 1), k2)]
         {| first_relu := true; padding := None; strides := Some k2 |}
         ("compress_" +:+ string_of_nat i))
    (seq 0 steps) (Some x).

(** What [ae_decompress] decompresses: [z] after the leak from [ae] and
    the dropout. *)
Definition ae_decompress_input `{Layers} (z ae : tensor R)
           (hparams : AttentionHParams) (rnd : nat -> nat -> R)
  : option (tensor R) :=
  z ← mix z ae (startup_steps hparams) 0 1 "lin" false (rnd 0);
  let prob_z := (inverse_exp_decay (startup_steps hparams) * 0.8)%R in
  let prob_z :=
    match mode hparams with
    | TRAIN => prob_z
    | _ => 1%R
    end in
  let z :=
    if Rlt_dec (tget 0%R (tf.random_uniform [] 0 1 (rnd 1)) []) prob_z
    then z else ae in
  tf.nn_dropout z (1 - z_dropout hparams) (rnd 2).

(** The first [steps] rounds of the decompression loop of
    [ae_decompress]. *)
Definition ae_decompress_rounds `{Layers} `{TransformerLayers}
           (z : tensor R) (is_2d : nat) (hparams : AttentionHParams)
           (name : string) (rnd : nat -> nat -> R) (steps : nat)
  : option (tensor R) :=
  let scope := name +:+ "_decompress" in
  let k := if truthy is_2d then (3, 3) else (3, 1) in
  fold_left
    (fun (acc : option (tensor R)) (i : nat) =>
       d ← acc;
       let j := num_compress_steps hparams - i - 1 in
       d ← residual_conv d 1 k hparams
             (scope +:+ "/decompress_rc_" +:+ string_of_nat j)
             (fun _ => rnd (4 + i));
       decompress_step d None hparams (0 <? i) is_2d
                       (scope +:+ "/decompress_" +:+ string_of_nat j))
    (seq 0 steps) (Some z).

(** ** Concrete inputs *)

Definition example_hparams : HParams :=
  {| hidden_size := 2; dropout := 0; layer_prepostprocess_dropout := 0;
     z_size := 1; v_size := 2; num_compress_steps := 2;
     kl_warmup_steps := 60; startup_steps := 30;
     kmeans_lr_factor := 0.002; z_dropout := 0.1; is_2d := 0;
     mode := TRAIN |}.

(** A decoder that respects the lower-triangular bias: its output at a
    position is the sum of its inputs at the positions up to it. *)
Definition prefix_sum_decoder (x : tensor R) : tensor R :=
  tabulate (shape x) (fun idx =>
    Rsum_n (S (nth 1 idx 0)) (fun j => tget 0%R x (<[1 := j]> idx))).

Definition example_layers : Layers :=
  {| conv_block := fun _ x _ _ _ _ => Some x;
     layer_norm := fun _ x _ _ => Some x;
     inverse_lin_decay := fun _ => (1 / 2)%R;
     inverse_exp_decay := fun _ => (1 / 4)%R;
     timing_signal := fun _ _ _ _ => 0%R;
     transformer_decoder := fun x _ _ _ _ => Some (prefix_sum_decoder x) |}.

(** A model with one shard and a vocabulary of one symbol. *)
Definition example_model : T2TModel :=
  {| model_fn := fun _ _ _ => Some ([Tensor [1; 1; 1; 1; 1] [0%R]], 0%R);
     data_parallelism := fun f shards => mapM f shards |}.

(** A model whose [model_fn] raises. *)
Definition raising_model : T2TModel :=
  {| model_fn := fun _ _ _ => None;
     data_parallelism := fun f shards => mapM f shards |}.

Definition example_features : gmap string (tensor Z) :=
  {[ "inputs" := Tensor [1; 1; 1] [7%Z] ]}.

(** Codes of two symbols over two channels, and two positions coded by
    the second and the first symbol. *)
Definition example_means : tensor R := Tensor [2; 2] [1; 0; 0; 1]%R.

Definition example_hot : tensor R := Tensor [1; 2; 1; 2] [0; 1; 1; 0]%R.

Definition example_x : tensor R := Tensor [1; 2; 1; 2] [0; 3; 2; 1]%R.

Definition example_vars : gmap string (tensor R) :=
  {[ "ae/z_to_dense" := example_means;
     "vae/mu/kernel" := Tensor [2; 1] [1; 1]%R;
     "vae/mu/bias" := Tensor [1] [0]%R;
     "vae/log_sigma/kernel" := Tensor [2; 1] [0; 0]%R;
     "vae/log_sigma/bias" := Tensor [1] [0]%R ]}.

(** An input of [vae] with two entries along axis 2. *)
Definition example_wide : tensor R := Tensor [1; 1; 2; 2] [1; 2; 3; 4]%R.

(** Attention layers that pass their first tensor on; [flatten4d3d]
    merges axes 1 and 2. *)
Definition example_transformer_layers : TransformerLayers :=
  {| multihead_attention := fun _ q _ _ _ _ _ _ _ => Some q;
     layer_preprocess := fun _ x _ => Some x;
     layer_postprocess := fun _ _ y _ => Some y;
     transformer_ffn_layer := fun _ x _ => Some x;
     transformer_prepare_encoder := fun _ x _ _ => Some (x, x, x);
     transformer_encoder := fun _ x _ _ => Some x;
     flatten4d3d := fun x =>
       match shape x with
       | [b; l; w; h] => Some (Tensor [b; l * w; h] (data x))
       | _ => None
       end |}.

Definition example_attention_hparams : AttentionHParams :=
  {| model_hparams := example_hparams;
     attention_key_channels := 0; attention_value_channels := 0;
     num_heads := 1; attention_dropout := 0 |}.

(** Hyperparameters for evaluation: no compression step and one code. *)
Definition example_eval_hparams : AttentionHParams :=
  {| model_hparams :=
       {| hidden_size := 2; dropout := 0; layer_prepostprocess_dropout := 0;
          z_size := 1; v_size := 1; num_compress_steps := 0;
          kl_warmup_steps := 60; startup_steps := 30;
          kmeans_lr_factor := 0.002; z_dropout := 0; is_2d := 0;
          mode := EVAL |};
     attention_key_channels := 0; attention_value_channels := 0;
     num_heads := 1; attention_dropout := 0 |}.

(** Layers whose convolutions return zeros of the shape the shape model
    gives. *)
Definition shaped_layers (p : Padding) : Layers :=
  {| conv_block := fun _ x filters dks args _ =>
       s ← Shapes.conv_block p (shape x) filters dks args;
       Some (tf.zeros_float s);
     layer_norm := fun _ x _ _ => Some x;
     inverse_lin_decay := fun _ => 1%R;
     inverse_exp_decay := fun _ => 1%R;
     timing_signal := fun _ _ _ _ => 0%R;
     transformer_decoder := fun x _ _ _ _ => Some (prefix_sum_decoder x) |}.

(** The variables of the examples of [dae], [ae_compress] and
    [ae_transformer_internal]. *)
Definition example_model_vars : gmap string (tensor R) :=
  {[ "dae/mask/kernel" := Tensor [2; 2] [1; 0; 0; 1]%R;
     "dae/mask/bias" := Tensor [2] [0; 0]%R;
     "ae/z_to_dense" := example_means;
     "ae/unnormalize/kernel" := Tensor [2; 2] [1; 0; 0; 1]%R;
     "ae/unnormalize/bias" := Tensor [2] [0; 0]%R;
     "ae_transformer/ae/z_to_dense" := Tensor [1; 2] [1; 0]%R;
     "ae_transformer/ae/unnormalize/kernel" := Tensor [2; 2] [1; 0; 0; 1]%R;
     "ae_transformer/ae/unnormalize/bias" := Tensor [2] [0; 0]%R;
     "ae_transformer/mask_context/kernel" := Tensor [2; 1] [1; 1]%R;
     "ae_transformer/mask_context/bias" := Tensor [1] [0]%R ]}.

(** A batch of two sequences of length 1. *)
Definition example_pair : tensor R := Tensor [2; 1; 1] [1; 2]%R.

(** A sequence of two positions with four channels. *)
Definition example_thick : tensor R :=
  Tensor [1; 2; 1; 4] [1; 2; 3; 4; 5; 6; 7; 8]%R.

(** Hyperparameters for training: no compression step and one code. *)
Definition example_train_hparams : AttentionHParams :=
  {| model_hparams :=
       {| hidden_size := 2; dropout := 0; layer_prepostprocess_dropout := 0;
          z_size := 1; v_size := 1; num_compress_steps := 0;
          kl_warmup_steps := 60; startup_steps := 30;
          kmeans_lr_factor := 0.002; z_dropout := 0; is_2d := 0;
          mode := TRAIN |};
     attention_key_channels := 0; attention_value_channels := 0;
     num_heads := 1; attention_dropout := 0 |}.

(** Hyperparameters for training with one compression step and one
    code. *)
Definition example_compress_hparams : AttentionHParams :=
  {| model_hparams :=
       {| hidden_size := 2; dropout := 0; layer_prepostprocess_dropout := 0;
          z_size := 1; v_size := 1; num_compress_steps := 1;
          kl_warmup_steps := 60; startup_steps := 30;
          kmeans_lr_factor := 0.002; z_dropout := 0; is_2d := 0;
          mode := TRAIN |};
     attention_key_channels := 0; attention_value_channels := 0;
     num_heads := 1; attention_dropout := 0 |}.

(** Targets of three positions. *)
Definition example_targets : tensor R :=
  Tensor [1; 3; 1; 2] [1; 2; 3; 4; 5; 6]%R.

(** The variables of the dense layer of [ae_decompress] for 2d problems,
    under the scope "ae". *)
Definition example_2d_vars : gmap string (tensor R) :=
  {[ "ae_decompress/dense/kernel" :=
       Tensor [2; 6] [1; 0; 0; 0; 0; 0; 0; 1; 0; 0; 0; 0]%R;
     "ae_decompress/dense/bias" := Tensor [6] [0; 0; 0; 0; 0; 0]%R ]}.

(** * Properties *)

(** ** Shapes and indices *)

Lemma numel_app (s1 s2 : list nat) : numel (s1 ++ s2) = numel s1 * numel s2.
Proof. induction s1 as [|d s1 IH]; simpl; [lia | rewrite IH; lia]. Qed.

Lemma in_range_length (s idx : list nat) :
  in_range s idx -> length idx = length s.
Proof. apply Forall2_length. Qed.

Lemma ravel_lt (s idx : list nat) : in_range s idx -> ravel s idx < numel s.
Proof.
  unfold in_range. intros H. induction H as [|i d idx s Hi _ IH]; simpl.
  - lia.
  - nia.
Qed.

Lemma unravel_in_range (s : list nat) (n : nat) :
  n < numel s -> in_range s (unravel s n).
Proof.
  unfold in_range. revert n. induction s as [|d s IH]; simpl; intros n Hn.
  - constructor.
  - assert (Hs : numel s <> 0) by (intros E; rewrite E in Hn; lia).
    constructor.
    + apply Nat.Div0.div_lt_upper_bound. lia.
    + apply IH. apply Nat.mod_upper_bound. exact Hs.
Qed.

Lemma ravel_unravel (s : list nat) (n : nat) :
  n < numel s -> ravel s (unravel s n) = n.
Proof.
  revert n. induction s as [|d s IH]; simpl; intros n Hn.
  - lia.
  - assert (Hs : numel s <> 0) by (intros E; rewrite E in Hn; lia).
    rewrite IH by (apply Nat.mod_upper_bound; exact Hs).
    pose proof (Nat.div_mod_eq n (numel s)). lia.
Qed.

Lemma unravel_ravel (s idx : list nat) :
  in_range s idx -> unravel s (ravel s idx) = idx.
Proof.
  unfold in_range. intros H. induction H as [|i d idx s Hi Hr IH]; simpl.
  - reflexivity.
  - pose proof (ravel_lt s idx Hr) as Hlt.
    assert (Hs : numel s <> 0) by lia.
    f_equal.
    + rewrite Nat.div_add_l by exact Hs. rewrite Nat.div_small by exact Hlt. lia.
    + rewrite Nat.add_comm, Nat.Div0.mod_add.
      rewrite Nat.mod_small by exact Hlt. exact IH.
Qed.

Lemma length_tabulate {A} (s : list nat) (f : list nat -> A) :
  length (data (tabulate s f)) = numel s.
Proof. unfold tabulate. simpl. rewrite length_map, length_seq. reflexivity. Qed.

Lemma wf_tabulate {A} (s : list nat) (f : list nat -> A) : wf (tabulate s f).
Proof. unfold wf. rewrite length_tabulate. reflexivity. Qed.

Lemma nth_map_seq {A} (d : A) (g : nat -> A) (n i : nat) :
  i < n -> nth i (map g (seq 0 n)) d = g i.
Proof.
  intros Hi. rewrite (nth_indep _ d (g 0)) by (rewrite length_map, length_seq; lia).
  rewrite (map_nth g (seq 0 n) 0 i). rewrite seq_nth by exact Hi. reflexivity.
Qed.

(** Reading a tabulated tensor at an index in range gives the tabulated
    function at that index. *)
Lemma tget_tabulate {A} (d : A) (s : list nat) (f : list nat -> A)
      (idx : list nat) :
  in_range s idx -> tget d (tabulate s f) idx = f idx.
Proof.
  intros H. unfold tget, tabulate. simpl.
  rewrite nth_map_seq by (apply ravel_lt; exact H).
  rewrite unravel_ravel by exact H. reflexivity.
Qed.

(** Two well-formed tensors of one shape with equal elements are equal. *)
Lemma tensor_ext {A} (d : A) (t1 t2 : tensor A) :
  shape t1 = shape t2 -> wf t1 -> wf t2 ->
  (forall idx, in_range (shape t1) idx -> tget d t1 idx = tget d t2 idx) ->
  t1 = t2.
Proof.
  destruct t1 as [s1 d1], t2 as [s2 d2]. unfold wf, tget. simpl.
  intros -> H1 H2 Hext. f_equal.
  apply (nth_ext _ _ d d); [lia|].
  intros n Hn. rewrite H1 in Hn.
  specialize (Hext (unravel s2 n) (unravel_in_range s2 n Hn)).
  rewrite ravel_unravel in Hext by exact Hn. exact Hext.
Qed.

Lemma in_range_cons_inv (d : nat) (s idx : list nat) :
  in_range (d :: s) idx ->
  exists i idx', idx = i :: idx' /\ i < d /\ in_range s idx'.
Proof.
  unfold in_range. intros H. inversion H; subst. eauto.
Qed.

Lemma in_range_nil_inv (idx : list nat) : in_range [] idx -> idx = [].
Proof. unfold in_range. intros H. inversion H. reflexivity. Qed.

Lemma in_range_cons (d i : nat) (s idx : list nat) :
  i < d -> in_range s idx -> in_range (d :: s) (i :: idx).
Proof. unfold in_range. intros. constructor; assumption. Qed.

Lemma in_range_nil : in_range [] [].
Proof. constructor. Qed.

(** Name the coordinates of an index known to be in range of a shape of
    known rank. *)
Ltac inv_range H :=
  repeat match type of H with
  | in_range (_ :: _) _ =>
      let i := fresh "i" in
      let idx := fresh "idx" in
      let Hi := fresh "Hi" in
      let E := fresh "E" in
      destruct (in_range_cons_inv _ _ _ H) as (i & idx & E & Hi & H');
      subst; clear H; rename H' into H
  | in_range [] _ => apply in_range_nil_inv in H; subst
  end.

(** ** Sums *)

Lemma Rsum_n_ext (n : nat) (f g : nat -> R) :
  (forall k, k < n -> f k = g k) -> Rsum_n n f = Rsum_n n g.
Proof.
  intros H. unfold Rsum_n. f_equal. apply map_ext_in.
  intros k Hk. apply in_seq in Hk. apply H. lia.
Qed.

Lemma Rsum_n_S (n : nat) (f : nat -> R) :
  Rsum_n (S n) f = (Rsum_n n f + f n)%R.
Proof.
  unfold Rsum_n. rewrite seq_S, map_app. simpl.
  generalize (map f (seq 0 n)). intros l.
  induction l as [|a l IH]; simpl; [lra | rewrite IH; lra].
Qed.

Lemma Rsum_n_zero (n : nat) (f : nat -> R) :
  (forall k, k < n -> f k = 0%R) -> Rsum_n n f = 0%R.
Proof.
  induction n as [|n IH]; intros H.
  - reflexivity.
  - rewrite Rsum_n_S, IH by (intros; apply H; lia).
    rewrite H by lia. lra.
Qed.

(** A sum against an indicator selects one term. *)
Lemma Rsum_n_indicator (n j : nat) (g : nat -> R) :
  j < n ->
  Rsum_n n (fun k => ((if k =? j then 1 else 0) * g k)%R) = g j.
Proof.
  induction n as [|n IH]; intros Hj; [lia|].
  rewrite Rsum_n_S. destruct (Nat.eq_dec j n) as [->|Hne].
  - rewrite Nat.eqb_refl. rewrite Rsum_n_zero.
    + lra.
    + intros k Hk. destruct (Nat.eqb_spec k n); [lia | lra].
  - rewrite IH by lia. destruct (Nat.eqb_spec n j); [lia | lra].
Qed.

(** ** The index of the largest entry *)

Lemma argmax_from_spec (l : list R) :
  forall (bi : nat) (bv : R) (i : nat),
    bi < i ->
    let r := tf.argmax_from bi bv i l in
    (r = bi /\ forall k, k < length l -> (nth k l 0 <= bv)%R)
    \/ (i <= r < i + length l /\
        (bv <= nth (r - i) l 0)%R /\
        forall k, k < length l -> (nth k l 0 <= nth (r - i) l 0)%R).
Proof.
  induction l as [|a l IH]; intros bi bv i Hlt; simpl.
  - left. split; [reflexivity | intros; lia].
  - destruct (Rlt_dec bv a) as [Hba|Hba].
    + right. destruct (IH i a (S i)) as [[Hr Hall]|(Hr & Hge & Hall)]; [lia| |].
      * rewrite Hr. replace (i - i) with 0 by lia.
        split; [simpl; lia|]. split; [lra|].
        intros [|k] Hk; [lra | apply Hall; simpl in Hk; lia].
      * set (r := tf.argmax_from i a (S i) l) in *.
        replace (r - i) with (S (r - S i)) by lia.
        split; [simpl; lia|]. split; [simpl; lra|].
        intros [|k] Hk; [exact Hge | apply Hall; simpl in Hk; lia].
    + destruct (IH bi bv (S i)) as [[Hr Hall]|(Hr & Hge & Hall)]; [lia| |].
      * left. split; [exact Hr|].
        intros [|k] Hk; [lra | apply Hall; simpl in Hk; lia].
      * right. set (r := tf.argmax_from bi bv (S i) l) in *.
        replace (r - i) with (S (r - S i)) by lia.
        split; [simpl; lia|]. split; [exact Hge|].
        intros [|k] Hk; [simpl; lra | apply Hall; simpl in Hk; lia].
Qed.

(** On a vector that is not empty, [argmax_list] is the index of an entry
    no other entry exceeds. *)
Lemma argmax_list_spec (l : list R) :
  0 < length l ->
  tf.argmax_list l < length l /\
  forall k, k < length l -> (nth k l 0 <= nth (tf.argmax_list l) l 0)%R.
Proof.
  destruct l as [|a l]; simpl; [lia|]. intros _.
  destruct (argmax_from_spec l 0 a 1) as [[Hr Hall]|(Hr & Hge & Hall)]; [lia| |].
  - rewrite Hr. split; [lia|].
    intros [|k] Hk; [lra | apply Hall; lia].
  - set (r := tf.argmax_from 0 a 1 l) in *.
    split; [lia|]. destruct r as [|r]; [lia|].
    replace (S r - 1) with r in * by lia.
    intros [|k] Hk; [exact Hge | apply Hall; lia].
Qed.

(** The largest entry of a one-hot vector is the hot one. *)
Lemma argmax_list_one_hot (l : list R) (j : nat) :
  j < length l ->
  (forall c, c < length l -> nth c l 0%R = if c =? j then 1%R else 0%R) ->
  tf.argmax_list l = j.
Proof.
  intros Hj Hhot.
  destruct (argmax_list_spec l) as [Hlt Hmax]; [lia|].
  specialize (Hmax j Hj). rewrite (Hhot j Hj), Nat.eqb_refl in Hmax.
  rewrite (Hhot _ Hlt) in Hmax.
  destruct (Nat.eqb_spec (tf.argmax_list l) j); [assumption | lra].
Qed.


(** ** Reshaping *)

Lemma reshape_infer_last {A} (t : tensor A) (pre : list nat) (d : nat) :
  wf t -> shape t = pre ++ [d] -> 0 < d ->
  tf.reshape_infer t [d] = Some (Tensor [numel pre; d] (data t)).
Proof.
  unfold wf, tf.reshape_infer. intros Hwf Hs Hd.
  rewrite Hwf, Hs, numel_app. simpl numel.
  destruct (Nat.eqb_spec (d * 1) 0); [lia|].
  rewrite Nat.Div0.mod_mul, Nat.eqb_refl.
  rewrite Nat.div_mul by lia. reflexivity.
Qed.

Lemma reshape_ok {A} (t : tensor A) (s : list nat) :
  numel s = length (data t) -> tf.reshape t s = Some (Tensor s (data t)).
Proof. unfold tf.reshape. intros ->. rewrite Nat.eqb_refl. reflexivity. Qed.

Lemma last_axis_one_hot (hot : tensor R) (v j : nat) (idx : list nat) :
  List.last (shape hot) 1 = v -> j < v ->
  (forall c, c < v -> tget 0%R hot (idx ++ [c]) = if c =? j then 1%R else 0%R) ->
  tf.argmax_list (tf.last_axis hot idx) = j.
Proof.
  intros Hv Hj Hhot. apply argmax_list_one_hot.
  - unfold tf.last_axis. rewrite length_map, length_seq, Hv. exact Hj.
  - unfold tf.last_axis. rewrite length_map, length_seq, Hv. intros c Hc.
    rewrite nth_map_seq by exact Hc. apply Hhot. exact Hc.
Qed.

Lemma argmax_list_lt (l : list R) : 0 < length l -> tf.argmax_list l < length l.
Proof. intros H. apply argmax_list_spec. exact H. Qed.

Arguments tabulate {A} s f : simpl never.

Lemma shape_tabulate {A} (s : list nat) (f : list nat -> A) :
  shape (tabulate s f) = s.
Proof. reflexivity. Qed.

Ltac obind := cbn [mbind option_bind].

Ltac solve_range :=
  repeat (apply in_range_cons; [first [assumption | lia]|]);
  apply in_range_nil.

Lemma tget_reshape_tabulate {A} (d : A) (s s' : list nat)
      (f : list nat -> A) (idx idx' : list nat) :
  ravel s' idx' = ravel s idx -> in_range s idx ->
  tget d (Tensor s' (data (tabulate s f))) idx' = f idx.
Proof.
  intros E H. rewrite <- (tget_tabulate d s f idx H).
  unfold tget. simpl. rewrite E. reflexivity.
Qed.

Lemma forallb_tabulate {A} (p : A -> bool) (s : list nat)
      (f : list nat -> A) :
  (forall idx, p (f idx) = true) ->
  forallb p (data (tabulate s f)) = true.
Proof.
  intros H. apply forallb_forall. intros x Hx. unfold tabulate in Hx.
  simpl in Hx. apply in_map_iff in Hx. destruct Hx as (n & <- & _). apply H.
Qed.

Lemma argmax_last_in_bounds (t : tensor R) (v : nat) :
  List.last (shape t) 1 = v -> 0 < v ->
  forallb (fun i => i <? v) (data (tf.argmax_last t)) = true.
Proof.
  intros Hl Hv. unfold tf.argmax_last. apply forallb_tabulate. intros idx.
  apply Nat.ltb_lt.
  pose proof (argmax_list_lt (tf.last_axis t idx)) as H.
  unfold tf.last_axis in H at 1 3. rewrite length_map, length_seq, Hl in H.
  apply H. exact Hv.
Qed.

Lemma get_variable_shape (vars : gmap string (tensor R))
      (scope name : string) (s : list nat) (v : tensor R) :
  tf.get_variable vars scope name s = Some v -> shape v = s.
Proof.
  unfold tf.get_variable. destruct (vars !! _) as [v'|]; [|discriminate].
  destruct (decide (shape v' = s)); [|discriminate].
  intros [= <-]. assumption.
Qed.

(** On a one-hot tensor the matrix product of [ae_embed] and the lookup of
    [kmeans] select the same rows of the table. *)
Lemma ae_embed_lookup_gather (vars : gmap string (tensor R))
      (hot means : tensor R) (hparams : HParams) (name : string)
      (b l w : nat) :
  tf.get_variable vars name "z_to_dense"
                  [v_size hparams; hidden_size hparams] = Some means ->
  shape hot = [b; l; w; v_size hparams] ->
  wf hot ->
  0 < v_size hparams ->
  one_hot_over (v_size hparams) hot ->
  exists x_means,
    tf.gather means (tf.argmax_last hot) = Some x_means /\
    ae_embed_lookup vars hot hparams name = Some x_means /\
    shape x_means = [b; l; w; hidden_size hparams].
Proof.
  set (v := v_size hparams). set (h := hidden_size hparams).
  intros Hvar Hsh Hwh Hv Hhot.
  pose proof (get_variable_shape _ _ _ _ _ Hvar) as Hsm. fold v h in Hsm.
  unfold ae_embed_lookup. fold v h. fold v h in Hvar. rewrite Hvar.
  obind.
  rewrite (reshape_infer_last hot [b; l; w] v Hwh Hsh Hv). obind.
  unfold tf.matmul. cbn [shape]. rewrite Hsm. rewrite Nat.eqb_refl. obind.
  unfold tf.dim. rewrite Hsh. cbn [lookup list_lookup]. obind.
  rewrite reshape_ok.
  2:{ rewrite length_tabulate. simpl. lia. }
  unfold tf.gather. rewrite Hsm.
  rewrite (argmax_last_in_bounds hot v) by (rewrite ?Hsh; auto).
  eexists. split; [reflexivity|].
  unfold tf.argmax_last. rewrite Hsh. cbn [removelast].
  rewrite !shape_tabulate. cbn [app length].
  split; [|reflexivity]. f_equal. symmetry.
  apply (tensor_ext 0%R); rewrite ?shape_tabulate; cbn [shape].
  - reflexivity.
  - apply wf_tabulate.
  - unfold wf. cbn [shape data]. rewrite length_tabulate. simpl. lia.
  - intros idx Hin. inv_range Hin.
    rewrite tget_tabulate by solve_range.
    cbn [take drop].
    rewrite tget_tabulate by solve_range.
    rewrite (tget_reshape_tabulate _ _ _ _ [ravel [b; l; w] [i; i0; i1]; i2]).
    2:{ simpl. ring. }
    2:{ apply in_range_cons; [|solve_range].
        apply ravel_lt. solve_range. }
    cbn [nth].
    destruct (Hhot [i; i0; i1]) as (j & Hj & Hrow).
    { rewrite Hsh. cbn [removelast]. solve_range. }
    rewrite (last_axis_one_hot hot v j [i; i0; i1]); [|rewrite Hsh; reflexivity|exact Hj|exact Hrow].
    rewrite <- (Rsum_n_indicator v j (fun k => tget 0%R means [k; i2]) Hj).
    apply Rsum_n_ext. intros k Hk. f_equal.
    rewrite <- (Hrow k Hk). unfold tget. cbn [shape data app].
    rewrite Hsh. f_equal. simpl. ring.
Qed.




(** ** Elementwise operations *)

Lemma tget_tmap {A B} (d : A) (d' : B) (f : A -> B) (t : tensor A)
      (idx : list nat) :
  f d = d' -> tget d' (tmap f t) idx = f (tget d t idx).
Proof.
  intros <-. unfold tget, tmap. cbn [shape data]. apply map_nth.
Qed.

Lemma tget_neg (t : tensor R) (idx : list nat) :
  tget 0%R (tf.neg t) idx = (- tget 0%R t idx)%R.
Proof. apply tget_tmap. lra. Qed.

Lemma tget_square (t : tensor R) (idx : list nat) :
  tget 0%R (tf.square t) idx = (tget 0%R t idx * tget 0%R t idx)%R.
Proof. unfold tf.square. rewrite (tget_tmap 0%R); [reflexivity | lra]. Qed.

Lemma bdim_same (a : nat) : tf.bdim a a = Some a.
Proof. unfold tf.bdim. rewrite Nat.eqb_refl. reflexivity. Qed.

Lemma bshape_rev_same (s : list nat) : tf.bshape_rev s s = Some s.
Proof.
  induction s as [|a s IH]; [reflexivity|].
  simpl. rewrite bdim_same, IH. reflexivity.
Qed.

Lemma bshape_same (s : list nat) : tf.bshape s s = Some s.
Proof. unfold tf.bshape. rewrite bshape_rev_same, rev_involutive. reflexivity. Qed.

Lemma bindex_same (s idx : list nat) :
  in_range s idx -> tf.bindex s idx = idx.
Proof.
  intros H. unfold tf.bindex. rewrite (in_range_length s idx H).
  rewrite Nat.sub_diag, drop_0.
  unfold in_range in H. induction H as [|i d idx s Hi _ IH]; [reflexivity|].
  cbn [zip_with]. rewrite IH. destruct (Nat.eqb_spec d 1); [|reflexivity].
  f_equal. lia.
Qed.

Lemma bget_same {A} (d : A) (t : tensor A) (idx : list nat) :
  in_range (shape t) idx -> tf.bget d t idx = tget d t idx.
Proof. intros H. unfold tf.bget. rewrite bindex_same by exact H. reflexivity. Qed.

(** On tensors of one shape an elementwise operation acts element by
    element. *)
Lemma bop_same (f : R -> R -> R) (x y : tensor R) :
  shape x = shape y ->
  tf.bop f x y =
  Some (tabulate (shape x)
          (fun idx => f (tf.bget 0%R x idx) (tf.bget 0%R y idx))).
Proof.
  intros E. unfold tf.bop. rewrite <- E, bshape_same. reflexivity.
Qed.

Lemma Rsum_data_tabulate (s : list nat) (f : list nat -> R) :
  Rsum (data (tabulate s f)) = Rsum_n (numel s) (fun n => f (unravel s n)).
Proof. reflexivity. Qed.

Lemma shape_tmap {A B} (f : A -> B) (t : tensor A) : shape (tmap f t) = shape t.
Proof. reflexivity. Qed.

Lemma shape_neg (t : tensor R) : shape (tf.neg t) = shape t.
Proof. reflexivity. Qed.

Lemma shape_l2_normalize (t : tensor R) (dim : nat) :
  shape (tf.l2_normalize t dim) = shape t.
Proof. reflexivity. Qed.

Lemma matmul_transpose_b_ok (a b : tensor R) (n k m : nat) :
  shape a = [n; k] -> shape b = [m; k] ->
  tf.matmul_transpose_b a b =
  Some (tabulate [n; m] (fun idx =>
          Rsum_n k (fun l =>
            (tget 0 a [nth 0 idx 0%nat; l] * tget 0 b [nth 1 idx 0%nat; l])%R))).
Proof.
  intros Ha Hb. unfold tf.matmul_transpose_b. rewrite Ha, Hb, Nat.eqb_refl.
  reflexivity.
Qed.

Lemma top_k1_indices_ok (t : tensor R) (n v : nat) :
  shape t = [n; v] -> 0 < v ->
  tf.top_k1_indices t =
  Some (tabulate [n; 1] (fun idx =>
          tf.argmax_list (tf.last_axis t (removelast idx)))).
Proof.
  intros Ht Hv. unfold tf.top_k1_indices. rewrite Ht. cbn [List.last removelast app].
  destruct (Nat.eqb_spec v 0); [lia | reflexivity].
Qed.

Lemma squeeze_column {A} (t : tensor A) (n : nat) :
  shape t = [n; 1] -> tf.squeeze t 1 = Some (Tensor [n] (data t)).
Proof. intros Ht. unfold tf.squeeze. rewrite Ht. reflexivity. Qed.

Lemma last_axis_neg_neg (t : tensor R) (idx : list nat) :
  tf.last_axis (tf.neg (tf.neg t)) idx = tf.last_axis t idx.
Proof.
  unfold tf.last_axis. rewrite !shape_neg. apply map_ext. intros k.
  rewrite !tget_neg. lra.
Qed.

Lemma tget_l2_normalize_rows (table : tensor R) (m n j k : nat) :
  shape table = [m; n] -> j < m -> k < n ->
  tget 0%R (tf.l2_normalize table 1) [j; k]
  = (tget 0 table [j; k] * / row_norm n table j)%R.
Proof.
  intros Hs Hj Hk. unfold tf.l2_normalize. rewrite Hs.
  rewrite tget_tabulate by solve_range. reflexivity.
Qed.

(** What [nearest] evaluates to on a [b, l, w, hidden_size] input. *)
Lemma nearest_eq (x means : tensor R) (hparams : HParams) (b l w : nat) :
  shape x = [b; l; w; hidden_size hparams] ->
  wf x ->
  shape means = [v_size hparams; hidden_size hparams] ->
  0 < hidden_size hparams ->
  0 < v_size hparams ->
  let n := numel [b; l; w] in
  let x_flat := Tensor [n; hidden_size hparams] (data x) in
  let prod :=
    tabulate [n; v_size hparams] (fun idx =>
      Rsum_n (hidden_size hparams) (fun k =>
        (tget 0 x_flat [nth 0 idx 0%nat; k]
         * tget 0 (tf.l2_normalize means 1) [nth 1 idx 0%nat; k])%R)) in
  let idx :=
    Tensor [n]
      (data (tabulate [n; 1] (fun idx =>
         tf.argmax_list (tf.last_axis (tf.neg (tf.neg prod))
                                      (removelast idx))))) in
  nearest x means hparams =
  Some (Tensor [b; l; w; v_size hparams]
               (data (tf.one_hot idx (v_size hparams)))).
Proof.
  set (v := v_size hparams). set (h := hidden_size hparams).
  intros Hsx Hwx Hsm Hh Hv n x_flat prod idx.
  unfold nearest, tf.stop_gradient. fold v h.
  rewrite (reshape_infer_last x [b; l; w] h Hwx Hsx Hh). obind.
  rewrite (matmul_transpose_b_ok _ _ n h v)
    by (try reflexivity; rewrite shape_l2_normalize; exact Hsm).
  obind.
  rewrite (top_k1_indices_ok _ n v) by (reflexivity || exact Hv).
  obind. rewrite (squeeze_column _ n) by reflexivity.
  obind. unfold tf.dim. rewrite Hsx. cbn [lookup list_lookup]. obind.
  rewrite reshape_ok.
  2:{ unfold tf.one_hot. rewrite length_tabulate. subst n. simpl. lia. }
  reflexivity.
Qed.

Lemma nearest_rows (x means : tensor R) (hparams : HParams) (b l w : nat) :
  shape x = [b; l; w; hidden_size hparams] ->
  wf x ->
  shape means = [v_size hparams; hidden_size hparams] ->
  0 < hidden_size hparams ->
  0 < v_size hparams ->
  let sel := nearest_index (hidden_size hparams) (v_size hparams) x means in
  exists hot : tensor R,
    nearest x means hparams = Some hot /\
    shape hot = [b; l; w; v_size hparams] /\
    wf hot /\
    (forall pos, in_range [b; l; w] pos ->
       sel pos < v_size hparams /\
       (forall c, c < v_size hparams ->
          tget 0%R hot (pos ++ [c]) = if c =? sel pos then 1%R else 0%R) /\
       (forall j, j < v_size hparams ->
          (inner_normalized (hidden_size hparams) x means pos j
           <= inner_normalized (hidden_size hparams) x means pos (sel pos))%R)).
Proof.
  set (v := v_size hparams). set (h := hidden_size hparams).
  intros Hsx Hwx Hsm Hh Hv sel.
  pose proof (nearest_eq x means hparams b l w Hsx Hwx Hsm Hh Hv) as Hn.
  cbv zeta in Hn. fold v h in Hn.
  set (n := numel [b; l; w]) in *.
  set (x_flat := Tensor [n; h] (data x)) in *.
  set (prod := tabulate [n; v] _) in *.
  set (idx := Tensor [n] _) in *.
  exists (Tensor [b; l; w; v] (data (tf.one_hot idx v))).
  split; [exact Hn|]. split; [reflexivity|].
  split.
  { unfold wf, tf.one_hot. cbn [shape data]. rewrite length_tabulate.
    subst n. simpl. lia. }
  intros pos Hpos.
  assert (Hp : ravel [b; l; w] pos < n) by (apply ravel_lt; exact Hpos).
  set (p := ravel [b; l; w] pos) in *.
  assert (Hlen : length (tf.last_axis prod [p]) = v).
  { unfold tf.last_axis. rewrite length_map, length_seq. reflexivity. }
  assert (Hprod : forall j, j < v ->
            nth j (tf.last_axis prod [p]) 0%R = inner_normalized h x means pos j).
  { intros j Hj. unfold tf.last_axis. change (shape prod) with [n; v].
    cbn [List.last]. rewrite nth_map_seq by exact Hj. cbn [app].
    unfold prod. rewrite tget_tabulate by solve_range. cbn [nth].
    unfold inner_normalized. apply Rsum_n_ext. intros k Hk.
    rewrite (tget_l2_normalize_rows means v h) by assumption.
    f_equal. unfold tget, x_flat. cbn [shape data]. rewrite Hsx. f_equal.
    inv_range Hpos. subst p. simpl. ring. }
  assert (Hsel : tf.last_axis prod [p]
                 = map (inner_normalized h x means pos) (seq 0 v)).
  { apply (nth_ext _ _ 0%R 0%R); [rewrite Hlen, length_map, length_seq; reflexivity|].
    intros j Hj. rewrite Hlen in Hj. rewrite Hprod, nth_map_seq by exact Hj.
    reflexivity. }
  destruct (argmax_list_spec (tf.last_axis prod [p])) as [Hlt Hmax]; [lia|].
  rewrite Hlen in Hlt, Hmax. rewrite Hsel in Hlt at 1.
  assert (Esel : tf.argmax_list (tf.last_axis prod [p]) = sel pos)
    by (rewrite Hsel; reflexivity).
  split; [exact Hlt|]. split.
  - intros c Hc. inv_range Hpos. cbn [app].
    unfold tf.one_hot.
    rewrite (tget_reshape_tabulate _ _ _ _ [p; c]).
    2:{ subst p idx. cbn [shape app]. simpl. ring. }
    2:{ subst idx. cbn [shape app]. solve_range. }
    cbn [List.last removelast]. unfold idx.
    rewrite (tget_reshape_tabulate _ _ _ _ [p; 0]).
    2:{ simpl. lia. }
    2:{ solve_range. }
    cbn [removelast]. rewrite last_axis_neg_neg, Esel. reflexivity.
  - intros j Hj. rewrite <- !Hprod by assumption. rewrite <- Esel.
    apply Hmax. exact Hj.
Qed.

Lemma gather_rows (params : tensor R) (indices : tensor nat) (n m : nat) :
  shape params = [n; m] ->
  forallb (fun i => i <? n) (data indices) = true ->
  tf.gather params indices =
  Some (tabulate (shape indices ++ [m]) (fun idx =>
          tget 0%R params
               (tget 0 indices (take (length (shape indices)) idx)
                :: drop (length (shape indices)) idx))).
Proof.
  intros Hs Hb. unfold tf.gather. rewrite Hs, Hb. reflexivity.
Qed.

Lemma kmeans_loss (x means : tensor R) (hparams : HParams) (name : string)
      (b l w : nat) :
  shape x = [b; l; w; hidden_size hparams] ->
  wf x ->
  shape means = [v_size hparams; hidden_size hparams] ->
  0 < hidden_size hparams ->
  0 < v_size hparams ->
  let sel := nearest_index (hidden_size hparams) (v_size hparams) x means in
  exists hot : tensor R,
    nearest x means hparams = Some hot /\
    kmeans x means hparams name =
    Some (hot,
          (10 * (Rsum_n (b * l * w) (fun p =>
                   let pos := unravel [b; l; w] p in
                   squared_distance (hidden_size hparams) x means pos (sel pos))
                 / INR (b * l * w)))%R).
Proof.
  set (v := v_size hparams). set (h := hidden_size hparams).
  intros Hsx Hwx Hsm Hh Hv sel.
  destruct (nearest_rows x means hparams b l w Hsx Hwx Hsm Hh Hv)
    as (hot & Hn & Hsh & Hwh & Hrows).
  fold v h in Hsh, Hrows. fold sel in Hrows.
  exists hot. split; [exact Hn|].
  unfold kmeans. rewrite Hn. obind.
  rewrite (gather_rows means _ v h Hsm)
    by (apply argmax_last_in_bounds; [rewrite Hsh; reflexivity | exact Hv]).
  obind. unfold tf.argmax_last at 1 2. rewrite !shape_tabulate, Hsh.
  cbn [removelast app length].
  set (x_means := tabulate [b; l; w; h] _).
  unfold tf.sub. rewrite (bop_same _ x x_means) by (rewrite Hsx; reflexivity).
  obind. rewrite Hsx. set (d := tabulate [b; l; w; h] _).
  unfold tf.reduce_mean, tf.reduce_sum_last.
  change (shape (tf.square d)) with [b; l; w; h]. cbn [removelast List.last].
  rewrite shape_tabulate, Rsum_data_tabulate.
  replace (numel [b; l; w]) with (b * l * w) by (simpl; lia).
  do 2 f_equal.
  rewrite (Rsum_n_ext (b * l * w) _
             (fun p => squared_distance h x means (unravel [b; l; w] p)
                         (sel (unravel [b; l; w] p)))).
  { lra. }
  intros p Hp.
  assert (Hpos : in_range [b; l; w] (unravel [b; l; w] p))
    by (apply unravel_in_range; simpl; lia).
  remember (unravel [b; l; w] p) as pos eqn:Epos. clear Epos.
  destruct (Hrows pos Hpos) as (Hlt & Hhot & _).
  unfold squared_distance. apply Rsum_n_ext. intros k Hk.
  assert (Hin : in_range [b; l; w; h] (pos ++ [k])).
  { inv_range Hpos. cbn [app]. solve_range. }
  rewrite tget_square. unfold d. rewrite tget_tabulate by exact Hin.
  rewrite !bget_same by (rewrite ?Hsx; exact Hin).
  unfold x_means at 1 2. rewrite tget_tabulate by exact Hin.
  unfold tf.argmax_last. rewrite shape_tabulate, Hsh. cbn [removelast length].
  inv_range Hpos. cbn [app take drop].
  rewrite tget_tabulate by solve_range.
  rewrite (last_axis_one_hot hot v (sel [i; i0; i1]) [i; i0; i1]);
    [reflexivity | rewrite Hsh; reflexivity | exact Hlt | exact Hhot].
Qed.


(** ** Broadcasting a scalar *)

Lemma bshape_scalar_l (s : list nat) : tf.bshape [] s = Some s.
Proof. unfold tf.bshape. cbn [rev tf.bshape_rev]. rewrite rev_involutive. reflexivity. Qed.

Lemma bshape_scalar_r (s : list nat) : tf.bshape s [] = Some s.
Proof.
  unfold tf.bshape. cbn [rev]. destruct (rev s) as [|a r] eqn:E.
  - cbn [tf.bshape_rev]. rewrite <- E, rev_involutive. reflexivity.
  - cbn [tf.bshape_rev]. rewrite <- E, rev_involutive. reflexivity.
Qed.

Lemma bop_scalar_l (f : R -> R -> R) (a : R) (x : tensor R) :
  tf.bop f (tf.scalar a) x =
  Some (tabulate (shape x) (fun idx => f a (tf.bget 0%R x idx))).
Proof. unfold tf.bop. cbn [shape tf.scalar]. rewrite bshape_scalar_l. reflexivity. Qed.

Lemma bop_scalar_r (f : R -> R -> R) (x : tensor R) (a : R) :
  tf.bop f x (tf.scalar a) =
  Some (tabulate (shape x) (fun idx => f (tf.bget 0%R x idx) a)).
Proof. unfold tf.bop. cbn [shape tf.scalar]. rewrite bshape_scalar_r. reflexivity. Qed.

Lemma tget_random_uniform (s : list nat) (lo hi : R) (rnd : nat -> R)
      (idx : list nat) :
  in_range s idx ->
  tget 0%R (tf.random_uniform s lo hi rnd) idx
  = (rnd (ravel s idx) * (hi - lo) + lo)%R.
Proof.
  intros H. unfold tget, tf.random_uniform. cbn [shape data].
  rewrite nth_map_seq by (apply ravel_lt; exact H). reflexivity.
Qed.

(** ** [mix] *)

(** C3.  The annealed blending schedule mixes from [x2] toward [x1]: for
    tensors of one shape, [mix] computes the probability [alpha_p], the
    chosen decay (linear for mode "lin", exponential otherwise) rescaled
    to [min_prob, max_prob] (and inside that interval when the decay is in
    [0, 1]); with [simple] it returns [alpha_p * x1 + (1 - alpha_p) * x2],
    which is [x2] for [alpha_p = 0] and [x1] for [alpha_p = 1]; without
    [simple] each element of the result is the element of [x1] when the
    uniform draw of that element is below [alpha_p] and the element of
    [x2] otherwise. *)
Theorem mix_spec `{Layers} (x1 x2 : tensor R) (steps : nat)
      (min_prob max_prob : R) (mode : string) (simple : bool)
      (rnd : nat -> R) :
  shape x1 = shape x2 ->
  let decay := if String.eqb mode "lin" then inverse_lin_decay steps
               else inverse_exp_decay steps in
  let alpha_p := mix_alpha_p steps min_prob max_prob mode in
  alpha_p = (decay * (max_prob - min_prob) + min_prob)%R /\
  ((0 <= decay <= 1)%R -> (min_prob <= max_prob)%R ->
   (min_prob <= alpha_p <= max_prob)%R) /\
  exists r,
    mix x1 x2 steps min_prob max_prob mode simple rnd = Some r /\
    shape r = shape x1 /\
    forall idx, in_range (shape x1) idx ->
      (simple = true ->
         tget 0%R r idx
         = (alpha_p * tget 0 x1 idx + (1 - alpha_p) * tget 0 x2 idx)%R /\
         (alpha_p = 0%R -> tget 0%R r idx = tget 0%R x2 idx) /\
         (alpha_p = 1%R -> tget 0%R r idx = tget 0%R x1 idx)) /\
      (simple = false ->
         tget 0%R r idx
         = if Rlt_dec (rnd (ravel (shape x1) idx)) alpha_p
           then tget 0%R x1 idx else tget 0%R x2 idx).
Proof.
  intros Hs decay alpha_p.
  split; [reflexivity|]. split.
  { intros Hd Hm. unfold alpha_p, mix_alpha_p. fold decay. nra. }
  unfold mix. fold alpha_p. destruct simple.
  - unfold tf.mul, tf.add. rewrite !bop_scalar_l. obind.
    rewrite bop_same by (rewrite !shape_tabulate; exact Hs). obind.
    rewrite shape_tabulate.
    eexists. split; [reflexivity|]. split; [reflexivity|].
    intros idx Hin. split; [|discriminate]. intros _.
    rewrite tget_tabulate by exact Hin.
    rewrite !bget_same by (rewrite shape_tabulate, <- ?Hs; exact Hin).
    rewrite !tget_tabulate by (rewrite <- ?Hs; exact Hin).
    rewrite !bget_same by (rewrite <- ?Hs; exact Hin).
    split; [reflexivity|]. split; intros ->; lra.
  - unfold tf.less_float, tf.mul, tf.sub, tf.add.
    rewrite bop_scalar_r. obind.
    set (alpha := tabulate _ _).
    rewrite (bop_same _ alpha x1) by reflexivity. obind.
    rewrite bop_scalar_l. obind.
    rewrite bop_same by (rewrite !shape_tabulate; exact Hs). obind.
    rewrite bop_same by reflexivity. obind.
    rewrite !shape_tabulate.
    eexists. split; [reflexivity|]. split; [reflexivity|].
    intros idx Hin. split; [discriminate|]. intros _.
    change (shape (tf.random_uniform (shape x1) 0 1 rnd)) with (shape x1) in *.
    assert (Hin2 : in_range (shape x2) idx) by (rewrite <- Hs; exact Hin).
    repeat (first [ rewrite tget_tabulate by assumption
                  | rewrite bget_same by (rewrite ?shape_tabulate; assumption) ]).
    unfold alpha.
    repeat (first [ rewrite tget_tabulate by assumption
                  | rewrite bget_same by (rewrite ?shape_tabulate; assumption) ]).
    rewrite tget_random_uniform by exact Hin.
    replace (rnd (ravel (shape x1) idx) * (1 - 0) + 0)%R
      with (rnd (ravel (shape x1) idx)) by lra.
    destruct (Rlt_dec (rnd (ravel (shape x1) idx)) alpha_p); lra.
Qed.


(** ** [gumbel_sample] *)

Lemma tget_tmap_wf {A B} (d : A) (d' : B) (f : A -> B) (t : tensor A)
      (idx : list nat) :
  wf t -> in_range (shape t) idx ->
  tget d' (tmap f t) idx = f (tget d t idx).
Proof.
  unfold wf, tget, tmap. cbn [shape data]. intros Hwf Hin.
  rewrite (nth_indep _ d' (f d)).
  - apply map_nth.
  - rewrite length_map, Hwf. apply ravel_lt. exact Hin.
Qed.

Lemma wf_tmap {A B} (f : A -> B) (t : tensor A) : wf t -> wf (tmap f t).
Proof. unfold wf, tmap. cbn [shape data]. rewrite length_map. auto. Qed.

Lemma wf_random_uniform (s : list nat) (lo hi : R) (rnd : nat -> R) :
  wf (tf.random_uniform s lo hi rnd).
Proof.
  unfold wf, tf.random_uniform. cbn [shape data].
  rewrite length_map, length_seq. reflexivity.
Qed.

Lemma ln_le_mono (a b : R) : (0 < a)%R -> (a <= b)%R -> (ln a <= ln b)%R.
Proof.
  intros Ha [Hlt | ->]; [|lra]. left. apply ln_increasing; assumption.
Qed.

Lemma ln_le_minus_1 (y : R) : (0 < y)%R -> (ln y <= y - 1)%R.
Proof.
  intros Hy. pose proof (exp_ineq1_le (y - 1)) as H.
  replace (1 + (y - 1))%R with y in H by lra.
  rewrite <- (ln_exp (y - 1)). apply ln_le_mono; assumption.
Qed.

(** C8.  Gumbel samples are finite: [gumbel_sample] draws uniform samples
    in [0.00001, 0.99998] and returns [-log(-log(u))]; for every shape and
    every element both logarithms are taken of a positive number, and the
    element lies between [-log(-log(0.00001))] and
    [-log(-log(0.99998))], which are between -100000 and 100000. *)
Theorem gumbel_sample_finite (s : list nat) (rnd : nat -> R) :
  (forall n, (0 <= rnd n < 1)%R) ->
  shape (gumbel_sample s rnd) = s /\
  forall idx, in_range s idx ->
    let u := tget 0%R (tf.random_uniform s 0.00001 0.99998 rnd) idx in
    (0.00001 <= u < 0.99998)%R /\
    (0 < u)%R /\ (0 < - ln u)%R /\
    tget 0%R (gumbel_sample s rnd) idx = (- ln (- ln u))%R /\
    (- ln (- ln 0.00001) <= tget 0%R (gumbel_sample s rnd) idx
     < - ln (- ln 0.99998))%R /\
    (-100000 < tget 0%R (gumbel_sample s rnd) idx < 100000)%R.
Proof.
  intros Hrnd. split; [reflexivity|]. intros idx Hin u.
  assert (Hu : (0.00001 <= u < 0.99998)%R).
  { unfold u. rewrite tget_random_uniform by exact Hin.
    specialize (Hrnd (ravel s idx)). nra. }
  assert (Hpos : (0 < u)%R) by lra.
  assert (Hln : (ln u < 0)%R).
  { rewrite <- ln_1. apply ln_increasing; lra. }
  assert (Hget : tget 0%R (gumbel_sample s rnd) idx = (- ln (- ln u))%R).
  { unfold gumbel_sample, tf.neg, tf.log.
    pose proof (wf_random_uniform s 0.00001 0.99998 rnd) as Hwf.
    rewrite (tget_tmap_wf 0%R), (tget_tmap_wf 0%R), (tget_tmap_wf 0%R),
      (tget_tmap_wf 0%R);
      repeat first [ exact Hin | exact Hwf | apply wf_tmap | reflexivity ]. }
  assert (Hlo : (- ln (- ln 0.00001) <= tget 0 (gumbel_sample s rnd) idx)%R).
  { rewrite Hget. apply Ropp_le_contravar. apply ln_le_mono; [lra|].
    apply Ropp_le_contravar. apply ln_le_mono; lra. }
  assert (Hhi_ln : (ln 0.99998 < 0)%R).
  { rewrite <- ln_1. apply ln_increasing; lra. }
  assert (Hhi : (tget 0 (gumbel_sample s rnd) idx < - ln (- ln 0.99998))%R).
  { rewrite Hget. apply Ropp_lt_contravar. apply ln_increasing; [lra|].
    apply Ropp_lt_contravar. apply ln_increasing; lra. }
  (* the two bounds in numbers *)
  assert (Hlo_n : (-100000 < - ln (- ln 0.00001))%R).
  { assert (Hl : (ln 0.00001 < 0)%R).
    { rewrite <- ln_1. apply ln_increasing; lra. }
    assert (H1 : (- ln 0.00001 <= 100000 - 1)%R).
    { rewrite <- ln_Rinv by lra. replace (/ 0.00001)%R with 100000%R by lra.
      apply ln_le_minus_1. lra. }
    pose proof (ln_le_minus_1 (- ln 0.00001) ltac:(lra)). lra. }
  assert (Hhi_n : (- ln (- ln 0.99998) < 100000)%R).
  { assert (H1 : (0.00002 <= - ln 0.99998)%R).
    { pose proof (ln_le_minus_1 0.99998 ltac:(lra)). lra. }
    assert (H2 : (ln 0.00002 <= ln (- ln 0.99998))%R)
      by (apply ln_le_mono; lra).
    assert (H3 : (- ln 0.00002 <= 50000 - 1)%R).
    { rewrite <- ln_Rinv by lra. replace (/ 0.00002)%R with 50000%R by lra.
      apply ln_le_minus_1. lra. }
    lra. }
  repeat split; try assumption; lra.
Qed.


(** ** More on indices and sums *)

Lemma ravel_snoc (s idx : list nat) (d k : nat) :
  length idx = length s ->
  ravel (s ++ [d]) (idx ++ [k]) = ravel s idx * d + k.
Proof.
  revert idx. induction s as [|a s IH]; intros [|i idx] Hlen;
    try discriminate; cbn [app ravel].
  - simpl. lia.
  - rewrite IH by (simpl in Hlen; lia). rewrite numel_app. simpl. ring.
Qed.

Lemma in_range_snoc (s idx : list nat) (d k : nat) :
  in_range s idx -> k < d -> in_range (s ++ [d]) (idx ++ [k]).
Proof.
  unfold in_range. intros H Hk. apply Forall2_app; [exact H|].
  constructor; [exact Hk | constructor].
Qed.

Lemma unravel_snoc (s : list nat) (d p k : nat) :
  p < numel s -> k < d ->
  unravel (s ++ [d]) (p * d + k) = unravel s p ++ [k].
Proof.
  intros Hp Hk.
  pose proof (unravel_in_range s p Hp) as Hin.
  rewrite <- (ravel_unravel s p Hp) at 1.
  rewrite <- ravel_snoc by (apply in_range_length; exact Hin).
  apply unravel_ravel. apply in_range_snoc; assumption.
Qed.

Lemma Rsum_n_add (a c : nat) (f : nat -> R) :
  Rsum_n (a + c) f = (Rsum_n a f + Rsum_n c (fun k => f (a + k)%nat))%R.
Proof.
  induction c as [|c IH].
  - rewrite Nat.add_0_r. unfold Rsum_n at 3. simpl. lra.
  - rewrite Nat.add_succ_r, !Rsum_n_S, IH. lra.
Qed.

(** A sum over a product range is a double sum. *)
Lemma Rsum_n_mul (p z : nat) (f : nat -> R) :
  Rsum_n (p * z) f = Rsum_n p (fun i => Rsum_n z (fun k => f (i * z + k))).
Proof.
  induction p as [|p IH].
  - reflexivity.
  - rewrite Rsum_n_S, <- IH.
    replace (S p * z) with (p * z + z) by lia.
    apply Rsum_n_add.
Qed.

Lemma Rsum_n_scale (n : nat) (c : R) (f : nat -> R) :
  Rsum_n n (fun k => (c * f k)%R) = (c * Rsum_n n f)%R.
Proof.
  induction n as [|n IH].
  - unfold Rsum_n. simpl. lra.
  - rewrite !Rsum_n_S, IH. lra.
Qed.

(** ** [tf.layers.dense] *)

Lemma dense_ok (vars : gmap string (tensor R)) (scope name : string)
      (x kernel bias : tensor R) (pre : list nat) (n units : nat) :
  shape x = pre ++ [n] ->
  dense_vars vars scope name n units kernel bias ->
  tf.dense vars scope x units name =
  Some (tabulate (pre ++ [units]) (fun idx =>
          dense_at n x kernel bias (removelast idx) (List.last idx 0))).
Proof.
  intros Hs [Hk Hb]. unfold tf.dense. rewrite Hs, last_last, removelast_last.
  rewrite Hk, Hb. reflexivity.
Qed.

(** Broadcasting along axis 2 of a rank-4 tensor. *)
Lemma bshape_axis2 (b l w z : nat) :
  tf.bshape [b; l; w; z] [b; l; 1; z] = Some [b; l; w; z].
Proof.
  unfold tf.bshape. cbn [rev app tf.bshape_rev]. rewrite !bdim_same.
  assert (E : tf.bdim w 1 = Some w).
  { unfold tf.bdim. destruct (Nat.eqb_spec w 1); [reflexivity|]. reflexivity. }
  rewrite E. reflexivity.
Qed.

Lemma bindex_axis2 (b l w z i0 i1 i2 k : nat) :
  i0 < b -> i1 < l -> k < z ->
  tf.bindex [b; l; 1; z] [i0; i1; i2; k] = [i0; i1; 0; k].
Proof.
  intros H0 H1 Hk. unfold tf.bindex. cbn [length Nat.sub drop zip_with Nat.eqb].
  destruct (Nat.eqb_spec b 1), (Nat.eqb_spec l 1), (Nat.eqb_spec z 1);
    repeat f_equal; lia.
Qed.

Lemma bop_axis2 (f : R -> R -> R) (x y : tensor R) (b l w z : nat) :
  shape x = [b; l; w; z] -> shape y = [b; l; 1; z] ->
  tf.bop f x y =
  Some (tabulate [b; l; w; z]
          (fun idx => f (tf.bget 0%R x idx) (tf.bget 0%R y idx))).
Proof.
  intros Hx Hy. unfold tf.bop. rewrite Hx, Hy, bshape_axis2. reflexivity.
Qed.

Lemma tget_random_normal (s : list nat) (rnd : nat -> R) (idx : list nat) :
  in_range s idx -> tget 0%R (tf.random_normal s rnd) idx = rnd (ravel s idx).
Proof.
  intros H. unfold tget, tf.random_normal. cbn [shape data].
  rewrite nth_map_seq by (apply ravel_lt; exact H). reflexivity.
Qed.

(** ** [vae] *)

(** C4 (amended).  The reparameterization of [vae]: for an input [x] of
    shape [b, l, w, n] with the variables of the two dense layers in
    place, [vae] returns [z], [kl], [mu] and [log_sigma], where [mu] and
    [log_sigma] are the dense projections of [x] to [z_size], [epsilon] is
    a standard-normal draw of shape [b, l, 1, z_size], shared along axis
    2, [z = mu + exp(log_sigma / 2) * epsilon] element by element, and
    [kl] is the mean over all elements of
    [0.5 * (exp(log_sigma) + mu^2 - 1 - log_sigma)]. *)
Theorem vae_spec (vars : gmap string (tensor R)) (x : tensor R)
      (hparams : HParams) (name : string) (rnd : nat -> R)
      (b l w n : nat) (k_mu b_mu k_ls b_ls : tensor R) :
  shape x = [b; l; w; n] ->
  dense_vars vars name "mu" n (z_size hparams) k_mu b_mu ->
  dense_vars vars name "log_sigma" n (z_size hparams) k_ls b_ls ->
  exists z kl mu log_sigma epsilon,
    vae vars x hparams name rnd = Some (z, kl, mu, log_sigma) /\
    vae_epsilon x hparams rnd = Some epsilon /\
    shape mu = [b; l; w; z_size hparams] /\
    shape log_sigma = [b; l; w; z_size hparams] /\
    shape z = [b; l; w; z_size hparams] /\
    shape epsilon = [b; l; 1; z_size hparams] /\
    (forall i0 i1 i2 k,
       i0 < b -> i1 < l -> i2 < w -> k < z_size hparams ->
       tget 0%R mu [i0; i1; i2; k] = dense_at n x k_mu b_mu [i0; i1; i2] k /\
       tget 0%R log_sigma [i0; i1; i2; k]
       = dense_at n x k_ls b_ls [i0; i1; i2] k /\
       tget 0%R epsilon [i0; i1; 0; k]
       = rnd ((i0 * l + i1) * z_size hparams + k) /\
       tget 0%R z [i0; i1; i2; k]
       = (tget 0 mu [i0; i1; i2; k]
          + exp (tget 0 log_sigma [i0; i1; i2; k] / 2)
            * tget 0 epsilon [i0; i1; 0%nat; k])%R) /\
    kl = (Rsum_n (numel [b; l; w; z_size hparams]) (fun p =>
            let idx := unravel [b; l; w; z_size hparams] p in
            kl_element (tget 0 mu idx) (tget 0 log_sigma idx))
          / INR (numel [b; l; w; z_size hparams]))%R.
Proof.
  set (zs := z_size hparams).
  intros Hsx Hmu Hls.
  unfold vae. fold zs.
  rewrite (dense_ok vars name "mu" x k_mu b_mu [b; l; w] n zs Hsx Hmu).
  rewrite (dense_ok vars name "log_sigma" x k_ls b_ls [b; l; w] n zs Hsx Hls).
  obind. cbn [app].
  set (mu := tabulate [b; l; w; zs] _).
  set (ls := tabulate [b; l; w; zs] _).
  unfold vae_epsilon, tf.dim. rewrite Hsx. cbn [lookup list_lookup]. obind.
  fold zs. set (eps := tf.random_normal _ _).
  unfold tf.div, tf.mul, tf.add, tf.sub.
  rewrite bop_scalar_r. obind.
  change (shape ls) with [b; l; w; zs].
  set (half := tabulate [b; l; w; zs] _).
  rewrite (bop_axis2 Rmult (tf.exp half) eps b l w zs) by reflexivity. obind.
  set (noise := tabulate [b; l; w; zs] _).
  rewrite (bop_same _ mu noise) by reflexivity. obind.
  change (shape mu) with [b; l; w; zs].
  set (z := tabulate [b; l; w; zs] _).
  rewrite (bop_same _ (tf.exp ls) (tf.square mu)) by reflexivity.
  obind. change (shape (tf.exp ls)) with [b; l; w; zs].
  set (e1 := tabulate [b; l; w; zs] _).
  rewrite bop_scalar_r. obind.
  change (shape e1) with [b; l; w; zs].
  set (e2 := tabulate [b; l; w; zs] _).
  rewrite (bop_same _ e2 ls) by reflexivity. obind.
  change (shape e2) with [b; l; w; zs].
  set (e3 := tabulate [b; l; w; zs] _).
  rewrite bop_scalar_l. obind.
  unfold tf.reduce_mean_last. change (shape e3) with [b; l; w; zs].
  cbn [removelast List.last]. rewrite !shape_tabulate.
  exists z, (tf.reduce_mean
               (tabulate [b; l; w]
                  (fun idx => (0.5 * tf.bget 0
                     (tabulate [b; l; w] (fun idx0 =>
                        (Rsum_n zs (fun k => tget 0 e3 (idx0 ++ [k])) / INR zs)))
                     idx))))%R, mu, ls, eps.
  split; [reflexivity|]. split; [reflexivity|].
  do 4 (split; [reflexivity|]).
  assert (Hmuv : forall idx, in_range [b; l; w; zs] idx ->
            tget 0%R mu idx
            = dense_at n x k_mu b_mu (removelast idx) (List.last idx 0)).
  { intros idx Hin. unfold mu. rewrite tget_tabulate by exact Hin. reflexivity. }
  assert (Hlsv : forall idx, in_range [b; l; w; zs] idx ->
            tget 0%R ls idx
            = dense_at n x k_ls b_ls (removelast idx) (List.last idx 0)).
  { intros idx Hin. unfold ls. rewrite tget_tabulate by exact Hin. reflexivity. }
  assert (He3 : forall idx, in_range [b; l; w; zs] idx ->
            (0.5 * tget 0 e3 idx)%R
            = kl_element (tget 0%R mu idx) (tget 0%R ls idx)).
  { intros idx Hin. unfold e3. rewrite tget_tabulate by exact Hin.
    rewrite !bget_same by exact Hin.
    unfold e2. rewrite tget_tabulate by exact Hin.
    rewrite !bget_same by exact Hin.
    unfold e1. rewrite tget_tabulate by exact Hin.
    rewrite !bget_same by exact Hin.
    unfold tf.exp. rewrite (tget_tmap_wf 0%R) by (apply wf_tabulate || exact Hin).
    rewrite tget_square. reflexivity. }
  split.
  - intros i0 i1 i2 k H0 H1 H2 Hk.
    assert (Hin : in_range [b; l; w; zs] [i0; i1; i2; k]) by solve_range.
    split; [rewrite Hmuv by exact Hin; reflexivity|].
    split; [rewrite Hlsv by exact Hin; reflexivity|].
    assert (Heps : tget 0%R eps [i0; i1; 0; k] = rnd ((i0 * l + i1) * zs + k)).
    { unfold eps. rewrite tget_random_normal by solve_range.
      f_equal. simpl. ring. }
    split; [exact Heps|].
    unfold z. rewrite tget_tabulate by exact Hin.
    rewrite !bget_same by exact Hin. f_equal.
    unfold noise. rewrite tget_tabulate by exact Hin.
    rewrite bget_same by exact Hin.
    unfold tf.bget at 1. change (shape eps) with [b; l; 1; zs].
    rewrite bindex_axis2 by assumption. f_equal.
    unfold tf.exp. rewrite (tget_tmap_wf 0%R) by (apply wf_tabulate || exact Hin).
    f_equal. unfold half. rewrite tget_tabulate by exact Hin.
    rewrite bget_same by exact Hin. reflexivity.
  - unfold tf.reduce_mean. rewrite shape_tabulate, Rsum_data_tabulate.
    change [b; l; w; zs] with ([b; l; w] ++ [zs]).
    rewrite numel_app. cbn [numel]. rewrite (Nat.mul_1_r zs).
    set (P := b * (l * (w * 1))).
    rewrite Rsum_n_mul, mult_INR.
    rewrite (Rsum_n_ext P _
               (fun p => (/ INR zs *
                  Rsum_n zs (fun k =>
                    kl_element (tget 0 mu (unravel ([b; l; w] ++ [zs]) (p * zs + k)))
                               (tget 0 ls (unravel ([b; l; w] ++ [zs]) (p * zs + k)))))%R)).
    { rewrite Rsum_n_scale. unfold Rdiv. rewrite Rinv_mult. lra. }
    intros p Hp.
    assert (Hpos : in_range [b; l; w] (unravel [b; l; w] p))
      by (apply unravel_in_range; exact Hp).
    rewrite bget_same by exact Hpos.
    rewrite tget_tabulate by exact Hpos.
    rewrite (Rsum_n_ext zs
               (fun k => kl_element
                  (tget 0%R mu (unravel ([b; l; w] ++ [zs]) (p * zs + k)))
                  (tget 0%R ls (unravel ([b; l; w] ++ [zs]) (p * zs + k))))
               (fun k => (0.5 * tget 0 e3 (unravel [b; l; w] p ++ [k]))%R)).
    { rewrite Rsum_n_scale. unfold Rdiv. ring. }
    intros k Hk. rewrite unravel_snoc by assumption.
    symmetry. apply He3. apply (in_range_snoc [b; l; w]); assumption.
Qed.


(** ** [residual_conv] *)

Lemma residual_conv_S `{Layers} (x : tensor R) (repeat : nat) (k : nat * nat)
      (hparams : HParams) (name : string) (rnd : nat -> nat -> R) :
  residual_conv x (S repeat) k hparams name rnd =
  (x' ← residual_conv x repeat k hparams name rnd;
   residual_step k hparams name rnd repeat x').
Proof.
  unfold residual_conv. rewrite (seq_S repeat 0), fold_left_app. reflexivity.
Qed.

(** C7.  The convolutional residual block is an iterated additive
    residual: [residual_conv] performs exactly [repeat] steps of
    [x <- x + dropout(conv_block(layer_norm(x)))], and for [repeat = 0]
    returns [x] unchanged. *)
Theorem residual_conv_iterates `{Layers} (x : tensor R) (repeat : nat)
      (k : nat * nat) (hparams : HParams) (name : string)
      (rnd : nat -> nat -> R) :
  residual_conv x repeat k hparams name rnd
  = residual_steps k hparams name rnd repeat x
  /\ residual_conv x 0 k hparams name rnd = Some x.
Proof.
  split; [|reflexivity].
  induction repeat as [|m IH]; [reflexivity|].
  rewrite residual_conv_S, IH. reflexivity.
Qed.


(** ** Dropout *)

Lemma nn_dropout_elements (x : tensor R) (keep_prob : R) (rnd : nat -> R) :
  exists d,
    tf.nn_dropout x keep_prob rnd = Some d /\
    shape d = shape x /\ wf d /\
    forall idx, in_range (shape x) idx ->
      tget 0%R d idx
      = (tget 0 x idx / keep_prob * dropout_mask (shape x) keep_prob rnd idx)%R.
Proof.
  unfold tf.nn_dropout, tf.add, tf.div, tf.mul.
  rewrite bop_scalar_l, bop_scalar_r.
  change (shape (tf.random_uniform (shape x) 0 1 rnd)) with (shape x).
  cbv beta iota.
  set (sc := tabulate (shape x) (fun idx => (tf.bget 0 x idx / keep_prob)%R)).
  set (rt := tabulate (shape x) _).
  rewrite (bop_same _ sc (tf.floor rt)) by reflexivity.
  eexists. split; [reflexivity|]. split; [reflexivity|].
  split; [apply wf_tabulate|].
  intros idx Hin. change (shape sc) with (shape x).
  rewrite tget_tabulate by exact Hin.
  rewrite !bget_same by exact Hin.
  unfold sc. rewrite tget_tabulate by exact Hin.
  rewrite bget_same by exact Hin. f_equal.
  unfold tf.floor. rewrite (tget_tmap_wf 0%R) by (apply wf_tabulate || exact Hin).
  unfold rt. rewrite tget_tabulate by exact Hin.
  rewrite bget_same by exact Hin.
  rewrite tget_random_uniform by exact Hin. reflexivity.
Qed.

(** ** [decode] *)

Lemma in_range_insert_1 (s idx : list nat) (p : nat) :
  in_range s idx -> p < nth 1 idx 0 -> in_range s (<[1 := p]> idx).
Proof.
  unfold in_range. intros H Hp.
  destruct H as [|a d idx s Ha H]; [simpl in Hp; lia|].
  destruct H as [|a' d' idx s Ha' H]; [simpl in Hp; lia|].
  simpl in Hp. cbn. constructor; [exact Ha|]. constructor; [lia | exact H].
Qed.

Lemma nth_1_insert_1 (idx : list nat) (p : nat) :
  p < nth 1 idx 0 -> nth 1 (<[1 := p]> idx) 0 = p.
Proof.
  destruct idx as [|a [|a' idx]]; simpl; intros Hp; lia || reflexivity.
Qed.

(** C5.  Autoregressive decoding is causal: with a decoder that respects
    the lower-triangular bias, for gold targets of one shape
    [b, len, w, h] that agree before position [i], and the same
    conditioning, context and dropout draws, [decode] fails on both or
    returns outputs of one shape that agree at position [i]: the output at
    position [i] does not depend on the gold values at positions [i] and
    later. *)
Theorem decode_causal `{L : Layers} (cond_vec cond_add : option (tensor R))
      (gold1 gold2 : tensor R) (c ed : option (tensor R))
      (hparams : HParams) (rnd : nat -> R) (b len w h i : nat) :
  decoder_respects_bias L ->
  shape gold1 = [b; len; w; h] ->
  shape gold2 = [b; len; w; h] ->
  match cond_add with
  | Some a => shape a = [b; len; w; h]
  | None => True
  end ->
  (forall idx, in_range [b; len; w; h] idx -> nth 1 idx 0 < i ->
     tget 0%R gold1 idx = tget 0%R gold2 idx) ->
  agree_at i (decode cond_vec cond_add gold1 c ed hparams rnd)
             (decode cond_vec cond_add gold2 c ed hparams rnd).
Proof.
  intros Hdec Hs1 Hs2 Hca Hgold.
  unfold decode.
  set (keep := (1 - layer_prepostprocess_dropout hparams)%R).
  destruct (nn_dropout_elements gold1 keep rnd) as (d1 & -> & Hd1s & Hd1w & Hd1).
  destruct (nn_dropout_elements gold2 keep rnd) as (d2 & -> & Hd2s & Hd2w & Hd2).
  obind. rewrite Hs1 in *. rewrite Hs2 in *.
  set (s := [b; len; w; h]) in *.
  (* the dropped-out targets agree before position [i] *)
  assert (Hd : forall idx, in_range s idx -> nth 1 idx 0 < i ->
            tget 0%R d1 idx = tget 0%R d2 idx).
  { intros idx Hin Hlt. rewrite Hd1, Hd2 by exact Hin.
    rewrite (Hgold idx Hin Hlt). reflexivity. }
  (* shifted right, they agree up to position [i] *)
  set (sr1 := common_layers.shift_right d1 cond_vec).
  set (sr2 := common_layers.shift_right d2 cond_vec).
  assert (Hsr1s : shape sr1 = s) by exact Hd1s.
  assert (Hsr2s : shape sr2 = s) by exact Hd2s.
  assert (Hsr : forall idx, in_range s idx -> nth 1 idx 0 <= i ->
            tget 0%R sr1 idx = tget 0%R sr2 idx).
  { intros idx Hin Hle. unfold sr1, sr2, common_layers.shift_right.
    rewrite Hd1s, Hd2s, !tget_tabulate by exact Hin.
    destruct (nth 1 idx 0) as [|p] eqn:Ep; [reflexivity|].
    apply Hd.
    - apply in_range_insert_1; [exact Hin | lia].
    - rewrite nth_1_insert_1 by lia. lia. }
  assert (Hdi : exists di1 di2,
            match cond_add with
            | Some a => tf.add sr1 a
            | None => Some sr1
            end = Some di1 /\
            match cond_add with
            | Some a => tf.add sr2 a
            | None => Some sr2
            end = Some di2 /\
            shape di1 = s /\ shape di2 = s /\ wf di1 /\ wf di2 /\
            forall idx, in_range s idx -> nth 1 idx 0 <= i ->
              tget 0%R di1 idx = tget 0%R di2 idx).
  { destruct cond_add as [a|].
    - unfold tf.add.
      rewrite (bop_same _ sr1 a), (bop_same _ sr2 a) by congruence.
      do 2 eexists. split; [reflexivity|]. split; [reflexivity|].
      rewrite !shape_tabulate, Hsr1s, Hsr2s.
      do 2 (split; [reflexivity|]). do 2 (split; [apply wf_tabulate|]).
      intros idx Hin Hle. rewrite !tget_tabulate by exact Hin.
      rewrite !bget_same by (rewrite ?Hsr1s, ?Hsr2s, ?Hca; exact Hin).
      rewrite (Hsr idx Hin Hle). reflexivity.
    - exists sr1, sr2. split; [reflexivity|]. split; [reflexivity|].
      do 2 (split; [assumption|]).
      split; [apply wf_tabulate|]. split; [apply wf_tabulate|].
      exact Hsr. }
  destruct Hdi as (di1 & di2 & -> & -> & Hs1' & Hs2' & Hw1 & Hw2 & Hdi).
  obind.
  set (cm := match c with Some _ => _ | None => _ end).
  unfold tf.squeeze, tf.dim. rewrite Hs1', Hs2', Hs1, Hs2.
  subst s. cbn [lookup list_lookup].
  destruct w as [|[|w]]; try exact I.
  obind. cbn [take drop app].
  destruct cm as [c0|]; [|exact I].
  obind.
  set (q1 := Tensor [b; len; h] (data di1)).
  set (q2 := Tensor [b; len; h] (data di2)).
  pose proof (Hdec (common_attention.add_timing_signal_1d q1)
                   (common_attention.add_timing_signal_1d q2)
                   c0 ed hparams i) as Hcausal.
  apply Hcausal.
  - apply wf_tabulate.
  - apply wf_tabulate.
  - split; [reflexivity|].
    intros idx Hin Hle.
    unfold common_attention.add_timing_signal_1d in *.
    rewrite shape_tabulate in Hin. cbn [shape q1] in Hin.
    rewrite !tget_tabulate by exact Hin. cbn [shape q1 q2]. f_equal.
    inv_range Hin. cbn [nth] in Hle.
    assert (E : forall di, shape di = [b; len; 1; h] ->
              tget 0%R (Tensor [b; len; h] (data di)) [i0; i1; i2]
              = tget 0%R di [i0; i1; 0; i2]).
    { intros di Hsd. unfold tget. cbn [shape data]. rewrite Hsd. f_equal.
      simpl. ring. }
    unfold q1, q2. rewrite !E by assumption.
    apply Hdi; [solve_range | exact Hle].
Qed.


(** ** [TransformerAE.infer] and the [features] dictionary *)

Lemma Py_bind_run {A B} (m : Py A) (k : A -> Py B)
      (features : gmap string (tensor Z)) :
  (m ≫= k) features =
  match m features with
  | (features', Some a) => k a features'
  | (features', None) => (features', None)
  end.
Proof. reflexivity. Qed.

Lemma keeps_ret {A} (key : string) (a : A) : keeps key (mret a : Py A).
Proof. intros f. reflexivity. Qed.

Lemma keeps_bind {A B} (key : string) (m : Py A) (k : A -> Py B) :
  keeps key m -> (forall a, keeps key (k a)) -> keeps key (m ≫= k).
Proof.
  intros Hm Hk f. rewrite Py_bind_run. specialize (Hm f).
  destruct (m f) as [f' [a|]]; simpl in *.
  - rewrite Hk. exact Hm.
  - exact Hm.
Qed.

Lemma keeps_lift {A} (key : string) (v : option A) : keeps key (lift v).
Proof. intros f. reflexivity. Qed.

Lemma keeps_contains (key key' : string) : keeps key (contains key').
Proof. intros f. reflexivity. Qed.

Lemma keeps_getitem (key key' : string) : keeps key (getitem key').
Proof. intros f. reflexivity. Qed.

Lemma keeps_current (key : string) : keeps key current_features.
Proof. intros f. reflexivity. Qed.

Lemma keeps_setitem (key key' : string) (v : tensor Z) :
  key' <> key -> keeps key (setitem key' v).
Proof. intros Hne f. unfold setitem. simpl. apply lookup_insert_ne. exact Hne. Qed.

Lemma keeps_fold_left {A B} (key : string) (step : Py A -> B -> Py A)
      (l : list B) (init : Py A) :
  (forall acc b, keeps key acc -> keeps key (step acc b)) ->
  keeps key init -> keeps key (fold_left step l init).
Proof.
  intros Hstep. revert init. induction l as [|b l IH]; intros init Hinit.
  - exact Hinit.
  - simpl. apply IH. apply Hstep. exact Hinit.
Qed.

Lemma leaves_bind {A B} (key : string) (v : tensor Z) (m : Py A)
      (k : A -> Py B) :
  (forall a, leaves key v (k a)) -> leaves key v (m ≫= k).
Proof.
  intros Hk f. rewrite Py_bind_run.
  destruct (m f) as [f' [a|]]; simpl.
  - apply Hk.
  - intros [? ?]. discriminate.
Qed.

Lemma leaves_setitem_ret {A} (key : string) (v : tensor Z) (a : A) :
  leaves key v (setitem key v;; mret a).
Proof. intros f _. simpl. apply lookup_insert_eq. Qed.

Ltac keeps_tac :=
  repeat first
    [ apply keeps_ret | apply keeps_lift | apply keeps_contains
    | apply keeps_getitem | apply keeps_current
    | apply keeps_setitem; discriminate
    | apply keeps_bind; [|intros ?]
    | apply keeps_fold_left; [intros ? ? ?|]
    | assumption
    | match goal with |- keeps _ (if ?b then _ else _) => destruct b end ].

Lemma keeps_sample `{T2TModel} (key : string) (last_position_only : bool) :
  keeps key (sample last_position_only).
Proof. unfold sample. keeps_tac. Qed.

Lemma infer_body_restores `{T2TModel} (last_position_only : bool)
      (features : gmap string (tensor Z)) :
  is_Some (infer_body last_position_only features).2 ->
  (infer_body last_position_only features).1 !! "inputs"
  = features !! "inputs".
Proof.
  unfold infer_body.
  set (rest := fun inputs_old : option (tensor Z) => (_ ≫= _ : Py (tensor Z))).
  assert (Hkeep : keeps "inputs" (rest None)).
  { unfold rest. keeps_tac. }
  assert (Hleave : forall old, leaves "inputs" old (rest (Some old))).
  { intros old. unfold rest. do 5 (apply leaves_bind; intros ?).
    apply leaves_setitem_ret. }
  clearbody rest.
  assert (Hsave : forall old f',
            save_inputs features = (f', Some old) ->
            match old with
            | Some inputs =>
                features !! "inputs" = Some inputs
            | None => f' !! "inputs" = features !! "inputs"
            end).
  { intros old f'. unfold save_inputs. rewrite Py_bind_run.
    unfold contains at 1.
    destruct (features !! "inputs") as [inputs|] eqn:E.
    - rewrite bool_decide_eq_true_2 by eauto.
      rewrite Py_bind_run. unfold getitem at 1. rewrite E.
      destruct (length (shape inputs) <? 4).
      + rewrite Py_bind_run. unfold lift at 1.
        destruct (tf.expand_dims inputs 2) as [expanded|]; simpl.
        * intros [= <- <-]. reflexivity.
        * discriminate.
      + simpl. intros [= <- <-]. exact E.
    - rewrite bool_decide_eq_false_2 by (intros [? ?]; discriminate).
      simpl. intros [= <- <-]. exact E. }
  rewrite Py_bind_run.
  destruct (save_inputs features) as [f' [[inputs|]|]] eqn:Es.
  - specialize (Hsave _ _ eq_refl). simpl in Hsave. rewrite Hsave.
    apply Hleave.
  - specialize (Hsave _ _ eq_refl). simpl in Hsave. intros _.
    rewrite Hkeep. exact Hsave.
  - simpl. intros [? ?]. discriminate.
Qed.


(** ** The shapes of compression and decompression *)

Lemma conv_size_SAME_stride_1 (kernel n : nat) :
  Shapes.conv_size SAME kernel 1 n = n.
Proof.
  unfold Shapes.conv_size. rewrite Nat.add_sub. apply Nat.div_1_r.
Qed.

Lemma conv_size_kernel_1 (p : Padding) (n : nat) :
  Shapes.conv_size p 1 1 n = n.
Proof.
  destruct p; unfold Shapes.conv_size; rewrite Nat.add_sub; apply Nat.div_1_r.
Qed.

(** On an even length a stride-2 convolution of kernel 2 halves it, with
    either padding. *)
Lemma conv_size_halves (p : Padding) (n : nat) :
  Nat.divide 2 n -> Shapes.conv_size p 2 2 n = n / 2.
Proof.
  intros [m ->]. destruct p; unfold Shapes.conv_size.
  - replace (m * 2 + 2 - 1) with (1 + (m + 0) * 2) by lia.
    rewrite Nat.div_add by lia. rewrite Nat.div_mul by lia. simpl. lia.
  - rewrite Nat.add_sub. reflexivity.
Qed.

Lemma residual_conv_shape (p : Padding) (b l w : nat) (k : nat * nat)
      (hparams : HParams) :
  Shapes.residual_conv p [b; l; w; hidden_size hparams] 1 k hparams
  = Some [b; l; w; hidden_size hparams].
Proof.
  unfold Shapes.residual_conv, Shapes.conv_block.
  cbn [seq map fold_left default padding strides fst snd mbind option_bind].
  rewrite !conv_size_SAME_stride_1. apply bshape_same.
Qed.

Lemma compressed_width_1d (p : Padding) (w i : nat) :
  compressed_width p false w i = w.
Proof.
  induction i as [|i IH]; [reflexivity|].
  simpl. rewrite IH. apply conv_size_kernel_1.
Qed.

Lemma divide_pow2_step (n i L : nat) :
  Nat.divide (2 ^ n) L -> i < n -> Nat.divide 2 (L / 2 ^ i).
Proof.
  intros [m ->] Hi.
  replace n with ((n - i - 1) + 1 + i) by lia.
  rewrite !Nat.pow_add_r. rewrite Nat.mul_assoc.
  rewrite Nat.div_mul by (apply Nat.pow_nonzero; lia).
  exists (m * 2 ^ (n - i - 1)). simpl. lia.
Qed.

Lemma div_pow2_succ (L i : nat) : L / 2 ^ i / 2 = L / 2 ^ S i.
Proof.
  rewrite Nat.Div0.div_div. f_equal. simpl. lia.
Qed.

Lemma compress_loop_S (p : Padding) (x : list nat) (c : option (list nat))
      (is_2d : bool) (hparams : HParams) (i : nat) :
  Shapes.compress_loop p x c is_2d hparams (S i) =
  (cur ← Shapes.compress_loop p x c is_2d hparams i;
   cur ← match c with
         | Some _ => Shapes.attend cur hparams
         | None => Some cur
         end;
   cur ← Shapes.residual_conv p cur 1 (if is_2d then (3, 3) else (3, 1))
           hparams;
   Shapes.conv_block p cur (hidden_size hparams)
     [((1, 1), if is_2d then (2, 2) else (2, 1))]
     {| first_relu := true; padding := None;
        strides := Some (if is_2d then (2, 2) else (2, 1)) |}).
Proof.
  unfold Shapes.compress_loop. rewrite (seq_S i 0), fold_left_app.
  reflexivity.
Qed.

(** After [i <= n] rounds on a length divisible by [2^n] the length is
    divided by [2^i]. *)
Lemma compress_loop_shape (p : Padding) (is_2d : bool) (hparams : HParams)
      (b L w n i : nat) :
  Nat.divide (2 ^ n) L -> i <= n ->
  Shapes.compress_loop p [b; L; w; hidden_size hparams] None is_2d hparams i
  = Some [b; L / 2 ^ i; compressed_width p is_2d w i; hidden_size hparams].
Proof.
  intros Hdiv. induction i as [|i IH]; intros Hi.
  - unfold Shapes.compress_loop. cbn [seq fold_left compressed_width].
    rewrite Nat.pow_0_r, Nat.div_1_r. reflexivity.
  - rewrite compress_loop_S, IH by lia. obind.
    rewrite residual_conv_shape. obind.
    unfold Shapes.conv_block. cbn [default padding strides fold_left fst snd].
    pose proof (divide_pow2_step n i L Hdiv ltac:(lia)) as Heven.
    destruct is_2d; cbn [fst snd Datatypes.id compressed_width].
    + rewrite (conv_size_halves p _ Heven), div_pow2_succ. reflexivity.
    + rewrite (conv_size_halves p _ Heven), div_pow2_succ. reflexivity.
Qed.

Lemma decompress_loop_S (p : Padding) (z : list nat) (is_2d : bool)
      (hparams : HParams) (i : nat) :
  Shapes.decompress_loop p z is_2d hparams (S i) =
  (d ← Shapes.decompress_loop p z is_2d hparams i;
   d ← Shapes.residual_conv p d 1 (if is_2d then (3, 3) else (3, 1)) hparams;
   Shapes.decompress_step p d None hparams (0 <? i) is_2d).
Proof.
  unfold Shapes.decompress_loop. rewrite (seq_S i 0), fold_left_app.
  reflexivity.
Qed.

(** One decompression step doubles the length (and, for 2d problems, the
    width). *)
Lemma decompress_step_shape (p : Padding) (hparams : HParams)
      (first_relu is_2d : bool) (b l w : nat) :
  (is_2d = false -> w = 1) ->
  Shapes.decompress_step p [b; l; w; hidden_size hparams] None hparams
                         first_relu is_2d
  = Some [b; l * 2; if is_2d then w * 2 else 1; hidden_size hparams].
Proof.
  intros Hw. unfold Shapes.decompress_step, Shapes.conv_block.
  cbn [default padding strides fold_left fst snd Datatypes.id mbind
       option_bind].
  destruct is_2d; cbn [fst snd]; rewrite !conv_size_kernel_1.
  - unfold Shapes.depth_to_space2.
    rewrite Nat.Div0.mod_mul, Nat.eqb_refl, Nat.div_mul by lia. reflexivity.
  - rewrite (Hw eq_refl). cbn [lookup list_lookup]. obind.
    destruct (Nat.eqb_spec (numel [b; l * 2; 1; hidden_size hparams])
                           (numel [b; l; 1; hidden_size hparams * 2]))
      as [_|Hne]; [reflexivity|].
    exfalso. apply Hne. simpl. lia.
Qed.

Lemma decompress_loop_shape (p : Padding) (is_2d : bool) (hparams : HParams)
      (b l w i : nat) :
  (is_2d = false -> w = 1) ->
  Shapes.decompress_loop p [b; l; w; hidden_size hparams] is_2d hparams i
  = Some [b; l * 2 ^ i; decompressed_width is_2d w i; hidden_size hparams].
Proof.
  intros Hw. induction i as [|i IH].
  - unfold Shapes.decompress_loop, decompressed_width.
    cbn [seq fold_left]. rewrite Nat.pow_0_r, !Nat.mul_1_r.
    destruct is_2d; reflexivity.
  - rewrite decompress_loop_S, IH. obind.
    rewrite residual_conv_shape. obind.
    rewrite decompress_step_shape.
    + unfold decompressed_width. destruct is_2d.
      * do 3 f_equal; [|f_equal]; rewrite Nat.pow_succ_r'; lia.
      * rewrite (Hw eq_refl). do 3 f_equal. rewrite Nat.pow_succ_r'; lia.
    + intros E. unfold decompressed_width. rewrite E. apply Hw. exact E.
Qed.

(** ** The padded length *)

Lemma padded_length_divisible (len k : nat) :
  0 < k -> Nat.divide k (common_layers.padded_length len k).
Proof.
  intros Hk. unfold common_layers.padded_length.
  destruct (Nat.leb_spec k 1).
  - replace k with 1 by lia. apply Nat.divide_1_l.
  - apply Nat.divide_factor_r.
Qed.

Lemma padded_length_bounds (len k : nat) :
  0 < k ->
  len <= common_layers.padded_length len k < len + k.
Proof.
  intros Hk. unfold common_layers.padded_length.
  destruct (Nat.leb_spec k 1); [lia|].
  pose proof (Nat.div_mod_eq (len + k - 1) k) as E.
  pose proof (Nat.mod_upper_bound (len + k - 1) k ltac:(lia)) as Hr.
  nia.
Qed.

(** ** The example decoder respects the bias *)

Lemma in_range_insert_1_le (s idx : list nat) (p : nat) :
  in_range s idx -> p <= nth 1 idx 0 -> in_range s (<[1 := p]> idx).
Proof.
  unfold in_range. intros H Hp.
  destruct H as [|a d idx s Ha H]; [constructor|].
  destruct H as [|a' d' idx s Ha' H]; [repeat constructor; exact Ha|].
  simpl in Hp. cbn. constructor; [exact Ha|]. constructor; [lia | exact H].
Qed.

Lemma nth_1_insert_1_le (idx : list nat) (p : nat) :
  p <= nth 1 idx 0 -> nth 1 (<[1 := p]> idx) 0 <= nth 1 idx 0.
Proof.
  destruct idx as [|a [|a' idx]]; simpl; intros Hp; lia.
Qed.

Lemma example_layers_respect_bias : decoder_respects_bias example_layers.
Proof.
  intros x1 x2 c ed hparams i Hw1 Hw2 [Hs Hagree] bias.
  cbn [transformer_decoder example_layers agree_at].
  unfold prefix_sum_decoder. rewrite !shape_tabulate.
  split; [exact Hs|]. intros idx Hin Hi.
  rewrite !tget_tabulate by (rewrite <- ?Hs; exact Hin).
  apply Rsum_n_ext. intros j Hj. apply Hagree.
  - apply in_range_insert_1_le; [exact Hin | lia].
  - pose proof (nth_1_insert_1_le idx j ltac:(lia)). lia.
Qed.

(** ** Vector quantization *)

(** The codes [nearest] returns are one-hot. *)
Lemma nearest_one_hot_over (x means : tensor R) (hparams : HParams)
      (b l w : nat) :
  shape x = [b; l; w; hidden_size hparams] ->
  wf x ->
  shape means = [v_size hparams; hidden_size hparams] ->
  0 < hidden_size hparams ->
  0 < v_size hparams ->
  exists hot,
    nearest x means hparams = Some hot /\
    shape hot = [b; l; w; v_size hparams] /\
    wf hot /\
    one_hot_over (v_size hparams) hot.
Proof.
  intros Hsx Hwx Hsm Hh Hv.
  destruct (nearest_rows x means hparams b l w Hsx Hwx Hsm Hh Hv)
    as (hot & Hn & Hsh & Hwh & Hrows).
  exists hot. repeat split; try assumption.
  intros idx Hin. rewrite Hsh in Hin. cbn [removelast] in Hin.
  destruct (Hrows idx Hin) as (Hlt & Hhot & _).
  eexists. split; [exact Hlt | exact Hhot].
Qed.

(** In [ae_transformer_internal] the codes that [ae_compress] gets from
    [kmeans] are embedded by [ae_embed] under the same scope: what
    [ae_embed] computes before its dense layer is the quantized value of
    [kmeans]. *)
Lemma quantized_codes_embed (vars : gmap string (tensor R))
      (x means : tensor R) (hparams : HParams) (name : string)
      (b l w : nat) :
  tf.get_variable vars name "z_to_dense"
                  [v_size hparams; hidden_size hparams] = Some means ->
  shape x = [b; l; w; hidden_size hparams] ->
  wf x ->
  0 < hidden_size hparams ->
  0 < v_size hparams ->
  exists hot x_means,
    nearest x means hparams = Some hot /\
    tf.gather means (tf.argmax_last hot) = Some x_means /\
    ae_embed_lookup vars hot hparams name = Some x_means.
Proof.
  intros Hvar Hsx Hwx Hh Hv.
  pose proof (get_variable_shape _ _ _ _ _ Hvar) as Hsm.
  destruct (nearest_one_hot_over x means hparams b l w Hsx Hwx Hsm Hh Hv)
    as (hot & Hn & Hsh & Hwh & Hhot).
  destruct (ae_embed_lookup_gather vars hot means hparams name b l w
                                   Hvar Hsh Hwh Hv Hhot)
    as (x_means & Hg & Hl & _).
  exists hot, x_means. repeat split; assumption.
Qed.

(** C1.  Vector quantization is nearest-neighbour assignment: on an input
    [x] of shape [b, l, w, hidden_size] and a table [means] of shape
    [v_size, hidden_size], [nearest] returns a tensor of shape
    [b, l, w, v_size] that is, at every position, the one-hot vector of an
    index that maximizes the inner product of the vector of [x] at that
    position with the l2-normalized rows of [means]; and [kmeans] returns
    that tensor with a loss equal to 10 times the mean over the positions
    of the summed squared difference between the vector of [x] and the
    selected row of [means]. *)
Theorem nearest_kmeans_spec (x means : tensor R) (hparams : HParams)
      (name : string) (b l w : nat) :
  shape x = [b; l; w; hidden_size hparams] ->
  wf x ->
  shape means = [v_size hparams; hidden_size hparams] ->
  0 < hidden_size hparams ->
  0 < v_size hparams ->
  exists (hot : tensor R) (sel : list nat -> nat),
    nearest x means hparams = Some hot /\
    shape hot = [b; l; w; v_size hparams] /\
    wf hot /\
    (forall pos, in_range [b; l; w] pos ->
       sel pos < v_size hparams /\
       (forall c, c < v_size hparams ->
          tget 0%R hot (pos ++ [c]) = if c =? sel pos then 1%R else 0%R) /\
       (forall j, j < v_size hparams ->
          (inner_normalized (hidden_size hparams) x means pos j
           <= inner_normalized (hidden_size hparams) x means pos (sel pos))%R))
    /\
    kmeans x means hparams name =
    Some (hot,
          (10 * (Rsum_n (b * l * w) (fun p =>
                   let pos := unravel [b; l; w] p in
                   squared_distance (hidden_size hparams) x means pos (sel pos))
                 / INR (b * l * w)))%R).
Proof.
  intros Hsx Hwx Hsm Hh Hv.
  destruct (nearest_rows x means hparams b l w Hsx Hwx Hsm Hh Hv)
    as (hot & Hn & Hsh & Hwh & Hrows).
  destruct (kmeans_loss x means hparams name b l w Hsx Hwx Hsm Hh Hv)
    as (hot' & Hn' & Hk).
  assert (hot' = hot) by congruence. subst hot'.
  exists hot, (nearest_index (hidden_size hparams) (v_size hparams) x means).
  repeat split; try assumption; apply Hrows; assumption.
Qed.

(** ** [infer] restores the inputs *)

(** C10.  [TransformerAE.infer] leaves the caller's features unchanged at
    key "inputs": inputs of rank below 4 are replaced by their expansion
    along axis 2 for the computation, and whenever [infer] returns, the
    value stored in the caller's dictionary at "inputs" is the value it
    held before the call. *)
Theorem infer_restores_inputs `{T2TModel}
      (features : gmap string (tensor Z))
      (decode_length beam_size top_beams : nat) (last_position_only : bool)
      (alpha : R) :
  is_Some (infer (Some features) decode_length beam_size top_beams
                 last_position_only alpha).2 ->
  (exists after,
     (infer (Some features) decode_length beam_size top_beams
            last_position_only alpha).1 = Some after /\
     after !! "inputs" = features !! "inputs") /\
  (forall inputs expanded,
     features !! "inputs" = Some inputs ->
     length (shape inputs) < 4 ->
     tf.expand_dims inputs 2 = Some expanded ->
     save_inputs features
     = (<["inputs" := expanded]> features, Some (Some inputs))).
Proof.
  intros Hret. split.
  - unfold infer in *. destruct (bool_decide (features = ∅)).
    + exists features. split; reflexivity.
    + exists (infer_body last_position_only features).1.
      split; [reflexivity|].
      apply infer_body_restores. exact Hret.
  - intros inputs expanded Hin Hrank Hexp.
    unfold save_inputs. rewrite Py_bind_run. unfold contains at 1.
    rewrite Hin. rewrite bool_decide_eq_true_2 by eauto.
    rewrite Py_bind_run. unfold getitem at 1. rewrite Hin.
    destruct (Nat.ltb_spec (length (shape inputs)) 4); [|lia].
    rewrite Py_bind_run. unfold lift at 1. rewrite Hexp. reflexivity.
Qed.

(** ** The theorems at concrete inputs *)

Lemma nearest_kmeans_spec_witness :
  exists hot loss,
    kmeans example_x example_means example_hparams "kmeans" = Some (hot, loss)
    /\ shape hot = [1; 2; 1; 2].
Proof.
  destruct (nearest_kmeans_spec example_x example_means example_hparams
                                "kmeans" 1 2 1)
    as (hot & sel & _ & Hs & _ & _ & Hk);
    [reflexivity | reflexivity | reflexivity | simpl; lia | simpl; lia |].
  exists hot. eexists. split; [exact Hk | exact Hs].
Defined.

Lemma mix_spec_witness :
  exists r,
    @mix example_layers example_x example_hot 3 0 1 "lin" true (fun _ => 0%R)
    = Some r /\ shape r = [1; 2; 1; 2].
Proof.
  destruct (@mix_spec example_layers example_x example_hot 3 0%R 1%R "lin"
                      true (fun _ => 0%R))
    as (_ & _ & r & Hr & Hs & _); [reflexivity|].
  exists r. split; [exact Hr | exact Hs].
Defined.

Lemma example_dense_vars_mu :
  dense_vars example_vars "vae" "mu" 2 1 (Tensor [2; 1] [1; 1]%R)
             (Tensor [1] [0]%R).
Proof. split; reflexivity. Qed.

Lemma example_dense_vars_log_sigma :
  dense_vars example_vars "vae" "log_sigma" 2 1 (Tensor [2; 1] [0; 0]%R)
             (Tensor [1] [0]%R).
Proof. split; reflexivity. Qed.

Lemma vae_spec_witness :
  exists z kl mu log_sigma,
    vae example_vars example_wide example_hparams "vae" (fun _ => 0%R)
    = Some (z, kl, mu, log_sigma) /\ shape z = [1; 1; 2; 1].
Proof.
  destruct (vae_spec example_vars example_wide example_hparams "vae"
                     (fun _ => 0%R) 1 1 2 2
                     (Tensor [2; 1] [1; 1]%R) (Tensor [1] [0]%R)
                     (Tensor [2; 1] [0; 0]%R) (Tensor [1] [0]%R))
    as (z & kl & mu & ls & eps & Hv & _ & _ & _ & Hz & _);
    [reflexivity | exact example_dense_vars_mu
     | exact example_dense_vars_log_sigma |].
  exists z, kl, mu, ls. split; [exact Hv | exact Hz].
Defined.

(** C4 (as stated, refuted).  On an input with two entries along axis 2
    the noise [vae] draws has shape [1, 1, 1, 1] while [mu], [log_sigma]
    and [z] have shape [1, 1, 2, 1]: the shapes do not match. *)
Lemma vae_epsilon_shape_differs :
  exists z kl mu log_sigma epsilon,
    vae example_vars example_wide example_hparams "vae" (fun _ => 0%R)
    = Some (z, kl, mu, log_sigma) /\
    vae_epsilon example_wide example_hparams (fun _ => 0%R) = Some epsilon /\
    shape epsilon = [1; 1; 1; 1] /\
    shape mu = [1; 1; 2; 1] /\
    shape epsilon <> shape mu.
Proof.
  do 5 eexists. split; [reflexivity|]. split; [reflexivity|].
  split; [reflexivity|]. split; [reflexivity|]. discriminate.
Qed.

Lemma example_gold_agree (idx : list nat) :
  in_range [1; 2; 1; 2] idx -> nth 1 idx 0 < 1 ->
  tget 0%R example_x idx
  = tget 0%R (Tensor [1; 2; 1; 2] [0; 3; 5; 8]%R) idx.
Proof.
  intros Hin Hlt. inv_range Hin. cbn [nth] in Hlt.
  assert (i = 0) by lia. assert (i0 = 0) by lia. assert (i1 = 0) by lia.
  subst. destruct i2 as [|[|i2]]; [reflexivity | reflexivity | lia].
Qed.

Lemma decode_causal_witness :
  exists y1 y2,
    @decode example_layers None None example_x None None example_hparams
            (fun _ => 0%R) = Some y1 /\
    @decode example_layers None None (Tensor [1; 2; 1; 2] [0; 3; 5; 8]%R)
            None None example_hparams (fun _ => 0%R) = Some y2 /\
    forall idx, in_range (shape y1) idx -> nth 1 idx 0 = 1 ->
      tget 0%R y1 idx = tget 0%R y2 idx.
Proof.
  do 2 eexists. split; [reflexivity|]. split; [reflexivity|].
  apply (@decode_causal example_layers None None example_x
           (Tensor [1; 2; 1; 2] [0; 3; 5; 8]%R) None None example_hparams
           (fun _ => 0%R) 1 2 1 2 1);
    [ exact example_layers_respect_bias | reflexivity | reflexivity
    | exact I | exact example_gold_agree ].
Defined.



Lemma gumbel_sample_finite_witness :
  (0 < - ln (tget 0 (tf.random_uniform [3%nat] 0.00001 0.99998 (fun _ => 0))
                 [1%nat]))%R.
Proof.
  destruct (gumbel_sample_finite [3] (fun _ => 0%R)) as [_ H];
    [intros _; lra|].
  destruct (H [1]) as (_ & _ & Hpos & _); [solve_range|].
  exact Hpos.
Defined.

Lemma example_infer_returns :
  is_Some (@infer example_model (Some example_features) 50 1 1 false 0%R).2.
Proof. eexists. reflexivity. Qed.

Lemma infer_restores_inputs_witness :
  exists after,
    (@infer example_model (Some example_features) 50 1 1 false 0%R).1
    = Some after /\
    after !! "inputs" = Some (Tensor [1; 1; 1] [7%Z]).
Proof.
  destruct (@infer_restores_inputs example_model example_features 50 1 1
                                   false 0%R example_infer_returns)
    as [(after & Ha & Hi) _].
  exists after. split; [exact Ha | exact Hi].
Defined.

(** ** The functions on small inputs *)

Example ravel_example : ravel [2; 3; 4] [1; 2; 3] = 23.
Proof. reflexivity. Qed.

Example unravel_example : unravel [2; 3; 4] 23 = [1; 2; 3].
Proof. reflexivity. Qed.

Example padded_length_example : common_layers.padded_length 5 4 = 8.
Proof. reflexivity. Qed.

Example compress_example :
  Shapes.compress VALID [3; 8; 1; 2] None false example_hparams
  = Some [3; 2; 1; 2].
Proof. reflexivity. Qed.

Example decompress_example :
  Shapes.decompress_loop SAME [3; 2; 1; 2] false example_hparams 2
  = Some [3; 8; 1; 2].
Proof. reflexivity. Qed.

Example compress_2d_example :
  Shapes.compress SAME [3; 8; 6; 2] None true example_hparams
  = Some [3; 2; 2; 2].
Proof. reflexivity. Qed.

Lemma example_row_norm (j : nat) : j < 2 -> row_norm 2 example_means j = 1%R.
Proof.
  intros Hj. unfold row_norm, Rsum_n, Rsum, tget. 
  destruct j as [|[|j]]; [| |lia]; cbn [seq map fold_right example_means shape data ravel numel nth Nat.mul Nat.add];
    rewrite Rmax_left by (unfold tf.l2_epsilon; lra);
    replace (_ + _)%R with 1%R by lra; apply sqrt_1.
Qed.

Example example_nearest_index :
  nearest_index 2 2 example_x example_means [0; 0; 0] = 1 /\
  nearest_index 2 2 example_x example_means [0; 1; 0] = 0.
Proof.
  unfold nearest_index. cbn [seq map].
  unfold inner_normalized. rewrite !example_row_norm by lia.
  unfold Rsum_n, Rsum, tget.
  cbn [seq map fold_right example_means example_x shape data ravel numel nth
       Nat.mul Nat.add app tf.argmax_list tf.argmax_from].
  split.
  - destruct (Rlt_dec _ _) as [_|Hn]; [reflexivity|]. exfalso. apply Hn. lra.
  - destruct (Rlt_dec _ _) as [Hl|_]; [|reflexivity]. exfalso. lra.
Qed.

Example nearest_example :
  nearest example_x example_means example_hparams = Some example_hot.
Proof.
  destruct (nearest_rows example_x example_means example_hparams 1 2 1)
    as (hot & Hn & Hs & Hw & Hrows);
    [reflexivity | reflexivity | reflexivity | simpl; lia | simpl; lia |].
  rewrite Hn. f_equal.
  destruct example_nearest_index as [E0 E1].
  cbn [hidden_size v_size example_hparams] in *.
  apply (tensor_ext 0%R); [exact Hs | exact Hw | reflexivity |].
  rewrite Hs. intros idx Hin. inv_range Hin.
  assert (i = 0) by lia. assert (i1 = 0) by lia. subst.
  destruct (Hrows [0; i0; 0]) as (_ & Hhot & _); [solve_range|].
  change [0; i0; 0; i2] with ([0; i0; 0] ++ [i2]).
  rewrite Hhot by exact Hi2.
  destruct i0 as [|[|i0]]; [rewrite E0 | rewrite E1 | lia];
    destruct i2 as [|[|i2]]; try reflexivity; lia.
Qed.

Example kmeans_example :
  kmeans example_x example_means example_hparams "kmeans"
  = Some (example_hot, 30%R).
Proof.
  destruct (kmeans_loss example_x example_means example_hparams "kmeans" 1 2 1)
    as (hot & Hn & Hk);
    [reflexivity | reflexivity | reflexivity | simpl; lia | simpl; lia |].
  rewrite nearest_example in Hn. injection Hn as <-.
  rewrite Hk. do 2 f_equal.
  destruct example_nearest_index as [E0 E1].
  cbn [hidden_size v_size example_hparams Nat.mul Nat.add].
  unfold Rsum_n at 1. cbn [seq map Rsum fold_right].
  change (unravel [1; 2; 1] 0) with [0; 0; 0].
  change (unravel [1; 2; 1] 1) with [0; 1; 0].
  rewrite E0, E1. unfold squared_distance, Rsum_n, Rsum, tget.
  cbn [seq map fold_right example_means example_x shape data ravel numel nth
       Nat.mul Nat.add app INR].
  lra.
Qed.

(** When [model_fn] raises, [infer] raises with the expanded inputs still
    in the dictionary. *)
Example infer_raising_example :
  @infer raising_model (Some example_features) 50 1 1 false 0%R
  = (Some (<["inputs" := Tensor [1; 1; 1; 1] [7%Z]]>
             (<["targets" := tf.zeros [1; 1; 1; 1]]> example_features)),
     None).
Proof. vm_compute. reflexivity. Qed.

(** * More properties of the code *)

(** ** [interleave] *)

Lemma ravel_app (s1 s2 i1 i2 : list nat) :
  length i1 = length s1 ->
  ravel (s1 ++ s2) (i1 ++ i2) = ravel s1 i1 * numel s2 + ravel s2 i2.
Proof.
  revert i1. induction s1 as [|a s1 IH]; intros [|i i1] Hlen;
    try discriminate; cbn [app ravel].
  - simpl. lia.
  - rewrite IH by (simpl in Hlen; lia). rewrite numel_app. ring.
Qed.

Lemma in_range_app (s1 s2 i1 i2 : list nat) :
  in_range s1 i1 -> in_range s2 i2 -> in_range (s1 ++ s2) (i1 ++ i2).
Proof. unfold in_range. apply Forall2_app. Qed.

(** Reading a tensor through an added axis of size 1. *)
Lemma tget_expanded {A} (d : A) (t : tensor A) (pre post i j : list nat) :
  shape t = pre ++ post -> length i = length pre ->
  tget d (Tensor (pre ++ 1 :: post) (data t)) (i ++ 0 :: j)
  = tget d t (i ++ j).
Proof.
  intros Hs Hlen. unfold tget. cbn [shape data]. rewrite Hs.
  rewrite !ravel_app by exact Hlen. f_equal. simpl. lia.
Qed.

Lemma expand_dims_at {A} (t : tensor A) (pre post : list nat) :
  shape t = pre ++ post ->
  tf.expand_dims t (length pre) = Some (Tensor (pre ++ 1 :: post) (data t)).
Proof.
  intros Hs. unfold tf.expand_dims. rewrite Hs, length_app.
  destruct (Nat.leb_spec (length pre) (length pre + length post)); [|lia].
  rewrite take_app_length, drop_app_length. reflexivity.
Qed.

Lemma insert_middle {A} (pre post : list A) (a b : A) (n : nat) :
  n = length pre -> <[n := b]> (pre ++ a :: post) = pre ++ b :: post.
Proof.
  intros ->. rewrite <- (Nat.add_0_r (length pre)), insert_app_r. reflexivity.
Qed.

Lemma nth_middle_at {A} (pre post : list A) (a d : A) (n : nat) :
  n = length pre -> nth n (pre ++ a :: post) d = a.
Proof. intros ->. apply nth_middle. Qed.

(** X1.  [interleave(x, y, axis)] on two tensors of one shape
    [pre ++ post], with [axis + 1] the rank of [pre]: the result has a
    new axis of size 2 after axis [axis], shape [pre ++ 2 :: post]; at 0
    of the new axis it holds [x] and at 1 it holds [y]. *)
Theorem interleave_spec (x y : tensor R) (axis : nat) (pre post : list nat) :
  shape x = pre ++ post ->
  shape y = pre ++ post ->
  length pre = axis + 1 ->
  exists r,
    interleave x y axis = Some r /\
    shape r = pre ++ 2 :: post /\
    forall i j, in_range pre i -> in_range post j ->
      tget 0%R r (i ++ 0 :: j) = tget 0%R x (i ++ j) /\
      tget 0%R r (i ++ 1 :: j) = tget 0%R y (i ++ j).
Proof.
  intros Hx Hy Hlen. unfold interleave. rewrite <- Hlen.
  rewrite (expand_dims_at x pre post Hx), (expand_dims_at y pre post Hy).
  obind. unfold tf.concat. cbn [shape map sum_list forallb].
  rewrite length_app. cbn [length].
  destruct (Nat.ltb_spec (length pre) (length pre + S (length post))); [|lia].
  rewrite !bool_decide_eq_true_2 by reflexivity. cbn [andb].
  rewrite nth_middle, insert_middle by reflexivity.
  cbn [Nat.add Datatypes.id].
  eexists. split; [reflexivity|]. split; [reflexivity|].
  intros i j Hi Hj.
  pose proof (in_range_length _ _ Hi) as Hli.
  split.
  - rewrite tget_tabulate
      by (apply in_range_app; [exact Hi | apply in_range_cons; [lia | exact Hj]]).
    rewrite (nth_middle_at i) by (symmetry; exact Hli).
    cbn [tf.concat_pick shape]. rewrite nth_middle. cbn [Nat.ltb Nat.leb].
    rewrite (insert_middle i) by (symmetry; exact Hli).
    apply tget_expanded; [exact Hx | exact Hli].
  - rewrite tget_tabulate
      by (apply in_range_app; [exact Hi | apply in_range_cons; [lia | exact Hj]]).
    rewrite (nth_middle_at i) by (symmetry; exact Hli).
    cbn [tf.concat_pick shape]. rewrite !nth_middle.
    cbn [Nat.ltb Nat.leb Nat.sub].
    rewrite (insert_middle i) by (symmetry; exact Hli).
    apply tget_expanded; [exact Hy | exact Hli].
Qed.

Lemma expand_dims_is_Some {A} (t : tensor A) (axis : nat) :
  is_Some (tf.expand_dims t axis) <-> axis <= length (shape t).
Proof.
  unfold tf.expand_dims.
  destruct (Nat.leb_spec axis (length (shape t))); split; intros H';
    try lia; try (eexists; reflexivity).
  destruct H' as [? ?]. discriminate.
Qed.

(** X2.  [interleave(x, y, axis)] returns exactly when [x] has at least
    [axis + 1] axes and [y] has the shape of [x]; otherwise one of the
    [tf.expand_dims] or the [tf.concat] is an error. *)
Theorem interleave_defined (x y : tensor R) (axis : nat) :
  is_Some (interleave x y axis)
  <-> axis + 1 <= length (shape x) /\ shape x = shape y.
Proof.
  unfold interleave, tf.expand_dims.
  destruct (Nat.leb_spec (axis + 1) (length (shape x))) as [Hx|Hx].
  2:{ split; [intros [? ?]; discriminate | lia]. }
  obind.
  destruct (Nat.leb_spec (axis + 1) (length (shape y))) as [Hy|Hy].
  2:{ split; [intros [? ?]; discriminate|]. intros [_ E]. rewrite E in Hx. lia. }
  obind. unfold tf.concat. cbn [shape forallb].
  assert (Hlt : (axis + 1 <?
                 length (take (axis + 1) (shape x)
                         ++ 1 :: drop (axis + 1) (shape x))) = true).
  { apply Nat.ltb_lt. rewrite length_app, length_take. cbn [length]. lia. }
  rewrite Hlt.
  rewrite (bool_decide_eq_true_2 (_ = _)) by reflexivity. cbn [andb].
  assert (Hins : forall s, axis + 1 <= length s ->
            <[axis + 1 := 0]> (take (axis + 1) s ++ 1 :: drop (axis + 1) s)
            = take (axis + 1) s ++ 0 :: drop (axis + 1) s).
  { intros s Hs. apply insert_middle. rewrite length_take. lia. }
  rewrite !Hins by assumption.
  destruct (bool_decide_reflect
              (take (axis + 1) (shape y) ++ 0 :: drop (axis + 1) (shape y)
               = take (axis + 1) (shape x) ++ 0 :: drop (axis + 1) (shape x)))
    as [E|E]; cbn [andb].
  - split; [|intros _; eexists; reflexivity]. intros _. split; [exact Hx|].
    apply app_inj_1 in E; [|rewrite !length_take; lia].
    destruct E as [E1 E2]. injection E2 as E2.
    rewrite <- (take_drop (axis + 1) (shape x)),
            <- (take_drop (axis + 1) (shape y)).
    congruence.
  - split; [intros [? ?]; discriminate|]. intros [_ Exy]. exfalso. apply E.
    rewrite Exy. reflexivity.
Qed.

(** ** [expand_batch] *)

Lemma bdim_1_r (a : nat) : tf.bdim a 1 = Some a.
Proof.
  unfold tf.bdim. destruct (Nat.eqb_spec a 1); reflexivity.
Qed.

Lemma bdim_1_l (a : nat) : tf.bdim 1 a = Some a.
Proof.
  unfold tf.bdim. destruct (Nat.eqb_spec 1 a) as [<-|]; reflexivity.
Qed.

Lemma tget_zeros_float (s idx : list nat) :
  in_range s idx -> tget 0%R (tf.zeros_float s) idx = 0%R.
Proof.
  intros H. unfold tf.zeros_float. rewrite tget_tabulate by exact H.
  reflexivity.
Qed.

Lemma shape_zeros_float (s : list nat) : shape (tf.zeros_float s) = s.
Proof. reflexivity. Qed.

Lemma reshape_infer_ok {A} (t : tensor A) (n : nat) (rest : list nat) :
  length (data t) = n * numel rest -> 0 < numel rest ->
  tf.reshape_infer t rest = Some (Tensor (n :: rest) (data t)).
Proof.
  intros Hlen Hr. unfold tf.reshape_infer. rewrite Hlen.
  destruct (Nat.eqb_spec (numel rest) 0); [lia|].
  rewrite Nat.Div0.mod_mul, Nat.eqb_refl, Nat.div_mul by lia. reflexivity.
Qed.

(** X3.  On a rank-4 tensor of shape [b, l, w, h] with [l], [w] and [h]
    positive, [expand_batch(x, mul)] returns a tensor of shape
    [b * mul, l, w, h] in which every batch entry of [x] is repeated [mul]
    times in a row: entry [i * mul + m] of the result is entry [i] of
    [x]. *)
Theorem expand_batch_repeats (x : tensor R) (mul b l w h : nat) :
  shape x = [b; l; w; h] -> 0 < l -> 0 < w -> 0 < h ->
  exists r,
    expand_batch x mul = Some r /\
    shape r = [b * mul; l; w; h] /\
    forall i m p q k, i < b -> m < mul -> p < l -> q < w -> k < h ->
      tget 0%R r [i * mul + m; p; q; k] = tget 0%R x [i; p; q; k].
Proof.
  intros Hs Hl Hw Hh. unfold expand_batch, tf.expand_dims, tf.dim.
  rewrite Hs. cbn [length Nat.leb take drop app lookup list_lookup Nat.ltb].
  obind. unfold tf.add, tf.bop. rewrite shape_zeros_float. cbn [shape].
  unfold tf.bshape. cbn [rev app tf.bshape_rev].
  rewrite !bdim_1_r, bdim_1_l. cbn [rev app]. obind.
  cbn [last].
  assert (Ht : truthy h = true)
    by (unfold truthy; destruct (Nat.eqb_spec h 0); [lia | reflexivity]).
  obind. rewrite Ht. obind. cbn [app].
  rewrite (reshape_infer_ok _ (b * mul)).
  2:{ rewrite length_tabulate. simpl. ring. }
  2:{ simpl. nia. }
  eexists. split; [reflexivity|]. split; [reflexivity|].
  intros i m p q k Hi Hm Hp Hq Hk.
  rewrite (tget_reshape_tabulate _ [b; mul; l; w; h] _ _ [i; m; p; q; k])
    by (simpl; try ring; solve_range).
  unfold tf.bget. rewrite tget_zeros_float.
  2:{ unfold tf.bindex.
      rewrite shape_zeros_float.
      cbn [length Nat.sub drop zip_with Nat.eqb].
      destruct (mul =? 1); solve_range. }
  rewrite Rplus_0_r. unfold tget. cbn [shape data]. rewrite Hs.
  f_equal. unfold tf.bindex. cbn [length Nat.sub drop zip_with Nat.eqb].
  destruct (Nat.eqb_spec b 1), (Nat.eqb_spec l 1), (Nat.eqb_spec w 1),
    (Nat.eqb_spec h 1); simpl; nia.
Qed.

Lemma expand_batch_rank3_eq (x : tensor R) (mul b l h d : nat) :
  shape x = [b; l; h] -> 0 < l -> 0 < h ->
  tf.bdim b mul = Some d ->
  expand_batch x mul =
  Some (Tensor [d; l; h]
          (data (tabulate [1; d; 1; l; h] (fun idx =>
             (tf.bget 0 (Tensor [b; 1%nat; l; h] (data x)) idx
              + tf.bget 0 (tf.zeros_float [1; mul; 1; 1; 1]%nat) idx)%R)))).
Proof.
  intros Hs Hl Hh Hd. unfold expand_batch, tf.expand_dims, tf.dim.
  rewrite Hs. cbn [length Nat.leb take drop app lookup list_lookup Nat.ltb].
  obind. unfold tf.add, tf.bop. rewrite shape_zeros_float. cbn [shape].
  unfold tf.bshape. cbn [rev app tf.bshape_rev].
  rewrite !bdim_1_r, Hd. cbn [rev app]. obind.
  cbn [last]. obind.
  assert (Ht : truthy h = true)
    by (unfold truthy; destruct (Nat.eqb_spec h 0); [lia | reflexivity]).
  rewrite Ht. obind. cbn [app].
  rewrite (reshape_infer_ok _ d).
  2:{ rewrite length_tabulate. simpl. ring. }
  2:{ simpl. nia. }
  reflexivity.
Qed.

(** X4.  On a rank-3 tensor of shape [b, l, h] the zeros of shape
    [1, mul, 1, 1, 1] are broadcast against the batch axis instead of a
    new axis: [expand_batch(x, mul)] is an error when [b] and [mul]
    differ and neither is 1, it returns [x] itself when [b = mul] or
    [mul = 1], and it repeats the one batch entry [mul] times when
    [b = 1]. *)
Theorem expand_batch_rank3 (x : tensor R) (mul b l h : nat) :
  shape x = [b; l; h] -> wf x -> 0 < l -> 0 < h ->
  (b <> mul -> b <> 1 -> mul <> 1 -> expand_batch x mul = None) /\
  (b = mul \/ mul = 1 -> expand_batch x mul = Some x) /\
  (b = 1 ->
   exists r,
     expand_batch x mul = Some r /\
     shape r = [mul; l; h] /\
     forall m p k, m < mul -> p < l -> k < h ->
       tget 0%R r [m; p; k] = tget 0%R x [0; p; k]).
Proof.
  intros Hs Hwf Hl Hh.
  assert (Hel : forall d j p k,
            tf.bdim b mul = Some d -> j < d -> p < l -> k < h ->
            tget 0%R
              (Tensor [d; l; h]
                 (data (tabulate [1; d; 1; l; h] (fun idx =>
                    (tf.bget 0 (Tensor [b; 1%nat; l; h] (data x)) idx
                     + tf.bget 0 (tf.zeros_float [1; mul; 1; 1; 1]%nat) idx)%R))))
              [j; p; k]
            = tget 0%R x [if b =? 1 then 0 else j; p; k]).
  { intros d j p k Hd Hj Hp Hk.
    rewrite (tget_reshape_tabulate _ [1; d; 1; l; h] _ _ [0; j; 0; p; k])
      by (simpl; try ring; solve_range).
    unfold tf.bget. rewrite tget_zeros_float.
    2:{ unfold tf.bindex. rewrite shape_zeros_float.
        cbn [length Nat.sub drop zip_with Nat.eqb].
        unfold tf.bdim in Hd.
        destruct (Nat.eqb_spec b mul), (Nat.eqb_spec b 1),
          (Nat.eqb_spec mul 1); try discriminate;
          injection Hd as <-; solve_range. }
    rewrite Rplus_0_r. unfold tget. cbn [shape data]. rewrite Hs.
    f_equal. unfold tf.bindex. cbn [length Nat.sub drop zip_with Nat.eqb].
    destruct (Nat.eqb_spec b 1), (Nat.eqb_spec l 1), (Nat.eqb_spec h 1);
      simpl; nia. }
  split; [|split].
  - intros Hne Hb Hm. unfold expand_batch, tf.expand_dims.
    rewrite Hs. cbn [length Nat.leb take drop app]. obind.
    unfold tf.add, tf.bop. rewrite shape_zeros_float. cbn [shape].
    unfold tf.bshape. cbn [rev app tf.bshape_rev]. rewrite !bdim_1_r.
    unfold tf.bdim.
    destruct (Nat.eqb_spec b mul), (Nat.eqb_spec b 1), (Nat.eqb_spec mul 1);
      try contradiction; reflexivity.
  - intros Hbm.
    assert (Hd : tf.bdim b mul = Some b).
    { destruct Hbm as [<-| ->]; [apply bdim_same | apply bdim_1_r]. }
    rewrite (expand_batch_rank3_eq x mul b l h b Hs Hl Hh Hd). f_equal.
    apply (tensor_ext 0%R); cbn [shape]; [congruence | | exact Hwf |].
    { unfold wf. cbn [shape data]. rewrite length_tabulate. simpl. ring. }
    intros idx Hin. inv_range Hin. rewrite (Hel b) by assumption.
    destruct (Nat.eqb_spec b 1); [|reflexivity].
    repeat f_equal. lia.
  - intros ->.
    rewrite (expand_batch_rank3_eq x mul 1 l h mul Hs Hl Hh (bdim_1_l mul)).
    eexists. split; [reflexivity|]. split; [reflexivity|].
    intros m p k Hm Hp Hk. rewrite (Hel mul) by (assumption || apply bdim_1_l).
    reflexivity.
Qed.

(** ** [attend] and [decompress_step] *)

(** [attend] returns only if axis 2 of [x] has size 1. *)
Lemma attend_squeezes `{Layers} `{TransformerLayers} (x source r : tensor R)
      (hparams : AttentionHParams) (name : string) :
  attend x source hparams name = Some r -> shape x !! 2 = Some 1.
Proof.
  unfold attend, tf.squeeze.
  destruct (shape x !! 2) as [[|[|d]]|]; try discriminate. reflexivity.
Qed.

(** X5.  Whenever [attend(x, source, hparams, name)] returns, axis 2 of
    [x] has size 1 (it is squeezed), axis 2 of a [source] of rank above 3
    has size 1, and axis 2 of the result has size 1 (it is expanded
    again), whatever the attention layers are. *)
Theorem attend_width `{Layers} `{TransformerLayers} (x source r : tensor R)
      (hparams : AttentionHParams) (name : string) :
  attend x source hparams name = Some r ->
  shape x !! 2 = Some 1 /\
  (3 < length (shape source) -> shape source !! 2 = Some 1) /\
  shape r !! 2 = Some 1.
Proof.
  unfold attend, tf.squeeze. intros Hr.
  destruct (shape x !! 2) as [[|[|d]]|] eqn:Ex; try discriminate.
  split; [reflexivity|]. revert Hr. obind.
  destruct (Nat.ltb_spec 3 (length (shape source))) as [Hrank|Hrank].
  - destruct (shape source !! 2) as [[|[|d]]|] eqn:Es; try discriminate.
    obind. intros Hr. split; [reflexivity|].
    destruct (layer_preprocess _ _ _) as [p|]; [|discriminate].
    revert Hr. obind.
    destruct (multihead_attention _ _ _ _ _ _ _ _ _) as [y|]; [|discriminate].
    obind. destruct (layer_postprocess _ _ _ _) as [res|]; [|discriminate].
    obind. unfold tf.expand_dims.
    destruct (Nat.leb_spec 2 (length (shape res))); [|discriminate].
    intros [= <-]. cbn [shape].
    rewrite lookup_app_r by (rewrite length_take; lia).
    rewrite length_take. replace (2 - 2 `min` length (shape res)) with 0 by lia.
    reflexivity.
  - obind. intros Hr. split; [lia|].
    destruct (layer_preprocess _ _ _) as [p|]; [|discriminate].
    revert Hr. obind.
    destruct (multihead_attention _ _ _ _ _ _ _ _ _) as [y|]; [|discriminate].
    obind. destruct (layer_postprocess _ _ _ _) as [res|]; [|discriminate].
    obind. unfold tf.expand_dims.
    destruct (Nat.leb_spec 2 (length (shape res))); [|discriminate].
    intros [= <-]. cbn [shape].
    rewrite lookup_app_r by (rewrite length_take; lia).
    rewrite length_take. replace (2 - 2 `min` length (shape res)) with 0 by lia.
    reflexivity.
Qed.

(** X6.  [decompress_step] for problems that are not 2d, without
    context: when the convolution returns a tensor [thicker] of shape
    [b, l, w, 2 * hidden_size], the step succeeds for [w = 1], with a
    result of shape [b, 2 * l, 1, hidden_size] in which position
    [2 * p + q] holds the channels [q * hidden_size ..] of position [p] of
    [thicker]; for another width (and a tensor that is not empty) the
    reshape is an error. *)
Theorem decompress_step_splits_channels `{Layers} `{TransformerLayers}
      (source thicker : tensor R) (hparams : AttentionHParams)
      (first_relu : bool) (name : string) (b l w : nat) (rest : list nat) :
  shape source = b :: l :: rest ->
  conv_block name source (hidden_size hparams * 2) [((1, 1), (1, 1))]
    {| first_relu := first_relu; padding := None; strides := None |}
    "decompress_conv" = Some thicker ->
  shape thicker = [b; l; w; hidden_size hparams * 2] ->
  wf thicker ->
  (w = 1 ->
   exists r,
     decompress_step source None hparams first_relu 0 name = Some r /\
     shape r = [b; l * 2; 1; hidden_size hparams] /\
     forall i p q k,
       i < b -> p < l -> q < 2 -> k < hidden_size hparams ->
       tget 0%R r [i; p * 2 + q; 0; k]
       = tget 0%R thicker [i; p; 0; q * hidden_size hparams + k]) /\
  (w <> 1 -> 0 < b -> 0 < l -> 0 < hidden_size hparams ->
   decompress_step source None hparams first_relu 0 name = None).
Proof.
  set (h := hidden_size hparams).
  intros Hs Hconv Hst Hwf.
  unfold decompress_step. cbn [truthy Nat.eqb negb]. obind. fold h.
  rewrite Hconv. obind. rewrite Hs. cbn [lookup list_lookup]. obind.
  unfold tf.reshape. split.
  - intros ->. rewrite Hwf, Hst.
    destruct (Nat.eqb_spec (numel [b; l * 2; 1; h]) (numel [b; l; 1; h * 2]))
      as [_|Hne]; [|exfalso; apply Hne; simpl; ring].
    eexists. split; [reflexivity|]. split; [reflexivity|].
    intros i p q k Hi Hp Hq Hk. unfold tget. cbn [shape data].
    rewrite Hst. f_equal. simpl. ring.
  - intros Hw Hb Hl Hh. rewrite Hwf, Hst.
    destruct (Nat.eqb_spec (numel [b; l * 2; 1; h]) (numel [b; l; w; h * 2]))
      as [E|_]; [|reflexivity].
    exfalso. simpl in E. apply Hw.
    assert (E' : (b * l * h * 2) * 1 = (b * l * h * 2) * w) by lia.
    apply Nat.mul_cancel_l in E'; [lia|]. 
    assert (0 < b * l * h) by (repeat apply Nat.mul_pos_pos; assumption). lia.
Qed.

(** ** [compress] with a context *)

Lemma fold_left_None {A B} (f : option A -> B -> option A) (l : list B) :
  (forall b, f None b = None) -> fold_left f l None = None.
Proof.
  intros Hf. induction l as [|b l IH]; [reflexivity|].
  cbn [fold_left]. rewrite Hf. exact IH.
Qed.

(** X7.  With a context [c] and at least one compression step,
    [compress] returns only for an input whose axis 2 has size 1: the
    first [attend] squeezes that axis. *)
Theorem compress_context_needs_width_1 `{Layers} `{TransformerLayers}
      (x c r : tensor R) (is_2d : nat) (hparams : AttentionHParams)
      (name : string) (rnd : nat -> nat -> R) :
  0 < num_compress_steps hparams ->
  compress x (Some c) is_2d hparams name rnd = Some r ->
  shape x !! 2 = Some 1.
Proof.
  intros Hn. unfold compress.
  destruct (num_compress_steps hparams) as [|n]; [lia|].
  cbn [seq fold_left]. obind.
  destruct (attend x c hparams _) as [a|] eqn:Ea.
  - intros _. exact (attend_squeezes _ _ _ _ _ Ea).
  - obind. rewrite fold_left_None by reflexivity. discriminate.
Qed.

(** ** Sums, means and maxima *)

Lemma Rsum_n_le (n : nat) (f g : nat -> R) :
  (forall k, k < n -> (f k <= g k)%R) -> (Rsum_n n f <= Rsum_n n g)%R.
Proof.
  induction n as [|n IH]; intros H.
  - unfold Rsum_n. simpl. lra.
  - rewrite !Rsum_n_S. specialize (H n ltac:(lia)) as Hn.
    assert (Rsum_n n f <= Rsum_n n g)%R by (apply IH; intros; apply H; lia).
    lra.
Qed.

Lemma Rsum_n_const (n : nat) (c : R) :
  Rsum_n n (fun _ => c) = (INR n * c)%R.
Proof.
  induction n as [|n IH].
  - unfold Rsum_n. simpl. lra.
  - rewrite Rsum_n_S, IH, S_INR. lra.
Qed.

Lemma Rsum_n_nonneg (n : nat) (f : nat -> R) :
  (forall k, k < n -> (0 <= f k)%R) -> (0 <= Rsum_n n f)%R.
Proof.
  intros H. rewrite <- (Rsum_n_zero n (fun _ => 0%R)) by reflexivity.
  apply Rsum_n_le. exact H.
Qed.

Lemma Rsum_n_nonpos (n : nat) (f : nat -> R) :
  (forall k, k < n -> (f k <= 0)%R) -> (Rsum_n n f <= 0)%R.
Proof.
  intros H. rewrite <- (Rsum_n_zero n (fun _ => 0%R)) by reflexivity.
  apply Rsum_n_le. exact H.
Qed.

Lemma Rsum_n_term_le (n j : nat) (f : nat -> R) :
  (forall k, k < n -> (0 <= f k)%R) -> j < n -> (f j <= Rsum_n n f)%R.
Proof.
  intros H Hj.
  rewrite <- (Rsum_n_indicator n j f Hj). apply Rsum_n_le.
  intros k Hk. specialize (H k Hk).
  destruct (Nat.eqb_spec k j); lra.
Qed.

Lemma Rsum_n_pos (n : nat) (f : nat -> R) :
  0 < n -> (forall k, k < n -> (0 < f k)%R) -> (0 < Rsum_n n f)%R.
Proof.
  intros Hn H.
  pose proof (Rsum_n_term_le n 0 f (fun k Hk => Rlt_le _ _ (H k Hk)) Hn).
  specialize (H 0 Hn). lra.
Qed.

Lemma Rinv_INR_nonneg (n : nat) : (0 <= / INR n)%R.
Proof.
  destruct n as [|n].
  - simpl. rewrite Rinv_0. lra.
  - left. apply Rinv_0_lt_compat. apply lt_0_INR. lia.
Qed.

Lemma Rsum_list_bounds (l : list R) (lo hi : R) :
  (forall a, In a l -> (lo <= a <= hi)%R) ->
  (INR (length l) * lo <= Rsum l <= INR (length l) * hi)%R.
Proof.
  induction l as [|a l IH]; intros H.
  - simpl. lra.
  - cbn [length Rsum fold_right]. rewrite S_INR.
    assert (Ha : (lo <= a <= hi)%R) by (apply H; left; reflexivity).
    assert (Hl : (INR (length l) * lo <= Rsum l <= INR (length l) * hi)%R)
      by (apply IH; intros; apply H; right; assumption).
    unfold Rsum in Hl. lra.
Qed.

(** The mean of numbers between [lo <= 0] and [hi >= 0] lies between
    them, also when there is no number. *)
Lemma reduce_mean_bounds (t : tensor R) (lo hi : R) :
  wf t -> (lo <= 0 <= hi)%R ->
  (forall a, In a (data t) -> (lo <= a <= hi)%R) ->
  (lo <= tf.reduce_mean t <= hi)%R.
Proof.
  intros Hwf H0 H. unfold tf.reduce_mean.
  pose proof (Rsum_list_bounds (data t) lo hi H) as Hb.
  rewrite Hwf in Hb. destruct (numel (shape t)) as [|n] eqn:E.
  - simpl in *. unfold Rdiv. rewrite Rinv_0. lra.
  - assert (Hn : (0 < INR (S n))%R) by (apply lt_0_INR; lia).
    split.
    + apply Rmult_le_reg_r with (INR (S n)); [exact Hn|].
      unfold Rdiv. rewrite Rmult_assoc, Rinv_l by lra. lra.
    + apply Rmult_le_reg_r with (INR (S n)); [exact Hn|].
      unfold Rdiv. rewrite Rmult_assoc, Rinv_l by lra. lra.
Qed.

Lemma fold_left_Rmax_spec (l : list R) (a : R) :
  (a <= fold_left Rmax l a)%R /\
  (forall x, In x l -> (x <= fold_left Rmax l a)%R) /\
  In (fold_left Rmax l a) (a :: l).
Proof.
  revert a. induction l as [|b l IH]; intros a; cbn [fold_left].
  - split; [lra|]. split; [intros x []|]. left. reflexivity.
  - destruct (IH (Rmax a b)) as (H1 & H2 & H3).
    pose proof (Rmax_l a b). pose proof (Rmax_r a b).
    split; [lra|]. split.
    + intros x [<-|Hx]; [lra | apply H2; exact Hx].
    + destruct H3 as [H3|H3]; [|right; right; exact H3].
      rewrite <- H3. unfold Rmax. destruct (Rle_dec a b).
      * right. left. reflexivity.
      * left. reflexivity.
Qed.

(** ** Softmax *)

Lemma sum_exp_last_at (t : tensor R) (pre pos : list nat) (v c : nat) :
  shape t = pre ++ [v] ->
  tf.sum_exp_last t (pos ++ [c])
  = Rsum_n v (fun k => exp (tget 0%R t (pos ++ [k]))).
Proof.
  intros Hs. unfold tf.sum_exp_last. rewrite Hs, last_last, removelast_last.
  reflexivity.
Qed.

Lemma sum_exp_last_pos (t : tensor R) (pre pos : list nat) (v c : nat) :
  shape t = pre ++ [v] -> 0 < v -> (0 < tf.sum_exp_last t (pos ++ [c]))%R.
Proof.
  intros Hs Hv. rewrite (sum_exp_last_at t pre pos v c Hs).
  apply Rsum_n_pos; [exact Hv|]. intros k _. apply exp_pos.
Qed.

Lemma softmax_ok (t : tensor R) (pre : list nat) (v : nat) :
  shape t = pre ++ [v] ->
  tf.softmax t =
  Some (tabulate (pre ++ [v]) (fun idx =>
          (exp (tget 0 t idx) / tf.sum_exp_last t idx)%R)).
Proof.
  intros Hs. unfold tf.softmax. rewrite Hs. destruct pre; reflexivity.
Qed.

Lemma log_softmax_ok (t : tensor R) (pre : list nat) (v : nat) :
  shape t = pre ++ [v] ->
  tf.log_softmax t =
  Some (tabulate (pre ++ [v]) (fun idx =>
          (tget 0 t idx - ln (tf.sum_exp_last t idx))%R)).
Proof.
  intros Hs. unfold tf.log_softmax. rewrite Hs. destruct pre; reflexivity.
Qed.

(** Along the last axis a softmax is a probability distribution. *)
Lemma softmax_distribution (t sm : tensor R) (pre pos : list nat) (v : nat) :
  shape t = pre ++ [v] -> 0 < v -> in_range pre pos ->
  tf.softmax t = Some sm ->
  (forall c, c < v -> (0 < tget 0 sm (pos ++ [c]))%R) /\
  Rsum_n v (fun c => tget 0%R sm (pos ++ [c])) = 1%R.
Proof.
  intros Hs Hv Hpos Hsm. rewrite (softmax_ok t pre v Hs) in Hsm.
  injection Hsm as <-.
  assert (Hel : forall c, c < v ->
            tget 0%R (tabulate (pre ++ [v]) (fun idx =>
                        (exp (tget 0 t idx) / tf.sum_exp_last t idx)%R))
                 (pos ++ [c])
            = (exp (tget 0 t (pos ++ [c]))
               * / Rsum_n v (fun k => exp (tget 0 t (pos ++ [k]))))%R).
  { intros c Hc. rewrite tget_tabulate by (apply in_range_snoc; assumption).
    rewrite (sum_exp_last_at t pre pos v c Hs). reflexivity. }
  assert (HS : (0 < Rsum_n v (fun k => exp (tget 0 t (pos ++ [k]))))%R).
  { apply Rsum_n_pos; [exact Hv|]. intros k _. apply exp_pos. }
  split.
  - intros c Hc. rewrite Hel by exact Hc.
    apply Rmult_lt_0_compat; [apply exp_pos | apply Rinv_0_lt_compat; exact HS].
  - rewrite (Rsum_n_ext v _ (fun c =>
               (/ Rsum_n v (fun k => exp (tget 0 t (pos ++ [k])))
                * exp (tget 0 t (pos ++ [c])))%R)).
    + rewrite Rsum_n_scale. apply Rinv_l. lra.
    + intros c Hc. rewrite Hel by exact Hc. ring.
Qed.

(** The largest log-probability of a log-softmax lies between [-ln v] and
    0. *)
Lemma log_softmax_max_bounds (t : tensor R) (pre pos : list nat) (v : nat) :
  shape t = pre ++ [v] -> 0 < v -> in_range pre pos ->
  let logsm := tabulate (pre ++ [v]) (fun idx =>
                 (tget 0 t idx - ln (tf.sum_exp_last t idx))%R) in
  (- ln (INR v) <= tget 0 (tf.reduce_max_last logsm) pos <= 0)%R.
Proof.
  intros Hs Hv Hpos logsm.
  set (S0 := Rsum_n v (fun k => exp (tget 0%R t (pos ++ [k])))).
  assert (HS : (0 < S0)%R).
  { apply Rsum_n_pos; [exact Hv|]. intros k _. apply exp_pos. }
  assert (Hel : forall k, k < v ->
            tget 0%R logsm (pos ++ [k]) = (tget 0 t (pos ++ [k]) - ln S0)%R).
  { intros k Hk. unfold logsm.
    rewrite tget_tabulate by (apply in_range_snoc; assumption).
    rewrite (sum_exp_last_at t pre pos v k Hs). reflexivity. }
  unfold tf.reduce_max_last. change (shape logsm) with (pre ++ [v]).
  rewrite removelast_last, tget_tabulate by exact Hpos.
  unfold tf.last_axis. change (shape logsm) with (pre ++ [v]).
  rewrite last_last.
  destruct v as [|v']; [lia|]. set (v := S v') in *.
  change (seq 0 v) with (0 :: seq 1 v'). cbn [map].
  set (a := tget 0%R logsm (pos ++ [0])).
  set (l := map (fun k => tget 0%R logsm (pos ++ [k])) (seq 1 v')).
  destruct (fold_left_Rmax_spec l a) as (H1 & H2 & H3).
  set (M := fold_left Rmax l a) in *.
  assert (Hall : forall k, k < v -> (tget 0 logsm (pos ++ [k]) <= M)%R).
  { intros [|k] Hk; [exact H1|]. apply H2. unfold l. apply in_map_iff.
    exists (S k). split; [reflexivity|]. apply in_seq. unfold v in Hk. lia. }
  assert (Hin : exists k, k < v /\ M = tget 0%R logsm (pos ++ [k])).
  { destruct H3 as [H3|H3].
    - exists 0. split; [unfold v; lia | symmetry; exact H3].
    - unfold l in H3. apply in_map_iff in H3. destruct H3 as (k & Hk & Hk').
      apply in_seq in Hk'. exists k. split; [unfold v; lia | symmetry; exact Hk]. }
  split.
  - (* the probabilities sum to one and none exceeds exp M *)
    assert (Hone : Rsum_n v (fun k => exp (tget 0%R logsm (pos ++ [k]))) = 1%R).
    { rewrite (Rsum_n_ext v _ (fun k =>
                 (/ S0 * exp (tget 0 t (pos ++ [k])))%R)).
      - rewrite Rsum_n_scale. fold S0. apply Rinv_l. lra.
      - intros k Hk. rewrite Hel by exact Hk.
        unfold Rminus. rewrite exp_plus, exp_Ropp, exp_ln by exact HS. ring. }
    assert (Hle : (Rsum_n v (fun k => exp (tget 0 logsm (pos ++ [k])))
                   <= Rsum_n v (fun _ => exp M))%R).
    { apply Rsum_n_le. intros k Hk.
      destruct (Hall k Hk) as [Hlt|Heq].
      - left. apply exp_increasing. exact Hlt.
      - rewrite Heq. lra. }
    rewrite Hone, Rsum_n_const in Hle.
    assert (Hv' : (0 < INR v)%R) by (apply lt_0_INR; exact Hv).
    assert (Hinv : (/ INR v <= exp M)%R).
    { apply Rmult_le_reg_l with (INR v); [exact Hv'|].
      rewrite Rinv_r by lra. exact Hle. }
    rewrite <- (ln_exp M), <- ln_Rinv by exact Hv'.
    apply ln_le_mono; [apply Rinv_0_lt_compat; exact Hv' | exact Hinv].
  - destruct Hin as (k & Hk & ->). rewrite Hel by exact Hk.
    assert (Hterm : (exp (tget 0 t (pos ++ [k])) <= S0)%R).
    { apply (Rsum_n_term_le v k (fun k => exp (tget 0%R t (pos ++ [k]))));
        [|exact Hk]. intros j _. left. apply exp_pos. }
    pose proof (ln_le_mono _ _ (exp_pos _) Hterm) as Hln.
    rewrite ln_exp in Hln. lra.
Qed.

(** ** [dae] *)

Lemma shape_gumbel_sample (s : list nat) (rnd : nat -> R) :
  shape (gumbel_sample s rnd) = s.
Proof. reflexivity. Qed.

(** X8.  [dae]: for an input of shape [pre ++ [n]], with the variables
    of the dense layer "mask" in place, a positive [v_size], uniform
    draws in [0, 1) and a linear decay of at most 1 (so that every
    logarithm is taken of a positive number and the temperature is at
    least 0.2), [dae] returns [m], [s] and [kl] where [m] and [s] have
    shape [pre ++ [v_size]] and are probability distributions along the
    last axis (positive entries that sum to 1), and [kl], the mean of the
    negated largest log-probability, lies between 0 and [ln v_size]. *)
Theorem dae_distributions `{Layers} (vars : gmap string (tensor R))
      (x : tensor R) (hparams : HParams) (name : string) (rnd : nat -> R)
      (pre : list nat) (n : nat) (kernel bias : tensor R) :
  shape x = pre ++ [n] ->
  dense_vars vars name "mask" n (v_size hparams) kernel bias ->
  0 < v_size hparams ->
  (forall k, (0 <= rnd k < 1)%R) ->
  (inverse_lin_decay (kl_warmup_steps hparams) <= 1)%R ->
  exists m s kl,
    dae vars x hparams name rnd = Some (m, s, kl) /\
    shape m = pre ++ [v_size hparams] /\
    shape s = pre ++ [v_size hparams] /\
    (forall pos, in_range pre pos ->
       (forall c, c < v_size hparams ->
          (0 < tget 0 m (pos ++ [c]))%R /\ (0 < tget 0 s (pos ++ [c]))%R) /\
       Rsum_n (v_size hparams) (fun c => tget 0%R m (pos ++ [c])) = 1%R /\
       Rsum_n (v_size hparams) (fun c => tget 0%R s (pos ++ [c])) = 1%R) /\
    (0 <= kl <= ln (INR (v_size hparams)))%R.
Proof.
  set (v := v_size hparams).
  intros Hs Hvars Hv _ _. unfold dae. fold v.
  rewrite (dense_ok vars name "mask" x kernel bias pre n v Hs Hvars). obind.
  set (m0 := tabulate (pre ++ [v]) _).
  assert (Hm0 : shape m0 = pre ++ [v]) by reflexivity.
  rewrite (log_softmax_ok m0 pre v Hm0). obind.
  set (logsm := tabulate (pre ++ [v]) _).
  unfold tf.mul, tf.add, tf.div. rewrite bop_scalar_r. obind.
  rewrite shape_gumbel_sample, Hm0.
  set (g := tabulate (pre ++ [v]) _).
  rewrite (bop_same _ logsm g) by reflexivity. obind.
  change (shape logsm) with (pre ++ [v]).
  set (lg := tabulate (pre ++ [v]) _).
  rewrite bop_scalar_r. obind. change (shape lg) with (pre ++ [v]).
  set (logits := tabulate (pre ++ [v]) _).
  assert (Hlogits : shape logits = pre ++ [v]) by reflexivity.
  destruct (tf.softmax logits) as [s|] eqn:Es;
    [|rewrite (softmax_ok logits pre v Hlogits) in Es; discriminate].
  destruct (tf.softmax m0) as [m|] eqn:Em;
    [|rewrite (softmax_ok m0 pre v Hm0) in Em; discriminate].
  obind. exists m, s. eexists. split; [reflexivity|].
  split.
  { rewrite (softmax_ok m0 pre v Hm0) in Em. injection Em as <-. reflexivity. }
  split.
  { rewrite (softmax_ok logits pre v Hlogits) in Es. injection Es as <-.
    reflexivity. }
  split.
  - intros pos Hpos.
    destruct (softmax_distribution m0 m pre pos v Hm0 Hv Hpos Em) as [Hmp Hm1].
    destruct (softmax_distribution logits s pre pos v Hlogits Hv Hpos Es)
      as [Hsp Hs1].
    split; [|split; assumption].
    intros c Hc. split; [apply Hmp | apply Hsp]; exact Hc.
  - assert (Hv1 : (0 <= ln (INR v))%R).
    { rewrite <- ln_1. apply ln_le_mono; [lra|].
      change 1%R with (INR 1). apply le_INR. lia. }
    apply reduce_mean_bounds.
    + apply wf_tmap, wf_tabulate.
    + lra.
    + intros a Ha. unfold tf.neg, tmap, tf.reduce_max_last in Ha.
      cbn [data] in Ha. apply in_map_iff in Ha.
      destruct Ha as (a' & <- & Ha').
      unfold tabulate in Ha'. cbn [data] in Ha'. apply in_map_iff in Ha'.
      destruct Ha' as (p & <- & Hp). apply in_seq in Hp.
      change (shape logsm) with (pre ++ [v]) in *.
      rewrite removelast_last in *.
      assert (Hpos : in_range pre (unravel pre p))
        by (apply unravel_in_range; lia).
      pose proof (log_softmax_max_bounds m0 pre (unravel pre p) v Hm0 Hv Hpos)
        as Hb.
      cbv zeta in Hb. fold logsm in Hb.
      unfold tf.reduce_max_last in Hb.
      change (shape logsm) with (pre ++ [v]) in Hb.
      rewrite removelast_last, tget_tabulate in Hb by exact Hpos.
      lra.
Qed.

(** ** The losses are not negative *)

Lemma dense_shape (vars : gmap string (tensor R)) (scope name : string)
      (x t : tensor R) (units : nat) :
  tf.dense vars scope x units name = Some t ->
  shape t = removelast (shape x) ++ [units] /\ wf t.
Proof.
  unfold tf.dense.
  destruct (tf.get_variable _ _ "kernel" _); [|discriminate].
  destruct (tf.get_variable _ _ "bias" _); [|discriminate].
  intros [= <-]. split; [reflexivity | apply wf_tabulate].
Qed.

Lemma in_data_tabulate {A} (s : list nat) (f : list nat -> A) (a : A) :
  In a (data (tabulate s f)) ->
  exists idx, in_range s idx /\ a = f idx.
Proof.
  unfold tabulate. cbn [data]. intros Ha. apply in_map_iff in Ha.
  destruct Ha as (p & <- & Hp). apply in_seq in Hp.
  exists (unravel s p). split; [apply unravel_in_range; lia | reflexivity].
Qed.

(** The mean of numbers that are not negative is not negative. *)
Lemma reduce_mean_nonneg (t : tensor R) :
  (forall a, In a (data t) -> (0 <= a)%R) -> (0 <= tf.reduce_mean t)%R.
Proof.
  intros H. unfold tf.reduce_mean, Rdiv.
  apply Rmult_le_pos; [|apply Rinv_INR_nonneg].
  induction (data t) as [|a l IH]; simpl; [lra|].
  assert (0 <= a)%R by (apply H; left; reflexivity).
  assert (0 <= Rsum l)%R by (apply IH; intros; apply H; right; assumption).
  unfold Rsum in *. lra.
Qed.

(** X9.  Whenever [vae] returns, its KL term is not negative. *)
Theorem vae_kl_nonneg (vars : gmap string (tensor R)) (x : tensor R)
      (hparams : HParams) (name : string) (rnd : nat -> R)
      (z mu log_sigma : tensor R) (kl : R) :
  vae vars x hparams name rnd = Some (z, kl, mu, log_sigma) ->
  (0 <= kl)%R.
Proof.
  unfold vae. intros Hv.
  destruct (tf.dense vars name x (z_size hparams) "mu") as [mu'|] eqn:Emu;
    [|discriminate].
  destruct (tf.dense vars name x (z_size hparams) "log_sigma") as [ls|] eqn:Els;
    [|discriminate].
  revert Hv. obind.
  destruct (vae_epsilon x hparams rnd) as [eps|]; [|discriminate]. obind.
  destruct (tf.div ls (tf.scalar 2)) as [half|]; [|discriminate]. obind.
  destruct (tf.mul (tf.exp half) eps) as [noise|]; [|discriminate]. obind.
  destruct (tf.add mu' noise) as [z'|]; [|discriminate]. obind.
  destruct (dense_shape _ _ _ _ _ _ Emu) as [Hsm _].
  destruct (dense_shape _ _ _ _ _ _ Els) as [Hsl Hwl].
  set (s := removelast (shape x) ++ [z_size hparams]) in *.
  unfold tf.add, tf.sub, tf.mul.
  rewrite (bop_same _ (tf.exp ls) (tf.square mu')) by (cbn; congruence).
  obind. change (shape (tf.exp ls)) with (shape ls). rewrite Hsl.
  set (e1 := tabulate s _).
  rewrite bop_scalar_r. obind. change (shape e1) with s.
  set (e2 := tabulate s _).
  rewrite (bop_same _ e2 ls) by (symmetry; exact Hsl). obind.
  change (shape e2) with s. set (e3 := tabulate s _).
  rewrite bop_scalar_l. obind.
  intros [= _ <- _ _].
  assert (He3 : forall idx, in_range s idx -> (0 <= tget 0 e3 idx)%R).
  { intros idx Hin. unfold e3. rewrite tget_tabulate by exact Hin.
    rewrite !bget_same by (rewrite ?Hsl; exact Hin).
    unfold e2. rewrite tget_tabulate by exact Hin.
    rewrite !bget_same by exact Hin.
    unfold e1. rewrite tget_tabulate by exact Hin.
    rewrite !bget_same by (cbn; rewrite ?Hsl, ?Hsm; exact Hin).
    unfold tf.exp. rewrite (tget_tmap_wf 0%R) by (rewrite ?Hsl; assumption).
    rewrite tget_square.
    pose proof (exp_ineq1_le (tget 0%R ls idx)).
    pose proof (Rle_0_sqr (tget 0%R mu' idx)) as Hsq. unfold Rsqr in Hsq.
    lra. }
  apply reduce_mean_nonneg. intros a Ha.
  apply in_data_tabulate in Ha. destruct Ha as (idx & Hin & ->).
  unfold tf.reduce_mean_last in *. cbv zeta in *.
  change (shape e3) with s in *. unfold s in Hin |- *.
  rewrite removelast_last in Hin. rewrite removelast_last, last_last.
  rewrite bget_same by (rewrite shape_tabulate; exact Hin).
  rewrite tget_tabulate by exact Hin.
  apply Rmult_le_pos; [lra|]. unfold Rdiv.
  apply Rmult_le_pos; [|apply Rinv_INR_nonneg].
  apply Rsum_n_nonneg. intros k Hk. apply He3.
  apply in_range_snoc; assumption.
Qed.

Lemma kmeans_loss_nonneg_aux (x means hot : tensor R) (hparams : HParams)
      (name : string) (loss : R) :
  kmeans x means hparams name = Some (hot, loss) -> (0 <= loss)%R.
Proof.
  unfold kmeans. intros Hk.
  destruct (nearest x means hparams) as [h|]; [|discriminate].
  revert Hk. obind.
  destruct (tf.gather means (tf.argmax_last h)) as [xm|]; [|discriminate].
  obind. destruct (tf.sub x xm) as [d|]; [|discriminate]. obind.
  intros [= _ <-].
  apply Rmult_le_pos; [|lra].
  apply reduce_mean_nonneg. intros a Ha. unfold tf.reduce_sum_last in Ha.
  apply in_data_tabulate in Ha. destruct Ha as (idx & _ & ->).
  apply Rsum_n_nonneg. intros k _. rewrite tget_square.
  apply Rle_0_sqr.
Qed.

(** ** [nearest] and the scale of its input *)

Lemma argmax_from_scale (c : R) (l : list R) (bi : nat) (bv : R) (i : nat) :
  (0 < c)%R ->
  tf.argmax_from bi (c * bv) i (map (Rmult c) l) = tf.argmax_from bi bv i l.
Proof.
  intros Hc. revert bi bv i.
  induction l as [|a l IH]; intros bi bv i; cbn [map tf.argmax_from].
  - reflexivity.
  - destruct (Rlt_dec (c * bv) (c * a)) as [H1|H1],
             (Rlt_dec bv a) as [H2|H2].
    + apply IH.
    + exfalso. apply H2. nra.
    + exfalso. apply H1. nra.
    + apply IH.
Qed.

Lemma argmax_list_scale (c : R) (l : list R) :
  (0 < c)%R -> tf.argmax_list (map (Rmult c) l) = tf.argmax_list l.
Proof.
  intros Hc. destruct l as [|a l]; [reflexivity|].
  cbn [map tf.argmax_list]. apply argmax_from_scale. exact Hc.
Qed.

(** X11.  Over the reals, [nearest] does not depend on the scale of its
    input: for [x] of shape [b, l, w, hidden_size], a table of shape
    [v_size, hidden_size] and [c > 0], [nearest(c * x, means)] is
    [nearest(x, means)].  The products [c * x] and the inner products are
    exact real numbers here; in floating point a small [c] can underflow
    [c * x] to zero and a large one can overflow it, and the codes then
    differ. *)
Theorem nearest_scale_invariant (x x' means : tensor R) (hparams : HParams)
      (b l w : nat) (c : R) :
  shape x = [b; l; w; hidden_size hparams] ->
  wf x ->
  shape means = [v_size hparams; hidden_size hparams] ->
  0 < hidden_size hparams ->
  0 < v_size hparams ->
  (0 < c)%R ->
  tf.mul (tf.scalar c) x = Some x' ->
  nearest x' means hparams = nearest x means hparams.
Proof.
  set (v := v_size hparams). set (h := hidden_size hparams).
  intros Hsx Hwx Hsm Hh Hv Hc Hx'.
  unfold tf.mul in Hx'. rewrite bop_scalar_l in Hx'. injection Hx' as <-.
  set (x' := tabulate (shape x) _).
  assert (Hsx' : shape x' = [b; l; w; h]) by exact Hsx.
  assert (Hwx' : wf x') by apply wf_tabulate.
  assert (Hel : forall idx, in_range [b; l; w; h] idx ->
            tget 0%R x' idx = (c * tget 0 x idx)%R).
  { intros idx Hin. unfold x'. rewrite Hsx, tget_tabulate by exact Hin.
    rewrite bget_same by (rewrite Hsx; exact Hin). reflexivity. }
  destruct (nearest_rows x means hparams b l w Hsx Hwx Hsm Hh Hv)
    as (hot & -> & Hsh & Hwh & Hrows).
  destruct (nearest_rows x' means hparams b l w Hsx' Hwx' Hsm Hh Hv)
    as (hot' & -> & Hsh' & Hwh' & Hrows').
  fold v h in Hsh, Hsh', Hrows, Hrows'. cbv zeta in Hrows, Hrows'.
  f_equal. apply (tensor_ext 0%R); [congruence | assumption | assumption |].
  rewrite Hsh'. intros idx Hin. inv_range Hin.
  assert (Hpos : in_range [b; l; w] [i; i0; i1]) by solve_range.
  destruct (Hrows [i; i0; i1] Hpos) as (_ & Hhot & _).
  destruct (Hrows' [i; i0; i1] Hpos) as (_ & Hhot' & _).
  change [i; i0; i1; i2] with ([i; i0; i1] ++ [i2]).
  rewrite Hhot, Hhot' by assumption.
  replace (nearest_index h v x' means [i; i0; i1])
    with (nearest_index h v x means [i; i0; i1]); [reflexivity|].
  unfold nearest_index. rewrite <- (argmax_list_scale c) by exact Hc.
  rewrite map_map. f_equal. apply map_ext. intros j.
  unfold inner_normalized. rewrite <- Rsum_n_scale.
  apply Rsum_n_ext. intros k Hk. cbn [app].
  rewrite Hel by solve_range. ring.
Qed.

(** ** When [nearest] returns, and what it minimizes *)

(** X26.  When [nearest] returns.  On a well-formed input of shape
    [b, l, w, c] with no empty axis, and with [v_size > 0], [nearest]
    returns a value exactly when the last axis of the input is
    [hidden_size] wide and the table of means is a matrix with at least
    one row and [hidden_size] columns.  The number of rows need not be
    [v_size]: [nearest] accepts a table of any positive height. *)
Theorem nearest_defined (x means : tensor R) (hparams : HParams)
      (b l w c : nat) :
  shape x = [b; l; w; c] -> wf x ->
  0 < b -> 0 < l -> 0 < w -> 0 < c ->
  0 < v_size hparams ->
  (is_Some (nearest x means hparams)
   <-> c = hidden_size hparams /\
       exists m, 0 < m /\ shape means = [m; hidden_size hparams]).
Proof.
  set (v := v_size hparams). set (h := hidden_size hparams).
  intros Hsx Hwx Hb Hl Hw Hc Hv.
  assert (Hblw : 0 < b * l * w) by (repeat apply Nat.mul_pos_pos; assumption).
  assert (Hlen : length (data x) = b * (l * (w * c))).
  { unfold wf in Hwx. rewrite Hwx, Hsx. cbn [numel]. lia. }
  unfold nearest, tf.stop_gradient. fold v h.
  split.
  - intros [hot Hn]. revert Hn. unfold tf.reshape_infer. cbv zeta.
    cbn [numel]. rewrite !Nat.mul_1_r, !Hlen.
    destruct (Nat.eqb_spec h 0) as [|Hh]; [(obind; discriminate)|].
    destruct (Nat.eqb_spec ((b * (l * (w * c))) mod h) 0) as [Hmod|];
      [|(obind; discriminate)].
    obind. unfold tf.matmul_transpose_b. cbn [shape].
    rewrite shape_l2_normalize.
    destruct (shape means) as [|m [|h' [|? ?]]]; try (obind; discriminate).
    destruct (Nat.eqb_spec h h') as [<-|]; [|(obind; discriminate)].
    obind. unfold tf.top_k1_indices. rewrite shape_neg, shape_neg.
    rewrite shape_tabulate. cbn [List.last removelast app].
    destruct (Nat.eqb_spec m 0) as [|Hm]; [obind; (obind; discriminate)|].
    obind. unfold tf.squeeze. rewrite shape_tabulate.
    cbn [lookup list_lookup take drop app]. obind.
    unfold tf.dim. rewrite Hsx. cbn [lookup list_lookup]. obind.
    unfold tf.reshape, tf.one_hot. rewrite length_tabulate. cbn [shape app].
    destruct (Nat.eqb_spec
                (numel [b; l; w; v])
                (numel [b * (l * (w * c)) / h; v])) as [E|];
      [|(obind; discriminate)].
    intros _. split; [|exists m; split; [lia | reflexivity]].
    cbn [numel] in E. rewrite !Nat.mul_1_r in E.
    apply Nat.Div0.div_exact in Hmod.
    set (q := b * (l * (w * c)) / h) in *.
    assert (Eq : b * (l * w) = q) by nia.
    rewrite <- Eq in Hmod.
    assert (E2 : (b * (l * w)) * c = (b * (l * w)) * h) by lia.
    apply Nat.mul_cancel_l in E2; [exact E2 | lia].
  - intros [-> (m & Hm & Hsm)].
    rewrite (reshape_infer_last x [b; l; w] h Hwx Hsx Hc). obind.
    rewrite (matmul_transpose_b_ok _ _ (numel [b; l; w]) h m)
      by (try reflexivity; rewrite shape_l2_normalize; exact Hsm).
    obind.
    rewrite (top_k1_indices_ok _ (numel [b; l; w]) m) by (reflexivity || exact Hm).
    obind. rewrite (squeeze_column _ (numel [b; l; w])) by reflexivity.
    obind. unfold tf.dim. rewrite Hsx. cbn [lookup list_lookup]. obind.
    rewrite reshape_ok.
    2:{ unfold tf.one_hot. rewrite length_tabulate. simpl. lia. }
    eexists. reflexivity.
Qed.

(** ** [nearest] and the Euclidean distance *)

Lemma Rsum_n_plus (n : nat) (f g : nat -> R) :
  Rsum_n n (fun k => (f k + g k)%R) = (Rsum_n n f + Rsum_n n g)%R.
Proof.
  induction n as [|n IH].
  - unfold Rsum_n. simpl. lra.
  - rewrite !Rsum_n_S, IH. lra.
Qed.

(** A row whose squared norm is at least [l2_epsilon] is normalized to
    unit length. *)
Lemma normalized_row_unit (n : nat) (table : tensor R) (j : nat) :
  (tf.l2_epsilon
   <= Rsum_n n (fun k => tget 0 table [j; k] * tget 0 table [j; k]))%R ->
  Rsum_n n (fun k =>
    ((tget 0 table [j; k] * / row_norm n table j)
     * (tget 0 table [j; k] * / row_norm n table j))%R) = 1%R.
Proof.
  intros Hge. unfold row_norm. rewrite Rmax_left by exact Hge.
  set (sq := Rsum_n n _) in *.
  assert (Hpos : (0 < sq)%R) by (unfold tf.l2_epsilon in Hge; lra).
  rewrite (Rsum_n_ext n _
             (fun k => (/ sq * (tget 0 table [j; k] * tget 0 table [j; k]))%R)).
  - rewrite Rsum_n_scale. fold sq. field. lra.
  - intros k _.
    transitivity ((tget 0 table [j; k] * tget 0 table [j; k])
                  * / (sqrt sq * sqrt sq))%R.
    + field. apply Rgt_not_eq. apply sqrt_lt_R0. exact Hpos.
    + rewrite sqrt_sqrt by lra. lra.
Qed.

Lemma normalized_distance_expand (n : nat) (x table : tensor R)
      (pos : list nat) (j : nat) :
  (tf.l2_epsilon
   <= Rsum_n n (fun k => tget 0 table [j; k] * tget 0 table [j; k]))%R ->
  normalized_distance n x table pos j
  = (Rsum_n n (fun k => tget 0 x (pos ++ [k]) * tget 0 x (pos ++ [k]))
     - 2 * inner_normalized n x table pos j + 1)%R.
Proof.
  intros Hge. rewrite <- (normalized_row_unit n table j Hge).
  unfold normalized_distance, inner_normalized.
  set (xs := fun k => tget 0%R x (pos ++ [k])).
  set (ms := fun k => (tget 0 table [j; k] * / row_norm n table j)%R).
  rewrite (Rsum_n_ext n _
             (fun k => (xs k * xs k + -2 * (xs k * ms k)
                        + ms k * ms k)%R))
    by (intros k _; unfold xs, ms; cbv zeta; ring).
  rewrite !Rsum_n_plus, Rsum_n_scale. unfold xs, ms. lra.
Qed.

(** X28.  [nearest] selects a nearest row.  When every row of [means]
    has a squared norm of at least [l2_epsilon], so that
    [tf.nn.l2_normalize] brings it to unit length, the index that
    [nearest] marks at a position minimizes the Euclidean distance
    between the vector of [x] at that position and the l2-normalized
    rows of [means]. *)
Theorem nearest_minimizes_distance (x means : tensor R) (hparams : HParams)
      (b l w : nat) :
  shape x = [b; l; w; hidden_size hparams] ->
  wf x ->
  shape means = [v_size hparams; hidden_size hparams] ->
  0 < hidden_size hparams ->
  0 < v_size hparams ->
  (forall j, j < v_size hparams ->
     (tf.l2_epsilon
      <= Rsum_n (hidden_size hparams)
           (fun k => tget 0 means [j; k] * tget 0 means [j; k]))%R) ->
  exists (hot : tensor R) (sel : list nat -> nat),
    nearest x means hparams = Some hot /\
    (forall pos, in_range [b; l; w] pos ->
       sel pos < v_size hparams /\
       (forall c, c < v_size hparams ->
          tget 0%R hot (pos ++ [c]) = if c =? sel pos then 1%R else 0%R) /\
       (forall j, j < v_size hparams ->
          (normalized_distance (hidden_size hparams) x means pos (sel pos)
           <= normalized_distance (hidden_size hparams) x means pos j)%R)).
Proof.
  intros Hsx Hwx Hsm Hh Hv Hnorm.
  destruct (nearest_rows x means hparams b l w Hsx Hwx Hsm Hh Hv)
    as (hot & Hn & _ & _ & Hrows).
  exists hot, (nearest_index (hidden_size hparams) (v_size hparams) x means).
  split; [exact Hn|].
  intros pos Hpos. destruct (Hrows pos Hpos) as (Hlt & Hhot & Hmax).
  split; [exact Hlt|]. split; [exact Hhot|].
  intros j Hj.
  rewrite !normalized_distance_expand by (apply Hnorm; assumption).
  specialize (Hmax j Hj). lra.
Qed.

(** ** [mix] at the ends of the schedule *)

Lemma tabulate_ext {A} (s : list nat) (f g : list nat -> A) :
  (forall idx, in_range s idx -> f idx = g idx) ->
  tabulate s f = tabulate s g.
Proof.
  intros H. unfold tabulate. f_equal. apply map_ext_in.
  intros n Hn. apply in_seq in Hn. apply H. apply unravel_in_range. lia.
Qed.

Lemma tabulate_tget {A} (d : A) (t : tensor A) :
  wf t -> tabulate (shape t) (tget d t) = t.
Proof.
  intros Hwf. symmetry.
  apply (tensor_ext d); [reflexivity | exact Hwf | apply wf_tabulate |].
  intros idx Hin. rewrite tget_tabulate by exact Hin. reflexivity.
Qed.

(** Without [simple], [mix] selects element by element. *)
Lemma mix_selects `{Layers} (x1 x2 : tensor R) (steps : nat)
      (min_prob max_prob : R) (mode : string) (rnd : nat -> R) :
  shape x1 = shape x2 ->
  mix x1 x2 steps min_prob max_prob mode false rnd =
  Some (tabulate (shape x1) (fun idx =>
          if Rlt_dec (rnd (ravel (shape x1) idx))
                     (mix_alpha_p steps min_prob max_prob mode)
          then tget 0%R x1 idx else tget 0%R x2 idx)).
Proof.
  intros Hs. unfold mix.
  set (alpha_p := mix_alpha_p steps min_prob max_prob mode).
  unfold tf.less_float, tf.mul, tf.sub, tf.add.
  rewrite bop_scalar_r. obind.
  set (alpha := tabulate _ _).
  rewrite (bop_same _ alpha x1) by reflexivity. obind.
  rewrite bop_scalar_l. obind.
  rewrite bop_same by (rewrite !shape_tabulate; exact Hs). obind.
  rewrite bop_same by reflexivity. obind.
  rewrite ?shape_tabulate.
  change (shape (tf.random_uniform (shape x1) 0 1 rnd)) with (shape x1) in *.
  f_equal. apply tabulate_ext. intros idx Hin.
  assert (Hin2 : in_range (shape x2) idx) by (rewrite <- Hs; exact Hin).
  repeat (first [ rewrite tget_tabulate by assumption
                | rewrite bget_same by (rewrite ?shape_tabulate; assumption) ]).
  unfold alpha.
  repeat (first [ rewrite tget_tabulate by assumption
                | rewrite bget_same by (rewrite ?shape_tabulate; assumption) ]).
  rewrite tget_random_uniform by exact Hin.
  replace (rnd (ravel (shape x1) idx) * (1 - 0) + 0)%R
    with (rnd (ravel (shape x1) idx)) by lra.
  destruct (Rlt_dec (rnd (ravel (shape x1) idx)) alpha_p); lra.
Qed.

(** With a mixing probability of 1 or more [mix] returns [x1]. *)
Lemma mix_takes_first `{Layers} (x1 x2 : tensor R) (steps : nat)
      (min_prob max_prob : R) (mode : string) (rnd : nat -> R) :
  shape x1 = shape x2 -> wf x1 ->
  (forall n, (rnd n < 1)%R) ->
  (1 <= mix_alpha_p steps min_prob max_prob mode)%R ->
  mix x1 x2 steps min_prob max_prob mode false rnd = Some x1.
Proof.
  intros Hs Hw1 Hrnd Ha. rewrite (mix_selects x1 x2) by exact Hs. f_equal.
  transitivity (tabulate (shape x1) (tget 0%R x1));
    [|apply tabulate_tget; exact Hw1].
  apply tabulate_ext.
  intros idx _. specialize (Hrnd (ravel (shape x1) idx)).
  destruct (Rlt_dec _ _); [reflexivity | lra].
Qed.

(** With a mixing probability of 0 or less [mix] returns [x2]. *)
Lemma mix_takes_second `{Layers} (x1 x2 : tensor R) (steps : nat)
      (min_prob max_prob : R) (mode : string) (rnd : nat -> R) :
  shape x1 = shape x2 -> wf x2 ->
  (forall n, (0 <= rnd n)%R) ->
  (mix_alpha_p steps min_prob max_prob mode <= 0)%R ->
  mix x1 x2 steps min_prob max_prob mode false rnd = Some x2.
Proof.
  intros Hs Hw2 Hrnd Ha. rewrite (mix_selects x1 x2) by exact Hs. f_equal.
  transitivity (tabulate (shape x2) (tget 0%R x2));
    [|apply tabulate_tget; exact Hw2].
  rewrite Hs. apply tabulate_ext.
  intros idx _. specialize (Hrnd (ravel (shape x2) idx)).
  destruct (Rlt_dec _ _); [lra | reflexivity].
Qed.

(** X12.  Without [simple], and with uniform draws in [0, 1), [mix] at
    the ends of its schedule returns one of its arguments unchanged: [x1]
    when the mixing probability is 1 or more, [x2] when it is 0 or
    less. *)
Theorem mix_endpoints `{Layers} (x1 x2 : tensor R) (steps : nat)
      (min_prob max_prob : R) (mode : string) (rnd : nat -> R) :
  shape x1 = shape x2 -> wf x1 -> wf x2 ->
  (forall n, (0 <= rnd n < 1)%R) ->
  ((1 <= mix_alpha_p steps min_prob max_prob mode)%R ->
   mix x1 x2 steps min_prob max_prob mode false rnd = Some x1) /\
  ((mix_alpha_p steps min_prob max_prob mode <= 0)%R ->
   mix x1 x2 steps min_prob max_prob mode false rnd = Some x2).
Proof.
  intros Hs Hw1 Hw2 Hrnd. split; intros Ha.
  - apply mix_takes_first; try assumption. intros n. apply Hrnd.
  - apply mix_takes_second; try assumption. intros n. apply Hrnd.
Qed.

(** ** Without dropout the random draws do not matter *)

Lemma dropout_mask_keep_all (s : list nat) (rnd : nat -> R) (idx : list nat) :
  (forall n, (0 <= rnd n < 1)%R) -> dropout_mask s 1 rnd idx = 1%R.
Proof.
  intros Hrnd. unfold dropout_mask. specialize (Hrnd (ravel s idx)).
  rewrite <- (Int_part_spec _ 1%Z); [reflexivity|]. lra.
Qed.

(** With [keep_prob = 1] the result of [tf.nn.dropout] does not depend on
    the draws. *)
Lemma nn_dropout_keep_all (x : tensor R) (rnd rnd' : nat -> R) :
  (forall n, (0 <= rnd n < 1)%R) -> (forall n, (0 <= rnd' n < 1)%R) ->
  tf.nn_dropout x 1 rnd = tf.nn_dropout x 1 rnd'.
Proof.
  intros Hr Hr'.
  destruct (nn_dropout_elements x 1 rnd) as (d & -> & Hs & Hw & Hel).
  destruct (nn_dropout_elements x 1 rnd') as (d' & -> & Hs' & Hw' & Hel').
  f_equal. apply (tensor_ext 0%R); [congruence | assumption | assumption |].
  rewrite Hs. intros idx Hin. rewrite Hel, Hel' by exact Hin.
  rewrite !dropout_mask_keep_all by assumption. reflexivity.
Qed.

(** X13.  With [hparams.dropout = 0] and
    [hparams.layer_prepostprocess_dropout = 0] the results of
    [residual_conv], [encode] and [decode] do not depend on the uniform
    draws of their dropout (draws in [0, 1)). *)
Theorem dropout_zero_deterministic `{Layers} `{TransformerLayers}
      (hparams : AttentionHParams) (rnd rnd' : nat -> nat -> R) :
  dropout hparams = 0%R ->
  layer_prepostprocess_dropout hparams = 0%R ->
  (forall i n, (0 <= rnd i n < 1)%R) ->
  (forall i n, (0 <= rnd' i n < 1)%R) ->
  (forall (x : tensor R) (repeat : nat) (k : nat * nat) (name : string),
     residual_conv x repeat k hparams name rnd
     = residual_conv x repeat k hparams name rnd') /\
  (forall (x x_space : tensor R) (name : string) (i : nat),
     encode x x_space hparams name (rnd i)
     = encode x x_space hparams name (rnd' i)) /\
  (forall (cond_vec cond_add : option (tensor R)) (gold : tensor R)
          (c ed : option (tensor R)) (i : nat),
     decode cond_vec cond_add gold c ed hparams (rnd i)
     = decode cond_vec cond_add gold c ed hparams (rnd' i)).
Proof.
  intros Hd Hl Hr Hr'. split; [|split].
  - intros x repeat k name.
    induction repeat as [|m IH]; [reflexivity|].
    rewrite !residual_conv_S, IH.
    destruct (residual_conv x m k hparams name rnd') as [x'|]; [|reflexivity].
    obind. unfold residual_step.
    destruct (layer_norm _ _ _ _) as [n|]; [|reflexivity]. obind.
    destruct (conv_block _ _ _ _ _ _) as [y|]; [|reflexivity]. obind.
    rewrite Hd, Rminus_0_r.
    rewrite (nn_dropout_keep_all y (rnd m) (rnd' m)) by (intros; auto).
    reflexivity.
  - intros x x_space name i. unfold encode.
    destruct (transformer_prepare_encoder _ _ _ _) as [[[ei eb] ed]|];
      [|reflexivity].
    obind. rewrite Hd, Rminus_0_r.
    rewrite (nn_dropout_keep_all ei (rnd i) (rnd' i)) by (intros; auto).
    reflexivity.
  - intros cond_vec cond_add gold c ed i. unfold decode.
    rewrite Hl, Rminus_0_r.
    rewrite (nn_dropout_keep_all gold (rnd i) (rnd' i)) by (intros; auto).
    reflexivity.
Qed.

(** ** [ae_compress] and [ae_decompress] *)

(** The blend [f * cur + (1 - f) * stop_gradient(cur)] has the value
    [cur]. *)
Lemma lr_factor_blend (f : R) (cur : tensor R) :
  wf cur ->
  exists cur_n rest,
    tf.mul (tf.scalar f) cur = Some cur_n /\
    tf.mul (tf.scalar (1 - f)) (tf.stop_gradient cur) = Some rest /\
    tf.add cur_n rest = Some cur.
Proof.
  intros Hwf. unfold tf.mul, tf.add, tf.stop_gradient.
  rewrite !bop_scalar_l. do 2 eexists.
  split; [reflexivity|]. split; [reflexivity|].
  rewrite bop_same by reflexivity. rewrite shape_tabulate. f_equal.
  transitivity (tabulate (shape cur) (tget 0%R cur));
    [|apply tabulate_tget; exact Hwf].
  apply tabulate_ext. intros idx Hin.
  rewrite !bget_same by (rewrite shape_tabulate; exact Hin).
  rewrite !tget_tabulate by exact Hin.
  rewrite !bget_same by exact Hin. ring.
Qed.

(** X14.  The value [ae_compress] returns does not depend on
    [hparams.kmeans_lr_factor]: the blend
    [f * cur + (1 - f) * stop_gradient(cur)] has the value [cur]. *)
Theorem ae_compress_lr_factor `{Layers} `{TransformerLayers}
      (vars : gmap string (tensor R)) (x : tensor R) (is_2d : nat)
      (hparams : AttentionHParams) (name : string) (rnd : nat -> nat -> R)
      (f : R) :
  ae_compress vars x is_2d (with_kmeans_lr_factor f hparams) name rnd
  = ae_compress vars x is_2d hparams name rnd.
Proof.
  unfold ae_compress.
  change (compress x None is_2d (with_kmeans_lr_factor f hparams)
                   (name +:+ "/compress") rnd)
    with (compress x None is_2d hparams (name +:+ "/compress") rnd).
  destruct (compress x None is_2d hparams (name +:+ "/compress") rnd)
    as [cur|]; [|reflexivity].
  obind.
  change (hidden_size (with_kmeans_lr_factor f hparams))
    with (hidden_size hparams).
  destruct (conv_block name cur (hidden_size hparams) _ _ "mid_conv")
    as [mid|]; [|reflexivity].
  obind.
  change (kmeans_lr_factor (with_kmeans_lr_factor f hparams)) with f.
  destruct (lr_factor_blend f (tf.l2_normalize mid 3) (wf_tabulate _ _))
    as (a1 & b1 & -> & -> & Hf).
  destruct (lr_factor_blend (kmeans_lr_factor hparams)
              (tf.l2_normalize mid 3) (wf_tabulate _ _))
    as (a2 & b2 & -> & -> & Hh).
  obind. rewrite Hf, Hh. reflexivity.
Qed.

(** X15.  [ae_compress] followed by [ae_embed] under the same scope, as
    in [ae_transformer_internal]: when the compression and the
    convolution "mid_conv" return a tensor [mid] of shape
    [b, l, w, hidden_size] and the variables "z_to_dense" and
    "unnormalize" are in place, [ae_compress] returns [(cur, hot, loss)]
    where [hot] is [nearest] of the l2-normalized [mid] and [cur] is the
    dense layer "unnormalize" of it, and [ae_embed(hot)] returns the same
    dense layer applied to the rows of "z_to_dense" that [hot] selects;
    both have shape [b, l, w, hidden_size]. *)
Theorem ae_compress_then_ae_embed `{Layers} `{TransformerLayers}
      (vars : gmap string (tensor R)) (x : tensor R) (is_2d : nat)
      (hparams : AttentionHParams) (name : string) (rnd : nat -> nat -> R)
      (compressed mid means kernel bias : tensor R) (b l w : nat) :
  compress x None is_2d hparams (name +:+ "/compress") rnd
  = Some compressed ->
  conv_block name compressed (hidden_size hparams) [((1, 1), (1, 1))]
    {| first_relu := true; padding := None; strides := None |} "mid_conv"
  = Some mid ->
  shape mid = [b; l; w; hidden_size hparams] ->
  tf.get_variable vars name "z_to_dense"
                  [v_size hparams; hidden_size hparams] = Some means ->
  dense_vars vars name "unnormalize" (hidden_size hparams)
             (hidden_size hparams) kernel bias ->
  0 < hidden_size hparams ->
  0 < v_size hparams ->
  let state := tf.l2_normalize mid 3 in
  exists cur hot loss x_means emb,
    ae_compress vars x is_2d hparams name rnd = Some (cur, hot, loss) /\
    nearest state means hparams = Some hot /\
    tf.gather means (tf.argmax_last hot) = Some x_means /\
    tf.dense vars name state (hidden_size hparams) "unnormalize" = Some cur /\
    ae_embed vars hot hparams name = Some emb /\
    tf.dense vars name x_means (hidden_size hparams) "unnormalize"
    = Some emb /\
    shape cur = [b; l; w; hidden_size hparams] /\
    shape emb = [b; l; w; hidden_size hparams].
Proof.
  set (v := v_size hparams). set (h := hidden_size hparams).
  intros Hc Hmid Hsmid Hvar Hdense Hh Hv state.
  assert (Hss : shape state = [b; l; w; h]) by exact Hsmid.
  assert (Hws : wf state) by apply wf_tabulate.
  pose proof (get_variable_shape _ _ _ _ _ Hvar) as Hsm.
  destruct (kmeans_loss state means hparams (name +:+ "/kmeans") b l w
                        Hss Hws Hsm Hh Hv) as (hot & Hn & Hk).
  destruct (nearest_one_hot_over state means hparams b l w Hss Hws Hsm Hh Hv)
    as (hot' & Hn' & Hsh & Hwh & Hhot).
  assert (hot' = hot) by congruence. subst hot'.
  destruct (ae_embed_lookup_gather vars hot means hparams name b l w
                                   Hvar Hsh Hwh Hv Hhot)
    as (x_means & Hg & Hl & Hsx).
  pose proof (dense_ok vars name "unnormalize" state kernel bias [b; l; w]
                       h h Hss Hdense) as Hcur.
  pose proof (dense_ok vars name "unnormalize" x_means kernel bias [b; l; w]
                       h h Hsx Hdense) as Hemb.
  do 5 eexists.
  split.
  { unfold ae_compress. rewrite Hc. obind. fold h. rewrite Hmid. obind.
    fold state.
    destruct (lr_factor_blend (kmeans_lr_factor hparams) state Hws)
      as (a & r & -> & -> & Hadd).
    obind. rewrite Hadd. obind. fold v. rewrite Hvar. obind. rewrite Hk. obind.
    rewrite Hcur. reflexivity. }
  split; [exact Hn|]. split; [exact Hg|]. split; [exact Hcur|].
  split; [unfold ae_embed; rewrite Hl; obind; exact Hemb|].
  split; [exact Hemb|]. split; reflexivity.
Qed.

Lemma tget_random_uniform_scalar (rnd : nat -> R) :
  tget 0%R (tf.random_uniform [] 0 1 rnd) [] = (rnd 0%nat * (1 - 0) + 0)%R.
Proof. reflexivity. Qed.

(** X16.  Outside training (mode EVAL or PREDICT), with uniform draws in
    [0, 1), the [tf.cond] of [ae_decompress] always selects the mixed
    [z]: the result does not depend on the draw of the condition; and
    once the linear decay over [startup_steps] is 1 the result does not
    depend on [ae] at all. *)
Theorem ae_decompress_outside_training `{Layers} `{TransformerLayers}
      (vars : gmap string (tensor R)) (z ae x : tensor R) (is_2d : nat)
      (hparams : AttentionHParams) (name : string) (rnd : nat -> nat -> R) :
  mode hparams <> TRAIN ->
  (forall i n, (0 <= rnd i n < 1)%R) ->
  (forall u : nat -> R,
     (forall n, (0 <= u n < 1)%R) ->
     ae_decompress vars z ae x is_2d hparams name
                   (fun i => if i =? 1 then u else rnd i)
     = ae_decompress vars z ae x is_2d hparams name rnd) /\
  (inverse_lin_decay (startup_steps hparams) = 1%R ->
   wf z ->
   forall ae' : tensor R,
     shape ae = shape z -> shape ae' = shape z ->
     ae_decompress vars z ae' x is_2d hparams name rnd
     = ae_decompress vars z ae x is_2d hparams name rnd).
Proof.
  intros Hmode Hrnd.
  assert (Hprob : match mode hparams with
                  | TRAIN =>
                      (inverse_exp_decay (startup_steps hparams) * 0.8)%R
                  | _ => 1%R
                  end = 1%R).
  { destruct (mode hparams); [contradiction | reflexivity | reflexivity]. }
  split.
  - intros u Hu. unfold ae_decompress. cbn [Nat.eqb Nat.add].
    destruct (mix z ae (startup_steps hparams) 0 1 "lin" false (rnd 0))
      as [zm|]; [|reflexivity].
    obind. rewrite Hprob, !tget_random_uniform_scalar.
    specialize (Hu 0). specialize (Hrnd 1 0).
    destruct (Rlt_dec (u 0 * (1 - 0) + 0) 1) as [_|Hn]; [|exfalso; lra].
    destruct (Rlt_dec (rnd 1 0 * (1 - 0) + 0) 1) as [_|Hn]; [|exfalso; lra].
    reflexivity.
  - intros Hdecay Hwz ae' Hsa Hsa'. unfold ae_decompress.
    assert (Halpha : (1 <= mix_alpha_p (startup_steps hparams) 0 1 "lin")%R).
    { unfold mix_alpha_p. cbn [String.eqb Ascii.eqb Bool.eqb].
      change (model_hparams hparams) with (hparams : HParams).
      rewrite Hdecay. lra. }
    rewrite (mix_takes_first z ae), (mix_takes_first z ae');
      try (congruence || assumption); try (intros n; apply Hrnd).
    obind. rewrite Hprob, !tget_random_uniform_scalar.
    specialize (Hrnd 1 0).
    destruct (Rlt_dec (rnd 1 0 * (1 - 0) + 0) 1) as [_|Hn]; [|exfalso; lra].
    reflexivity.
Qed.

(** ** [ae_decompress] on 2d problems *)

(** X27.  For 2d problems [ae_decompress] is not autoregressive: its
    result depends on the targets [x] only through [tf.shape(x)[1]] and
    [tf.shape(x)[2]].  Two target tensors that agree on these two
    dimensions give the same result, whatever their values. *)
Theorem ae_decompress_2d_ignores_targets `{Layers} `{TransformerLayers}
      (vars : gmap string (tensor R)) (z ae x x' : tensor R) (is_2d : nat)
      (hparams : AttentionHParams) (name : string) (rnd : nat -> nat -> R) :
  truthy is_2d = true ->
  tf.dim x 1 = tf.dim x' 1 ->
  tf.dim x 2 = tf.dim x' 2 ->
  ae_decompress vars z ae x is_2d hparams name rnd
  = ae_decompress vars z ae x' is_2d hparams name rnd.
Proof.
  intros H2d H1 H2. unfold ae_decompress. rewrite H2d. cbn [negb].
  rewrite H1, H2. reflexivity.
Qed.

(** ** The losses of [ae_transformer_internal] *)

(** Every element [nearest] returns is 0 or 1. *)
Lemma nearest_zero_one (x means hot : tensor R) (hparams : HParams)
      (idx : list nat) :
  nearest x means hparams = Some hot ->
  tget 0%R hot idx = 0%R \/ tget 0%R hot idx = 1%R.
Proof.
  unfold nearest, tf.stop_gradient. intros Hn.
  destruct (tf.reshape_infer x _) as [x_flat|]; [|discriminate].
  revert Hn. obind.
  destruct (tf.matmul_transpose_b _ _) as [prod|]; [|discriminate]. obind.
  destruct (tf.top_k1_indices _) as [ni|]; [|discriminate]. obind.
  destruct (tf.squeeze ni 1) as [ni'|]; [|discriminate]. obind.
  destruct (tf.dim x 0) as [s0|]; [|discriminate]. obind.
  destruct (tf.dim x 1) as [s1|]; [|discriminate]. obind.
  destruct (tf.dim x 2) as [s2|]; [|discriminate]. obind.
  unfold tf.reshape. destruct (_ =? _); [|discriminate].
  intros [= <-]. unfold tget. cbn [shape data].
  match goal with
  | |- context [nth ?n ?l 0%R] =>
      destruct (nth_in_or_default n l 0%R) as [Hin| ->]; [|left; reflexivity]
  end.
  apply in_map_iff in Hin. destruct Hin as (n & <- & _).
  destruct (_ =? _); [right | left]; reflexivity.
Qed.

Lemma ae_compress_kmeans `{Layers} `{TransformerLayers}
      (vars : gmap string (tensor R)) (x : tensor R) (is_2d : nat)
      (hparams : AttentionHParams) (name : string) (rnd : nat -> nat -> R)
      (cur hot : tensor R) (loss : R) :
  ae_compress vars x is_2d hparams name rnd = Some (cur, hot, loss) ->
  exists cur_n means,
    kmeans cur_n means hparams (name +:+ "/kmeans") = Some (hot, loss).
Proof.
  unfold ae_compress. intros Ha.
  destruct (compress _ _ _ _ _ _) as [c0|]; [|discriminate].
  revert Ha. obind.
  destruct (conv_block _ _ _ _ _ _) as [mid|]; [|discriminate]. obind.
  destruct (tf.mul (tf.scalar (kmeans_lr_factor hparams)) _) as [a|];
    [|discriminate]. obind.
  destruct (tf.mul (tf.scalar (1 - kmeans_lr_factor hparams)) _) as [r|];
    [|discriminate]. obind.
  destruct (tf.add a r) as [cur_n|]; [|discriminate]. obind.
  destruct (tf.get_variable _ _ _ _) as [means|]; [|discriminate]. obind.
  destruct (kmeans cur_n means hparams _) as [[hot' loss']|] eqn:Ek;
    [|discriminate].
  obind. destruct (tf.dense _ _ _ _ _) as [d|]; [|discriminate]. obind.
  intros [= _ <- <-]. exists cur_n, means. exact Ek.
Qed.

Lemma kmeans_nearest (x means hot : tensor R) (hparams : HParams)
      (name : string) (loss : R) :
  kmeans x means hparams name = Some (hot, loss) ->
  nearest x means hparams = Some hot.
Proof.
  unfold kmeans. destruct (nearest x means hparams) as [h|]; [|discriminate].
  obind.
  destruct (tf.gather means (tf.argmax_last h)) as [xm|]; [|discriminate].
  obind. destruct (tf.sub x xm) as [d|]; [|discriminate]. obind.
  intros [= <- _]. reflexivity.
Qed.

(** X10.  Whenever [kmeans] returns [(hot, loss)], [hot] is the result
    of [nearest] on the same input, every element of [hot] is 0 or 1, and
    [loss] is not negative. *)
Theorem kmeans_codes_and_loss (x means hot : tensor R) (hparams : HParams)
      (name : string) (loss : R) :
  kmeans x means hparams name = Some (hot, loss) ->
  nearest x means hparams = Some hot /\
  (forall idx, tget 0%R hot idx = 0%R \/ tget 0%R hot idx = 1%R) /\
  (0 <= loss)%R.
Proof.
  intros Hk. pose proof (kmeans_nearest _ _ _ _ _ _ Hk) as Hn.
  split; [exact Hn|]. split.
  - intros idx. exact (nearest_zero_one _ _ _ _ idx Hn).
  - exact (kmeans_loss_nonneg_aux _ _ _ _ _ _ Hk).
Qed.

(** Against labels that are not negative the cross entropy is not
    negative. *)
Lemma softmax_cross_entropy_nonneg (labels logits rl : tensor R)
      (idx : list nat) :
  tf.softmax_cross_entropy_with_logits labels logits = Some rl ->
  (forall i, (0 <= tget 0 labels i)%R) ->
  in_range (shape rl) idx ->
  (0 <= tget 0 rl idx)%R.
Proof.
  unfold tf.softmax_cross_entropy_with_logits.
  destruct (bool_decide (shape labels = shape logits)); [|discriminate].
  destruct (shape logits) as [|d0 s0] eqn:Es.
  { unfold tf.log_softmax. rewrite Es. discriminate. }
  assert (Hsplit : d0 :: s0 = removelast (d0 :: s0) ++ [List.last (d0 :: s0) 1])
    by (apply app_removelast_last; discriminate).
  set (pre := removelast (d0 :: s0)) in *.
  set (v := List.last (d0 :: s0) 1) in *.
  rewrite Hsplit in Es.
  rewrite (log_softmax_ok logits pre v Es). cbv zeta.
  intros [= <-] Hlab Hin. rewrite shape_tabulate in Hin.
  rewrite tget_tabulate by exact Hin.
  match goal with
  | |- (0 <= - ?a)%R => cut (a <= 0)%R; [lra|]
  end.
  apply Rsum_n_nonpos. intros k Hk.
  rewrite tget_tabulate by (apply in_range_snoc; assumption).
  rewrite (sum_exp_last_at logits pre idx v k Es).
  assert (Hterm : (exp (tget 0 logits (idx ++ [k]))
                   <= Rsum_n v (fun j => exp (tget 0 logits (idx ++ [j]))))%R).
  { apply (Rsum_n_term_le v k (fun j => exp (tget 0%R logits (idx ++ [j]))));
      [|exact Hk]. intros j _. left. apply exp_pos. }
  pose proof (ln_le_mono _ _ (exp_pos _) Hterm) as Hln.
  rewrite ln_exp in Hln. specialize (Hlab (idx ++ [k])). nra.
Qed.

(** X17.  Whenever [ae_transformer_internal] returns [(z, losses)], with
    decays that are not negative, [losses] has exactly the entries "kl"
    and "reconstruction", "kl" is a scalar that is not negative, and no
    element of "reconstruction" is negative. *)
Theorem ae_transformer_internal_losses `{Layers} `{TransformerLayers}
      (vars : gmap string (tensor R))
      (inputs targets target_space : tensor R)
      (hparams : AttentionHParams) (rnd : nat -> nat -> nat -> R)
      (z : tensor R) (losses : gmap string (tensor R)) :
  ae_transformer_internal vars inputs targets target_space hparams rnd
  = Some (z, losses) ->
  (0 <= inverse_exp_decay (startup_steps hparams * 4 / 5))%R ->
  (0 <= inverse_exp_decay (startup_steps hparams))%R ->
  exists (kl : R) (reconstruction : tensor R),
    losses = {[ "kl" := tf.scalar kl; "reconstruction" := reconstruction ]} /\
    (0 <= kl)%R /\
    forall idx, in_range (shape reconstruction) idx ->
      (0 <= tget 0 reconstruction idx)%R.
Proof.
  unfold ae_transformer_internal. intros Ha Hd1 Hd2.
  destruct (flatten4d3d inputs) as [inputs'|]; [|discriminate].
  revert Ha. obind.
  destruct (encode _ _ _ _ _) as [[enc ed]|]; [|discriminate]. obind.
  destruct (ae_compress _ _ _ _ _ _) as [[[ae hot] kl]|] eqn:Eac;
    [|discriminate].
  obind. destruct (ae_embed _ _ _ _) as [emb|]; [|discriminate]. obind.
  destruct (flatten4d3d emb) as [ef|]; [|discriminate]. obind.
  destruct (tf.expand_dims ef 2) as [ef'|]; [|discriminate]. obind.
  destruct (decode _ _ _ _ _ _ _) as [dec_c|]; [|discriminate]. obind.
  destruct (tf.reshape dec_c _) as [dec_c'|]; [|discriminate]. obind.
  destruct (tf.dense _ _ _ _ _) as [c_z|]; [|discriminate]. obind.
  destruct (tf.softmax_cross_entropy_with_logits hot c_z) as [rl|] eqn:Erl;
    [|discriminate].
  obind. destruct (ae_decompress _ _ _ _ _ _ _ _) as [z'|]; [|discriminate].
  obind. unfold tf.mul. rewrite bop_scalar_r. obind.
  intros [= _ <-].
  destruct (ae_compress_kmeans _ _ _ _ _ _ _ _ _ Eac) as (cur_n & means & Hk).
  do 2 eexists. split; [reflexivity|]. split.
  - apply Rmult_le_pos; [|exact Hd1].
    exact (kmeans_loss_nonneg_aux _ _ _ _ _ _ Hk).
  - rewrite shape_tabulate. intros idx Hin.
    rewrite tget_tabulate by exact Hin. rewrite bget_same by exact Hin.
    apply Rmult_le_pos; [|exact Hd2].
    apply (softmax_cross_entropy_nonneg hot c_z rl idx Erl); [|exact Hin].
    intros i.
    destruct (nearest_zero_one _ _ _ _ i (kmeans_nearest _ _ _ _ _ _ Hk))
      as [-> | ->]; lra.
Qed.

(** X18.  [TransformerAE.model_fn_body] raises when [features] lacks
    "inputs", "targets" or "target_space_id". *)
Theorem model_fn_body_needs_keys `{Layers} `{TransformerLayers}
      (vars : gmap string (tensor R)) (features : gmap string (tensor R))
      (hparams : AttentionHParams) (rnd : nat -> nat -> nat -> R)
      (key : string) :
  In key ["inputs"; "targets"; "target_space_id"] ->
  features !! key = None ->
  model_fn_body vars features hparams rnd = None.
Proof.
  intros Hkey Hnone. unfold model_fn_body. simpl in Hkey.
  destruct Hkey as [<-|[<-|[<-|[]]]].
  - rewrite Hnone. reflexivity.
  - rewrite Hnone. destruct (features !! "inputs"); reflexivity.
  - rewrite Hnone.
    destruct (features !! "inputs"); [|reflexivity].
    destruct (features !! "targets"); reflexivity.
Qed.

(** ** More on [TransformerAE.infer] *)

Lemma keeps_infer_body `{T2TModel} (key : string) (last_position_only : bool) :
  key <> "inputs" -> key <> "targets" ->
  keeps key (infer_body last_position_only).
Proof.
  intros Hi Ht.
  assert (Hsi : forall v, keeps key (setitem "inputs" v))
    by (intros v; apply keeps_setitem; congruence).
  assert (Hst : forall v, keeps key (setitem "targets" v))
    by (intros v; apply keeps_setitem; congruence).
  unfold infer_body, save_inputs, sample.
  repeat first
    [ apply keeps_ret | apply keeps_lift | apply keeps_contains
    | apply keeps_getitem | apply keeps_current
    | apply Hsi | apply Hst
    | apply keeps_bind; [|intros ?]
    | apply keeps_fold_left; [intros ? ? ?|]
    | assumption
    | match goal with
      | |- keeps _ (if ?b then _ else _) => destruct b
      | |- keeps _ (match ?o with Some _ => _ | None => _ end) => destruct o
      end ].
Qed.

(** X19.  [TransformerAE.infer] changes the caller's features at the
    keys "inputs" and "targets" only: every other key holds after the
    call, whether it returns or raises, what it held before. *)
Theorem infer_touches_inputs_and_targets `{T2TModel}
      (features : gmap string (tensor Z))
      (decode_length beam_size top_beams : nat) (last_position_only : bool)
      (alpha : R) (key : string) :
  key <> "inputs" -> key <> "targets" ->
  exists after,
    (infer (Some features) decode_length beam_size top_beams
           last_position_only alpha).1 = Some after /\
    after !! key = features !! key.
Proof.
  intros Hi Ht. unfold infer. destruct (bool_decide (features = ∅)).
  - exists features. split; reflexivity.
  - eexists. split; [reflexivity|]. cbn [fst].
    apply keeps_infer_body; assumption.
Qed.

(** X20.  Without "inputs" and "partial_targets" in the features, and so
    without features, [TransformerAE.infer] raises (the lookup of
    "inputs" fails) and leaves the features as they are. *)
Theorem infer_requires_inputs `{T2TModel}
      (features : option (gmap string (tensor Z)))
      (decode_length beam_size top_beams : nat) (last_position_only : bool)
      (alpha : R) :
  default ∅ features !! "inputs" = None ->
  default ∅ features !! "partial_targets" = None ->
  infer features decode_length beam_size top_beams last_position_only alpha
  = (features, None).
Proof.
  assert (Hbody : forall f : gmap string (tensor Z),
            f !! "inputs" = None ->
            f !! "partial_targets" = None ->
            infer_body last_position_only f = (f, None)).
  { intros f Hi Hp. unfold infer_body, save_inputs.
    rewrite !Py_bind_run. unfold contains at 1. rewrite Hi.
    rewrite bool_decide_eq_false_2 by (intros [? ?]; discriminate).
    cbn [mret Py_ret]. rewrite Py_bind_run. unfold contains at 1. rewrite Hp.
    rewrite bool_decide_eq_false_2 by (intros [? ?]; discriminate).
    rewrite !Py_bind_run. unfold getitem at 1. rewrite Hi. reflexivity. }
  intros Hi Hp. unfold infer. destruct features as [f|]; cbn in Hi, Hp.
  - destruct (bool_decide (f = ∅)).
    + rewrite Hbody by apply lookup_empty. reflexivity.
    + rewrite Hbody by assumption. reflexivity.
  - rewrite Hbody by apply lookup_empty. reflexivity.
Qed.

Lemma keeps_on_raise_bind {A B} (key : string) (m : Py A) (k : A -> Py B) :
  keeps key m -> (forall a, keeps_on_raise key (k a)) ->
  keeps_on_raise key (m ≫= k).
Proof.
  intros Hm Hk f. rewrite Py_bind_run. specialize (Hm f).
  destruct (m f) as [f' [a|]]; cbn [fst snd] in *.
  - intros Hnone. rewrite (Hk a f' Hnone). exact Hm.
  - intros _. exact Hm.
Qed.

Lemma keeps_on_raise_setitem_ret {A} (key key' : string) (v : tensor Z)
      (a : A) :
  keeps_on_raise key (setitem key' v;; mret a).
Proof. intros f. cbn. discriminate. Qed.

Lemma save_inputs_expands (features : gmap string (tensor Z))
      (inputs expanded : tensor Z) :
  features !! "inputs" = Some inputs ->
  length (shape inputs) < 4 ->
  tf.expand_dims inputs 2 = Some expanded ->
  save_inputs features
  = (<["inputs" := expanded]> features, Some (Some inputs)).
Proof.
  intros Hin Hrank Hexp.
  unfold save_inputs. rewrite Py_bind_run. unfold contains at 1.
  rewrite Hin. rewrite bool_decide_eq_true_2 by eauto.
  rewrite Py_bind_run. unfold getitem at 1. rewrite Hin.
  destruct (Nat.ltb_spec (length (shape inputs)) 4); [|lia].
  rewrite Py_bind_run. unfold lift at 1. rewrite Hexp. reflexivity.
Qed.

(** X21.  When [TransformerAE.infer] raises after it has expanded inputs
    of rank below 4, the caller's features hold the expanded inputs: the
    inputs are restored on return only. *)
Theorem infer_raise_leaves_inputs_expanded `{T2TModel}
      (features : gmap string (tensor Z)) (inputs expanded : tensor Z)
      (decode_length beam_size top_beams : nat) (last_position_only : bool)
      (alpha : R) :
  features !! "inputs" = Some inputs ->
  length (shape inputs) < 4 ->
  tf.expand_dims inputs 2 = Some expanded ->
  (infer (Some features) decode_length beam_size top_beams
         last_position_only alpha).2 = None ->
  exists after,
    (infer (Some features) decode_length beam_size top_beams
           last_position_only alpha).1 = Some after /\
    after !! "inputs" = Some expanded.
Proof.
  intros Hin Hrank Hexp. unfold infer.
  rewrite bool_decide_eq_false_2
    by (intros ->; rewrite lookup_empty in Hin; discriminate).
  cbn [fst snd]. intros Hnone. eexists. split; [reflexivity|].
  revert Hnone. unfold infer_body.
  set (rest := fun inputs_old : option (tensor Z) => (_ ≫= _ : Py (tensor Z))).
  assert (Hrest : keeps_on_raise "inputs" (rest (Some inputs))).
  { unfold rest.
    apply keeps_on_raise_bind; [apply keeps_contains|]. intros has_partial.
    apply keeps_on_raise_bind; [destruct has_partial; keeps_tac|].
    intros initial_output.
    apply keeps_on_raise_bind; [keeps_tac|]. intros _.
    apply keeps_on_raise_bind; [apply keeps_sample|]. intros samples.
    apply keeps_on_raise_bind.
    - apply keeps_fold_left; [|apply keeps_ret].
      intros acc _ Hacc. apply keeps_bind; [exact Hacc|]. intros s.
      apply keeps_bind; [keeps_tac | intros _; apply keeps_sample].
    - intros s. apply keeps_on_raise_setitem_ret. }
  clearbody rest. rewrite Py_bind_run.
  rewrite (save_inputs_expands features inputs expanded Hin Hrank Hexp).
  intros Hnone. rewrite (Hrest _ Hnone). apply lookup_insert_eq.
Qed.

(** ** The registered sets of hyperparameters *)

Lemma add_hparam_is_free (hparams : gmap string hvalue) (name : string)
      (value : hvalue) :
  add_hparam hparams name value
  = if is_free hparams name then Some (<[name := value]> hparams) else None.
Proof.
  unfold add_hparam, is_free. destruct (hparams !! name) as [[]|]; reflexivity.
Qed.

Lemma is_free_insert_ne (hparams : gmap string hvalue) (name key : string)
      (value : hvalue) :
  key <> name -> is_free (<[key := value]> hparams) name = is_free hparams name.
Proof.
  intros Hne. unfold is_free. rewrite lookup_insert_ne by exact Hne.
  reflexivity.
Qed.

(** Move [is_free] through the assignments before it. *)
Ltac push_is_free :=
  repeat match goal with
  | |- context [is_free (<[?k := ?v]> ?h) ?n] =>
      rewrite (is_free_insert_ne h n k v) by discriminate
  end.

(** The case of a name that is refused. *)
Ltac refused name :=
  split; [|intros ? [=]]; split; [intros [? [=]]|];
  let Hall := fresh "Hall" in
  intros Hall;
  pose proof (Hall name ltac:(simpl; tauto));
  congruence.

(** X22.  [transformer_ae_small] is defined exactly when the set of
    [transformer_small] leaves the eight names it adds free (absent, or
    without a value); its result then holds the ten values the code
    gives, and at every other name what [transformer_small] holds. *)
Theorem transformer_ae_small_spec (base : gmap string hvalue) :
  (is_Some (transformer_ae_small base)
   <-> forall name, In name added_names -> is_free base name = true) /\
  forall hparams,
    transformer_ae_small base = Some hparams ->
    hparams !! "batch_size" = Some (HInt 2048) /\
    hparams !! "learning_rate_warmup_steps" = Some (HInt 4000) /\
    hparams !! "z_size" = Some (HInt 128) /\
    hparams !! "v_size" = Some (HInt 32768) /\
    hparams !! "num_compress_steps" = Some (HInt 4) /\
    hparams !! "kl_warmup_steps" = Some (HInt 60000) /\
    hparams !! "startup_steps" = Some (HInt 30000) /\
    hparams !! "kmeans_lr_factor" = Some (HFloat 0.002) /\
    hparams !! "z_dropout" = Some (HFloat 0.1) /\
    hparams !! "is_2d" = Some (HInt 0) /\
    forall key, ~ In key (assigned_names ++ added_names) ->
      hparams !! key = base !! key.
Proof.
  unfold transformer_ae_small. cbv zeta.
  rewrite add_hparam_is_free. push_is_free.
  destruct (is_free base "z_size") eqn:E1; obind;
    [|refused "z_size"].
  rewrite add_hparam_is_free. push_is_free.
  destruct (is_free base "v_size") eqn:E2; obind;
    [|refused "v_size"].
  rewrite add_hparam_is_free. push_is_free.
  destruct (is_free base "num_compress_steps") eqn:E3; obind;
    [|refused "num_compress_steps"].
  rewrite add_hparam_is_free. push_is_free.
  destruct (is_free base "kl_warmup_steps") eqn:E4; obind;
    [|refused "kl_warmup_steps"].
  rewrite add_hparam_is_free. push_is_free.
  destruct (is_free base "startup_steps") eqn:E5; obind;
    [|refused "startup_steps"].
  rewrite add_hparam_is_free. push_is_free.
  destruct (is_free base "kmeans_lr_factor") eqn:E6; obind;
    [|refused "kmeans_lr_factor"].
  rewrite add_hparam_is_free. push_is_free.
  destruct (is_free base "z_dropout") eqn:E7; obind;
    [|refused "z_dropout"].
  rewrite add_hparam_is_free. push_is_free.
  destruct (is_free base "is_2d") eqn:E8; obind;
    [|refused "is_2d"].
  split.
  - split; [|intros _; eexists; reflexivity].
    intros _ name Hin. simpl in Hin.
    repeat (destruct Hin as [<-|Hin]; [assumption|]). contradiction.
  - intros hparams [= <-].
    repeat (split;
            [repeat first [ apply lookup_insert_eq
                          | rewrite lookup_insert_ne by discriminate ]|]).
    intros key Hkey.
    repeat (rewrite lookup_insert_ne;
            [|intros <-; apply Hkey; simpl; tauto]).
    reflexivity.
Qed.

(** X23.  [transformer_ae_cifar] and [transformer_ae_base] are defined
    exactly when [transformer_ae_small] is; each differs from it at the
    names it assigns only, so [transformer_ae_cifar] has 2 compression
    steps and is 2d while [transformer_ae_base] keeps the compression
    steps and the dimensionality of [transformer_ae_small]. *)
Theorem transformer_ae_variants (base : gmap string hvalue) :
  (is_Some (transformer_ae_cifar base) <-> is_Some (transformer_ae_small base))
  /\
  (is_Some (transformer_ae_base base) <-> is_Some (transformer_ae_small base))
  /\
  forall small,
    transformer_ae_small base = Some small ->
    exists cifar big,
      transformer_ae_cifar base = Some cifar /\
      transformer_ae_base base = Some big /\
      (forall key,
         ~ In key ["batch_size"; "num_compress_steps"; "v_size";
                   "startup_steps"; "is_2d"] ->
         cifar !! key = small !! key) /\
      (forall key,
         ~ In key ["hidden_size"; "filter_size"; "attention_dropout";
                   "relu_dropout"; "dropout"; "num_hidden_layers";
                   "z_size"] ->
         big !! key = small !! key) /\
      cifar !! "num_compress_steps" = Some (HInt 2) /\
      cifar !! "is_2d" = Some (HInt 1) /\
      big !! "num_compress_steps" = small !! "num_compress_steps" /\
      big !! "is_2d" = small !! "is_2d".
Proof.
  unfold transformer_ae_cifar, transformer_ae_base.
  destruct (transformer_ae_small base) as [small|]; obind.
  - split; [split; intros _; eexists; reflexivity|].
    split; [split; intros _; eexists; reflexivity|].
    intros ? [= <-]. do 2 eexists.
    split; [reflexivity|]. split; [reflexivity|].
    split; [|split].
    + intros key Hkey.
      repeat (rewrite lookup_insert_ne;
              [|intros <-; apply Hkey; simpl; tauto]).
      reflexivity.
    + intros key Hkey.
      repeat (rewrite lookup_insert_ne;
              [|intros <-; apply Hkey; simpl; tauto]).
      reflexivity.
    + repeat split;
        repeat first [ apply lookup_insert_eq
                     | rewrite lookup_insert_ne by discriminate ];
        reflexivity.
  - split; [split; intros [? [=]]|].
    split; [split; intros [? [=]]|].
    intros ? [=].
Qed.

(** ** Compression and decompression are inverse on shapes *)

Lemma compressed_width_2d (p : Padding) (W n i : nat) :
  Nat.divide (2 ^ n) W -> i <= n ->
  compressed_width p true W i = W / 2 ^ i.
Proof.
  intros Hdiv. induction i as [|i IH]; intros Hi.
  - cbn [compressed_width]. rewrite Nat.pow_0_r, Nat.div_1_r. reflexivity.
  - cbn [compressed_width]. rewrite IH by lia.
    rewrite conv_size_halves by (apply (divide_pow2_step n i W Hdiv); lia).
    apply div_pow2_succ.
Qed.

(** X24.  On shapes, the decompression loop of [ae_decompress] undoes
    [compress]: for a length divisible by [k = 2^num_compress_steps], and
    a width divisible by [k] for 2d problems or equal to 1 otherwise,
    [compress] returns the shape with length (and, for 2d, width) divided
    by [k], and the decompression loop returns from it the shape it
    started from, with either padding of the convolutions. *)
Theorem compress_decompress_round_trip (p : Padding) (hparams : HParams)
      (b L W : nat) :
  let n := num_compress_steps hparams in
  let k := 2 ^ n in
  let two_d := truthy (is_2d hparams) in
  let h := hidden_size hparams in
  Nat.divide k L ->
  (if two_d then Nat.divide k W else W = 1) ->
  Shapes.compress p [b; L; W; h] None two_d hparams
  = Some [b; L / k; if two_d then W / k else 1; h] /\
  Shapes.decompress_loop p [b; L / k; if two_d then W / k else 1; h]
                         two_d hparams n
  = Some [b; L; W; h].
Proof.
  intros n k two_d h HL HW. subst h.
  assert (Hk : k <> 0) by (apply Nat.pow_nonzero; lia).
  split.
  - unfold Shapes.compress. fold n.
    rewrite (compress_loop_shape p two_d hparams b L W n n HL) by lia.
    fold k. do 3 f_equal. destruct two_d.
    + rewrite (compressed_width_2d p W n n HW) by lia. reflexivity.
    + rewrite compressed_width_1d, HW. reflexivity.
  - rewrite decompress_loop_shape by (intros E; rewrite E; reflexivity).
    fold k. destruct HL as [m ->]. rewrite Nat.div_mul by exact Hk.
    do 3 f_equal. unfold decompressed_width. destruct two_d.
    + destruct HW as [m' ->]. rewrite Nat.div_mul by exact Hk. reflexivity.
    + rewrite HW. reflexivity.
Qed.

(** ** The shapes of the values are the shapes of the shape model *)

Lemma bop_shape (f : R -> R -> R) (x y t : tensor R) :
  tf.bop f x y = Some t -> tf.bshape (shape x) (shape y) = Some (shape t).
Proof.
  unfold tf.bop. destruct (tf.bshape (shape x) (shape y)); [|discriminate].
  intros [= <-]. reflexivity.
Qed.

Lemma residual_conv_1_shape `{L : Layers} (p : Padding) (x r : tensor R)
      (k : nat * nat) (hparams : HParams) (name : string)
      (rnd : nat -> nat -> R) :
  conv_shapes p L ->
  residual_conv x 1 k hparams name rnd = Some r ->
  Shapes.residual_conv p (shape x) 1 k hparams = Some (shape r).
Proof.
  intros [Hconv Hnorm]. unfold residual_conv, Shapes.residual_conv.
  cbn [seq fold_left]. obind.
  destruct (layer_norm _ x _ _) as [n|] eqn:En; [|discriminate]. obind.
  destruct (conv_block _ n _ _ _ _) as [y|] eqn:Ey; [|discriminate]. obind.
  destruct (nn_dropout_elements y (1 - dropout hparams) (rnd 0))
    as (d & -> & Hsd & _). obind.
  intros Hadd. apply bop_shape in Hadd.
  destruct (Hconv _ _ _ _ _ _ _ Ey) as [Hy _].
  rewrite (Hnorm _ _ _ _ _ En) in Hy. rewrite Hy. obind.
  rewrite <- Hsd. exact Hadd.
Qed.

(** X25.  The shape model is sound for the values: with layers that
    have the shapes of the model, whenever [compress] without context
    returns a tensor, [Shapes.compress] on the shape of the input returns
    the shape of that tensor, and the same for [decompress_step] and
    [Shapes.decompress_step]. *)
Theorem shapes_of_values `{L : Layers} `{TransformerLayers} (p : Padding)
      (hparams : AttentionHParams) (is_2d : nat) (name : string) :
  conv_shapes p L ->
  (forall (x r : tensor R) (rnd : nat -> nat -> R),
     compress x None is_2d hparams name rnd = Some r ->
     Shapes.compress p (shape x) None (truthy is_2d) hparams
     = Some (shape r)) /\
  (forall (source r : tensor R) (first_relu : bool),
     decompress_step source None hparams first_relu is_2d name = Some r ->
     Shapes.decompress_step p (shape source) None hparams first_relu
                            (truthy is_2d)
     = Some (shape r)).
Proof.
  intros Hshapes. split.
  - intros x r rnd. unfold compress, Shapes.compress. cbv zeta.
    generalize (num_compress_steps hparams). intros n. revert r.
    induction n as [|n IH]; intros r.
    + cbn [seq fold_left]. intros [= <-]. reflexivity.
    + rewrite compress_loop_S, (seq_S n 0), fold_left_app.
      cbn [fold_left Nat.add].
      destruct (fold_left _ (seq 0 n) (Some x)) as [prev|]; [|discriminate].
      rewrite (IH prev eq_refl). obind.
      destruct (residual_conv prev 1 _ hparams _ _) as [rc|] eqn:Erc;
        [|discriminate].
      rewrite (residual_conv_1_shape p prev rc _ hparams _ _ Hshapes Erc).
      obind. intros Hconv.
      destruct Hshapes as [Hc _]. apply (Hc _ _ _ _ _ _ _ Hconv).
  - intros source r first_relu.
    unfold decompress_step, Shapes.decompress_step. obind.
    destruct (conv_block _ source _ _ _ _) as [thicker|] eqn:Et;
      [|discriminate].
    destruct Hshapes as [Hc _]. destruct (Hc _ _ _ _ _ _ _ Et) as [Hst Hwt].
    obind. destruct (truthy is_2d).
    + rewrite Hst. obind. unfold tf.depth_to_space, Shapes.depth_to_space2.
      destruct (shape thicker) as [|b [|l [|w [|c [|? ?]]]]]; try discriminate.
      cbn [Nat.leb andb Nat.mul Nat.add].
      destruct (c mod 4 =? 0); [|discriminate].
      intros [= <-]. reflexivity.
    + rewrite Hst. obind.
      destruct (shape source !! 0) as [s0|]; [|discriminate]. obind.
      destruct (shape source !! 1) as [s1|]; [|discriminate]. obind.
      unfold tf.reshape. rewrite Hwt.
      destruct (_ =? _); [|discriminate]. intros [= <-]. reflexivity.
Qed.

(** * What [ae_transformer_internal] computes *)

(** ** What [ae_transformer_internal] applies *)

Lemma ends_with_app (pre suffix : string) :
  ends_with (pre +:+ suffix) suffix = true.
Proof.
  induction pre as [|a pre IH].
  - change ("" +:+ suffix) with suffix.
    destruct suffix; cbn [ends_with]; rewrite String.eqb_refl; reflexivity.
  - change (String a pre +:+ suffix) with (String a (pre +:+ suffix)).
    cbn [ends_with]. rewrite IH. apply orb_true_r.
Qed.

Lemma append_assoc (a b c : string) : (a +:+ b) +:+ c = a +:+ (b +:+ c).
Proof.
  induction a as [|x a IH]; [reflexivity|].
  change (String x a +:+ b) with (String x (a +:+ b)).
  change (String x (a +:+ b) +:+ c) with (String x ((a +:+ b) +:+ c)).
  rewrite IH. reflexivity.
Qed.

Lemma lookup_without_kept (vars : gmap string (tensor R)) (key : string) :
  is_dae_vae_variable key = false ->
  without_dae_vae vars !! key = vars !! key.
Proof.
  intros Hk. unfold without_dae_vae.
  destruct (vars !! key) as [v|] eqn:E.
  - apply map_lookup_filter_Some. split; [exact E | exact Hk].
  - apply map_lookup_filter_None. left. exact E.
Qed.

Lemma lookup_without_removed (vars : gmap string (tensor R)) (key : string) :
  is_dae_vae_variable key = true ->
  without_dae_vae vars !! key = None.
Proof.
  intros Hk. unfold without_dae_vae. apply map_lookup_filter_None. right.
  intros v _ Hf. cbn [fst] in Hf. congruence.
Qed.

(** Without the variable of its kernel a dense layer fails. *)
Lemma dense_without_kernel (vars : gmap string (tensor R))
      (scope name : string) (x : tensor R) (units : nat) :
  vars !! (scope +:+ "/" +:+ name +:+ "/kernel") = None ->
  tf.dense vars scope x units name = None.
Proof.
  intros Hk. unfold tf.dense, tf.get_variable. cbv zeta.
  change ("/" +:+ "kernel") with "/kernel".
  rewrite !append_assoc, Hk. reflexivity.
Qed.

Section WithoutDaeVae.
Context `{Layers} `{TransformerLayers}.
Variable vars : gmap string (tensor R).

Lemma dae_without (x : tensor R) (hparams : HParams) (name : string)
      (rnd : nat -> R) :
  dae (without_dae_vae vars) x hparams name rnd = None.
Proof.
  unfold dae. rewrite dense_without_kernel; [reflexivity|].
  apply lookup_without_removed.
  change ("/" +:+ "mask" +:+ "/kernel") with "/mask/kernel".
  unfold is_dae_vae_variable, dae_vae_variables. cbn [existsb].
  rewrite ends_with_app. reflexivity.
Qed.

Lemma vae_without (x : tensor R) (hparams : HParams) (name : string)
      (rnd : nat -> R) :
  vae (without_dae_vae vars) x hparams name rnd = None.
Proof.
  unfold vae.
  rewrite (dense_without_kernel _ name "mu" x (z_size hparams));
    [reflexivity|].
  apply lookup_without_removed.
  unfold is_dae_vae_variable, dae_vae_variables. cbn [existsb].
  change ("/" +:+ "mu" +:+ "/kernel") with "/mu/kernel".
  rewrite ends_with_app. rewrite !orb_true_r. reflexivity.
Qed.

Lemma ae_transformer_internal_without
      (inputs targets target_space : tensor R) (hparams : AttentionHParams)
      (rnd : nat -> nat -> nat -> R) :
  ae_transformer_internal (without_dae_vae vars) inputs targets target_space
                          hparams rnd
  = ae_transformer_internal vars inputs targets target_space hparams rnd.
Proof.
  unfold ae_transformer_internal, ae_compress, ae_embed, ae_embed_lookup,
    ae_decompress, tf.dense, tf.get_variable.
  rewrite !(lookup_without_kept vars) by reflexivity.
  reflexivity.
Qed.

End WithoutDaeVae.

Lemma is_Some_match {A} (o : option A) :
  match o with Some _ => True | None => False end -> is_Some o.
Proof. destruct o; [eexists; reflexivity | contradiction]. Qed.

Lemma example_training_call_returns :
  is_Some (@ae_transformer_internal example_layers example_transformer_layers
             example_model_vars example_x example_x (tf.scalar 0)
             example_train_hparams (fun _ _ _ => 0%R)).
Proof.
  apply is_Some_match.
  unfold ae_transformer_internal, ae_decompress.
  destruct (Rlt_dec _ _); vm_compute; exact I.
Qed.

(** The codes and the loss of [ae_compress] are those of [kmeans] on the
    table "z_to_dense". *)
Lemma ae_compress_quantizes `{Layers} `{TransformerLayers}
      (vars : gmap string (tensor R)) (x : tensor R) (is_2d : nat)
      (hparams : AttentionHParams) (name : string) (rnd : nat -> nat -> R)
      (ae hot : tensor R) (loss : R) :
  ae_compress vars x is_2d hparams name rnd = Some (ae, hot, loss) ->
  exists cur means,
    tf.get_variable vars name "z_to_dense"
                    [v_size hparams; hidden_size hparams] = Some means /\
    kmeans cur means hparams (name +:+ "/kmeans") = Some (hot, loss).
Proof.
  unfold ae_compress. intros Ha.
  destruct (compress _ _ _ _ _ _) as [c0|]; [|discriminate].
  revert Ha. obind.
  destruct (conv_block _ _ _ _ _ _) as [mid|]; [|discriminate]. obind.
  destruct (tf.mul (tf.scalar (kmeans_lr_factor hparams)) _) as [a|];
    [|discriminate]. obind.
  destruct (tf.mul (tf.scalar (1 - kmeans_lr_factor hparams)) _) as [r|];
    [|discriminate]. obind.
  destruct (tf.add a r) as [cur_n|]; [|discriminate]. obind.
  destruct (tf.get_variable _ _ _ _) as [means|]; [|discriminate]. obind.
  destruct (kmeans cur_n means hparams _) as [[hot' loss']|] eqn:Ek;
    [|discriminate].
  obind. destruct (tf.dense _ _ _ _ _) as [d|]; [|discriminate]. obind.
  intros [= _ <- <-]. exists cur_n, means. split; [reflexivity | exact Ek].
Qed.

(** The loss "kl" of [ae_transformer_internal] is the loss of the
    [kmeans] of [ae_compress] on the padded targets, times the decay. *)
Lemma ae_transformer_internal_kmeans `{Layers} `{TransformerLayers}
      (vars : gmap string (tensor R))
      (inputs targets target_space : tensor R)
      (hparams : AttentionHParams) (rnd : nat -> nat -> nat -> R)
      (z : tensor R) (losses : gmap string (tensor R)) :
  ae_transformer_internal vars inputs targets target_space hparams rnd
  = Some (z, losses) ->
  exists (ae hot cur means : tensor R) (loss : R),
    ae_compress vars
      (common_layers.pad_to_same_length targets
                                        (2 ^ num_compress_steps hparams))
      (is_2d hparams) hparams "ae_transformer/ae" (rnd 1)
    = Some (ae, hot, loss) /\
    tf.get_variable vars "ae_transformer/ae" "z_to_dense"
                    [v_size hparams; hidden_size hparams] = Some means /\
    kmeans cur means hparams "ae_transformer/ae/kmeans" = Some (hot, loss) /\
    losses !! "kl"
    = Some (tf.scalar
              (loss * inverse_exp_decay (startup_steps hparams * 4 / 5))).
Proof.
  unfold ae_transformer_internal. intros Ha.
  destruct (flatten4d3d inputs) as [inputs'|]; [|discriminate].
  revert Ha. obind.
  destruct (encode _ _ _ _ _) as [[enc ed]|]; [|discriminate]. obind.
  destruct (ae_compress _ _ _ _ _ _) as [[[ae hot] kl]|] eqn:Eac;
    [|discriminate].
  obind. destruct (ae_embed _ _ _ _) as [emb|]; [|discriminate]. obind.
  destruct (flatten4d3d emb) as [ef|]; [|discriminate]. obind.
  destruct (tf.expand_dims ef 2) as [ef'|]; [|discriminate]. obind.
  destruct (decode _ _ _ _ _ _ _) as [dec_c|]; [|discriminate]. obind.
  destruct (tf.reshape dec_c _) as [dec_c'|]; [|discriminate]. obind.
  destruct (tf.dense _ _ _ _ _) as [c_z|]; [|discriminate]. obind.
  destruct (tf.softmax_cross_entropy_with_logits hot c_z) as [rl|];
    [|discriminate].
  obind. destruct (ae_decompress _ _ _ _ _ _ _ _) as [z'|]; [|discriminate].
  obind. destruct (tf.mul rl _) as [rl'|]; [|discriminate]. obind.
  intros [= _ <-].
  destruct (ae_compress_quantizes _ _ _ _ _ _ _ _ _ Eac)
    as (cur & means & Hm & Hk).
  exists ae, hot, cur, means, kl.
  split; [first [exact Eac | reflexivity]|].
  split; [exact Hm|]. split; [exact Hk | reflexivity].
Qed.

(** C2 (as stated, refuted).  A call of [ae_transformer_internal] for
    training returns a result on a variable store on which every
    application of [dae] and of [vae] fails: no subcomputation of that
    call applies [dae] or [vae]. *)
Lemma ae_transformer_internal_applies_neither :
  (forall x hparams name rnd,
     @dae example_layers (without_dae_vae example_model_vars)
          x hparams name rnd = None) /\
  (forall x hparams name rnd,
     vae (without_dae_vae example_model_vars) x hparams name rnd = None) /\
  mode example_train_hparams = TRAIN /\
  is_Some (@ae_transformer_internal example_layers example_transformer_layers
             (without_dae_vae example_model_vars) example_x example_x
             (tf.scalar 0) example_train_hparams (fun _ _ _ => 0%R)).
Proof.
  split; [intros; apply dae_without|].
  split; [intros; apply vae_without|].
  split; [reflexivity|].
  rewrite ae_transformer_internal_without.
  exact example_training_call_returns.
Qed.

(** C2 (amended).  No call of [ae_transformer_internal] applies [dae] or
    [vae]: removing the variables of their dense layers ("mask", "mu",
    "log_sigma") from the variable store, after which every application
    of [dae] or [vae] fails, leaves the result of every call of
    [ae_transformer_internal] as it is.  The discretization it applies is
    the vector quantization of [kmeans], through [ae_compress]: whenever
    it returns, the codes and the loss that [ae_compress] returns on the
    padded targets are those of [kmeans] on the table "z_to_dense", and
    the loss "kl" is that loss times the decay. *)
Theorem ae_transformer_internal_without_dae_vae
      `{Layers} `{TransformerLayers} (vars : gmap string (tensor R))
      (inputs targets target_space : tensor R)
      (hparams : AttentionHParams) (rnd : nat -> nat -> nat -> R) :
  (forall x hp name r, dae (without_dae_vae vars) x hp name r = None) /\
  (forall x hp name r, vae (without_dae_vae vars) x hp name r = None) /\
  ae_transformer_internal (without_dae_vae vars) inputs targets target_space
                          hparams rnd
  = ae_transformer_internal vars inputs targets target_space hparams rnd /\
  (forall z losses,
     ae_transformer_internal vars inputs targets target_space hparams rnd
     = Some (z, losses) ->
     exists (ae hot cur means : tensor R) (loss : R),
       ae_compress vars
         (common_layers.pad_to_same_length targets
                                           (2 ^ num_compress_steps hparams))
         (is_2d hparams) hparams "ae_transformer/ae" (rnd 1)
       = Some (ae, hot, loss) /\
       tf.get_variable vars "ae_transformer/ae" "z_to_dense"
                       [v_size hparams; hidden_size hparams] = Some means /\
       kmeans cur means hparams "ae_transformer/ae/kmeans"
       = Some (hot, loss) /\
       losses !! "kl"
       = Some (tf.scalar
                 (loss * inverse_exp_decay (startup_steps hparams * 4 / 5)))).
Proof.
  split; [intros; apply dae_without|].
  split; [intros; apply vae_without|].
  split; [apply ae_transformer_internal_without|].
  intros z losses Hr.
  apply (ae_transformer_internal_kmeans vars inputs targets target_space
                                        hparams rnd z losses Hr).
Qed.

(** ** The padded targets through compression and decompression *)

Section PaddedTargets.
Context `{L : Layers} `{TL : TransformerLayers}.

(** [compress] runs [num_compress_steps] rounds. *)
Lemma compress_rounds_all (x : tensor R) (c : option (tensor R))
      (is_2d : nat) (hparams : AttentionHParams) (name : string)
      (rnd : nat -> nat -> R) :
  compress x c is_2d hparams name rnd
  = compress_rounds x c is_2d hparams name rnd (num_compress_steps hparams).
Proof. reflexivity. Qed.

(** [ae_decompress] is its leak and dropout, its [num_compress_steps]
    rounds of decompression, and its autoregressive part. *)
Lemma ae_decompress_parts (vars : gmap string (tensor R))
      (z ae x : tensor R) (is_2d : nat) (hparams : AttentionHParams)
      (name : string) (rnd : nat -> nat -> R) :
  ae_decompress vars z ae x is_2d hparams name rnd =
  (zd ← ae_decompress_input z ae hparams rnd;
   d ← ae_decompress_rounds zd is_2d hparams name rnd
         (num_compress_steps hparams);
   dec_batch ←
     (if negb (truthy is_2d) then
        let k := 2 ^ (num_compress_steps hparams
                      * (if truthy is_2d then 2 else 1)) in
        z_batch ← tf.reshape_infer zd [1; 1; hidden_size hparams];
        x_batch ← tf.reshape_infer x [k; 1; hidden_size hparams];
        d_batch ← tf.reshape_infer d [k; 1; hidden_size hparams];
        decode (Some z_batch) (Some d_batch) x_batch None None hparams
               (rnd 3)
      else Some d);
   s1 ← tf.dim x 1;
   s2 ← tf.dim x 2;
   r ← tf.reshape_infer dec_batch [s1; s2; hidden_size hparams];
   if truthy is_2d
   then tf.dense vars (name +:+ "_decompress") r (hidden_size hparams * 3)
                 "dense"
   else Some r).
Proof.
  unfold ae_decompress, ae_decompress_input, ae_decompress_rounds.
  destruct (mix z ae _ _ _ _ _ _) as [zm|]; reflexivity.
Qed.

Lemma ae_decompress_rounds_all (vars : gmap string (tensor R))
      (z ae x : tensor R) (is_2d : nat) (hparams : AttentionHParams)
      (name : string) (rnd : nat -> nat -> R) (r : tensor R) :
  ae_decompress vars z ae x is_2d hparams name rnd = Some r ->
  exists zd d,
    ae_decompress_input z ae hparams rnd = Some zd /\
    ae_decompress_rounds zd is_2d hparams name rnd
                         (num_compress_steps hparams) = Some d.
Proof.
  rewrite ae_decompress_parts.
  destruct (ae_decompress_input z ae hparams rnd) as [zd|]; [|discriminate].
  obind.
  destruct (ae_decompress_rounds zd _ _ _ _ _) as [d|] eqn:Ed;
    [|discriminate].
  intros _. exists zd, d. split; [reflexivity | exact Ed].
Qed.

Lemma compress_rounds_S (x : tensor R) (is_2d : nat)
      (hparams : AttentionHParams) (name : string) (rnd : nat -> nat -> R)
      (i : nat) :
  compress_rounds x None is_2d hparams name rnd (S i) =
  (cur ← compress_rounds x None is_2d hparams name rnd i;
   cur ← residual_conv cur 1 (if truthy is_2d then (3, 3) else (3, 1))
           hparams (name +:+ "/compress_rc_" +:+ string_of_nat i)
           (fun _ => rnd i);
   conv_block name cur (hidden_size hparams)
     [((1, 1), if truthy is_2d then (2, 2) else (2, 1))]
     {| first_relu := true; padding := None;
        strides := Some (if truthy is_2d then (2, 2) else (2, 1)) |}
     ("compress_" +:+ string_of_nat i)).
Proof.
  unfold compress_rounds. rewrite (seq_S i 0), fold_left_app.
  cbn [fold_left Nat.add].
  destruct (fold_left _ (seq 0 i) (Some x)); reflexivity.
Qed.

(** When all the rounds return, so do the first ones. *)
Lemma compress_rounds_prefix (x : tensor R) (is_2d : nat)
      (hparams : AttentionHParams) (name : string) (rnd : nat -> nat -> R)
      (n i : nat) :
  i <= n ->
  is_Some (compress_rounds x None is_2d hparams name rnd n) ->
  is_Some (compress_rounds x None is_2d hparams name rnd i).
Proof.
  induction n as [|n IH]; intros Hi Hn.
  - replace i with 0 by lia. exact Hn.
  - destruct (Nat.eq_dec i (S n)) as [->|Hne]; [exact Hn|].
    apply IH; [lia|]. rewrite compress_rounds_S in Hn.
    destruct (compress_rounds x None is_2d hparams name rnd n);
      [eexists; reflexivity|].
    destruct Hn as [r Hr]. discriminate.
Qed.

Lemma compress_rounds_shape (p : Padding) (x r : tensor R) (is_2d : nat)
      (hparams : AttentionHParams) (name : string) (rnd : nat -> nat -> R)
      (i : nat) :
  conv_shapes p L ->
  compress_rounds x None is_2d hparams name rnd i = Some r ->
  Shapes.compress_loop p (shape x) None (truthy is_2d) hparams i
  = Some (shape r).
Proof.
  intros Hshapes. revert r. induction i as [|i IH]; intros r.
  - unfold compress_rounds, Shapes.compress_loop. cbn [seq fold_left].
    intros [= <-]. reflexivity.
  - rewrite compress_rounds_S, compress_loop_S.
    destruct (compress_rounds x None is_2d hparams name rnd i) as [prev|];
      [|discriminate].
    rewrite (IH prev eq_refl). obind.
    destruct (residual_conv prev 1 _ hparams _ _) as [rc|] eqn:Erc;
      [|discriminate].
    rewrite (residual_conv_1_shape p prev rc _ hparams _ _ Hshapes Erc).
    obind. intros Hconv.
    destruct Hshapes as [Hc _]. apply (Hc _ _ _ _ _ _ _ Hconv).
Qed.

Lemma ae_decompress_rounds_S (z : tensor R) (is_2d : nat)
      (hparams : AttentionHParams) (name : string) (rnd : nat -> nat -> R)
      (i : nat) :
  ae_decompress_rounds z is_2d hparams name rnd (S i) =
  (d ← ae_decompress_rounds z is_2d hparams name rnd i;
   d ← residual_conv d 1 (if truthy is_2d then (3, 3) else (3, 1)) hparams
         ((name +:+ "_decompress") +:+ "/decompress_rc_"
          +:+ string_of_nat (num_compress_steps hparams - i - 1))
         (fun _ => rnd (4 + i));
   decompress_step d None hparams (0 <? i) is_2d
     ((name +:+ "_decompress") +:+ "/decompress_"
      +:+ string_of_nat (num_compress_steps hparams - i - 1))).
Proof.
  unfold ae_decompress_rounds. rewrite (seq_S i 0), fold_left_app.
  cbn [fold_left Nat.add].
  destruct (fold_left _ (seq 0 i) (Some z)); reflexivity.
Qed.

Lemma decompress_step_value_shape (p : Padding) (source r : tensor R)
      (hparams : AttentionHParams) (first_relu : bool) (is_2d : nat)
      (name : string) :
  conv_shapes p L ->
  decompress_step source None hparams first_relu is_2d name = Some r ->
  Shapes.decompress_step p (shape source) None hparams first_relu
                         (truthy is_2d)
  = Some (shape r).
Proof.
  intros Hshapes.
  unfold decompress_step, Shapes.decompress_step. obind.
  destruct (conv_block _ source _ _ _ _) as [thicker|] eqn:Et;
    [|discriminate].
  destruct Hshapes as [Hc _]. destruct (Hc _ _ _ _ _ _ _ Et) as [Hst Hwt].
  obind. destruct (truthy is_2d).
  - rewrite Hst. obind. unfold tf.depth_to_space, Shapes.depth_to_space2.
    destruct (shape thicker) as [|b [|l [|w [|c [|? ?]]]]]; try discriminate.
    cbn [Nat.leb andb Nat.mul Nat.add].
    destruct (c mod 4 =? 0); [|discriminate].
    intros [= <-]. reflexivity.
  - rewrite Hst. obind.
    destruct (shape source !! 0) as [s0|]; [|discriminate]. obind.
    destruct (shape source !! 1) as [s1|]; [|discriminate]. obind.
    unfold tf.reshape. rewrite Hwt.
    destruct (_ =? _); [|discriminate]. intros [= <-]. reflexivity.
Qed.

Lemma ae_decompress_rounds_shape (p : Padding) (z d : tensor R)
      (is_2d : nat) (hparams : AttentionHParams) (name : string)
      (rnd : nat -> nat -> R) (i : nat) :
  conv_shapes p L ->
  ae_decompress_rounds z is_2d hparams name rnd i = Some d ->
  Shapes.decompress_loop p (shape z) (truthy is_2d) hparams i
  = Some (shape d).
Proof.
  intros Hshapes. revert d. induction i as [|i IH]; intros d.
  - unfold ae_decompress_rounds, Shapes.decompress_loop.
    cbn [seq fold_left]. intros [= <-]. reflexivity.
  - rewrite ae_decompress_rounds_S, decompress_loop_S.
    destruct (ae_decompress_rounds z is_2d hparams name rnd i) as [prev|];
      [|discriminate].
    rewrite (IH prev eq_refl). obind.
    destruct (residual_conv prev 1 _ hparams _ _) as [rc|] eqn:Erc;
      [|discriminate].
    rewrite (residual_conv_1_shape p prev rc _ hparams _ _ Hshapes Erc).
    obind. apply decompress_step_value_shape. exact Hshapes.
Qed.


(** The shapes of what [ae_compress] returns, from the shape of what its
    [compress] returns. *)
Lemma ae_compress_shapes (p : Padding) (vars : gmap string (tensor R))
      (x : tensor R) (is_2d : nat) (hparams : AttentionHParams)
      (name : string) (rnd : nat -> nat -> R) (ae hot : tensor R) (kl : R) :
  conv_shapes p L ->
  ae_compress vars x is_2d hparams name rnd = Some (ae, hot, kl) ->
  exists c0,
    compress x None is_2d hparams (name +:+ "/compress") rnd = Some c0 /\
    forall b l w,
      shape c0 = [b; l; w; hidden_size hparams] ->
      shape ae = [b; l; w; hidden_size hparams] /\
      shape hot = [b; l; w; v_size hparams].
Proof.
  intros [Hconv _]. unfold ae_compress.
  destruct (compress x None is_2d hparams _ rnd) as [c0|]; [|discriminate].
  obind.
  destruct (conv_block name c0 _ _ _ _) as [mid|] eqn:Emid; [|discriminate].
  obind. unfold tf.mul at 1 2. rewrite !bop_scalar_l. obind.
  unfold tf.stop_gradient. rewrite !shape_l2_normalize.
  destruct (tf.add _ _) as [cur_n|] eqn:Eadd; [|discriminate]. obind.
  destruct (tf.get_variable _ _ _ _) as [means|]; [|discriminate]. obind.
  destruct (kmeans cur_n means hparams _) as [[hot' loss]|] eqn:Ek;
    [|discriminate].
  obind.
  destruct (tf.dense _ _ _ _ _) as [d|] eqn:Ed; [|discriminate]. obind.
  intros [= <- <- <-]. exists c0. split; [reflexivity|].
  intros b l w Hc0.
  destruct (Hconv _ _ _ _ _ _ _ Emid) as [Hmid _].
  rewrite Hc0 in Hmid. unfold Shapes.conv_block in Hmid.
  cbn [fold_left default padding strides fst snd] in Hmid.
  rewrite !conv_size_kernel_1 in Hmid. injection Hmid as Hmid.
  apply dense_shape in Ed. destruct Ed as [Ed _].
  rewrite shape_l2_normalize, <- Hmid in Ed.
  split; [exact Ed|].
  apply bop_shape in Eadd.
  rewrite ?shape_tabulate, ?shape_l2_normalize in Eadd.
  rewrite bshape_same in Eadd. injection Eadd as Eadd.
  unfold kmeans in Ek.
  destruct (nearest cur_n means hparams) as [h0|] eqn:En; [|discriminate].
  revert Ek. obind.
  destruct (tf.gather _ _); [|discriminate]. obind.
  destruct (tf.sub _ _); [|discriminate]. obind.
  intros [= <- _].
  revert En. unfold nearest, tf.stop_gradient.
  destruct (tf.reshape_infer cur_n _); [|discriminate]. obind.
  destruct (tf.matmul_transpose_b _ _); [|discriminate]. obind.
  destruct (tf.top_k1_indices _); [|discriminate]. obind.
  destruct (tf.squeeze _ _); [|discriminate]. obind.
  unfold tf.dim. rewrite <- Eadd, <- Hmid. cbn [lookup list_lookup]. obind.
  unfold tf.reshape. destruct (_ =? _); [|discriminate].
  intros [= <-]. reflexivity.
Qed.

Lemma ae_embed_shape (vars : gmap string (tensor R)) (hot emb : tensor R)
      (hparams : HParams) (name : string) (b l w : nat) :
  ae_embed vars hot hparams name = Some emb ->
  shape hot = [b; l; w; v_size hparams] ->
  shape emb = [b; l; w; hidden_size hparams].
Proof.
  unfold ae_embed, ae_embed_lookup. intros He Hs. revert He.
  destruct (tf.get_variable _ _ _ _); [|discriminate]. obind.
  destruct (tf.reshape_infer hot _); [|discriminate]. obind.
  destruct (tf.matmul _ _); [|discriminate]. obind.
  unfold tf.dim. rewrite Hs. cbn [lookup list_lookup]. obind.
  destruct (tf.reshape _ _) as [e|] eqn:Er; [|discriminate]. obind.
  intros Hd. apply dense_shape in Hd. destruct Hd as [Hd _].
  unfold tf.reshape in Er. destruct (_ =? _); [|discriminate].
  injection Er as <-. exact Hd.
Qed.

Lemma ae_decompress_input_shape (z ae zd : tensor R)
      (hparams : AttentionHParams) (rnd : nat -> nat -> R) :
  shape z = shape ae ->
  ae_decompress_input z ae hparams rnd = Some zd ->
  shape zd = shape z.
Proof.
  intros Hs. unfold ae_decompress_input.
  rewrite (mix_selects z ae _ _ _ _ _ Hs). obind.
  match goal with
  | |- tf.nn_dropout ?t ?k ?r = _ -> _ =>
      destruct (nn_dropout_elements t k r) as (d & -> & Hd & _)
  end.
  intros [= <-]. rewrite Hd.
  destruct (Rlt_dec _ _); [apply shape_tabulate | symmetry; exact Hs].
Qed.

End PaddedTargets.

(** C9.  Divisibility invariant of compression.  On targets of shape
    [b, len, w, hidden_size] (with [w = 1] unless the problem is 2d), and
    with convolutions of the modelled shapes, whenever
    [ae_transformer_internal] returns: the tensor it passes to
    [ae_compress], and so to [compress], is the targets padded to the
    length [L], the least multiple of [k = 2^num_compress_steps] from
    [len] on; round [i] of the [num_compress_steps] rounds of [compress]
    operates on a tensor of length [L / 2^i], which is even, and
    [compress] returns length [L / k]; and the [num_compress_steps]
    doubling rounds of [ae_decompress], which start from a tensor of
    length [L / k], return a tensor of the padded length [L]. *)
Theorem compression_divisibility `{L : Layers} `{TransformerLayers}
      (p : Padding) (vars : gmap string (tensor R))
      (inputs targets target_space : tensor R)
      (hparams : AttentionHParams) (rnd : nat -> nat -> nat -> R)
      (b len w : nat) (z : tensor R) (losses : gmap string (tensor R)) :
  let n := num_compress_steps hparams in
  let k := 2 ^ n in
  let h := hidden_size hparams in
  let Lp := common_layers.padded_length len k in
  let padded := common_layers.pad_to_same_length targets k in
  conv_shapes p L ->
  shape targets = [b; len; w; h] ->
  (truthy (is_2d hparams) = false -> w = 1) ->
  ae_transformer_internal vars inputs targets target_space hparams rnd
  = Some (z, losses) ->
  shape padded = [b; Lp; w; h] /\
  Nat.divide k Lp /\ len <= Lp < len + k /\
  exists ae hot kl emb,
    ae_compress vars padded (is_2d hparams) hparams "ae_transformer/ae"
                (rnd 1) = Some (ae, hot, kl) /\
    ae_embed vars hot hparams "ae_transformer/ae" = Some emb /\
    ae_decompress vars emb ae padded (is_2d hparams) hparams
                  "ae_transformer/ae" (rnd 3) = Some z /\
    (forall i, i <= n ->
       exists cur wi,
         compress_rounds padded None (is_2d hparams) hparams
                         "ae_transformer/ae/compress" (rnd 1) i = Some cur /\
         shape cur = [b; Lp / 2 ^ i; wi; h] /\
         (i < n -> Nat.divide 2 (Lp / 2 ^ i))) /\
    exists zd d wn wd,
      ae_decompress_input emb ae hparams (rnd 3) = Some zd /\
      shape zd = [b; Lp / k; wn; h] /\
      ae_decompress_rounds zd (is_2d hparams) hparams "ae_transformer/ae"
                           (rnd 3) n = Some d /\
      shape d = [b; Lp; wd; h].
Proof.
  intros n k h Lp padded Hshapes Hst Hw Hr.
  assert (Hk : 0 < k) by (unfold k; pose proof (Nat.pow_nonzero 2 n); lia).
  pose proof (padded_length_divisible len k Hk) as Hdiv. fold Lp in Hdiv.
  assert (Hsp : shape padded = [b; Lp; w; h]).
  { unfold padded, common_layers.pad_to_same_length. cbv zeta.
    rewrite shape_tabulate, Hst. reflexivity. }
  split; [exact Hsp|]. split; [exact Hdiv|].
  split; [apply padded_length_bounds; exact Hk|].
  revert Hr. unfold ae_transformer_internal. cbv zeta. fold k padded.
  destruct (flatten4d3d inputs) as [inputs'|]; [|discriminate]. obind.
  destruct (encode _ _ _ _ _) as [[enc ed]|]; [|discriminate]. obind.
  destruct (ae_compress _ _ _ _ _ _) as [[[ae hot] kl]|] eqn:Eac;
    [|discriminate].
  obind. destruct (ae_embed _ _ _ _) as [emb|] eqn:Eemb; [|discriminate].
  obind.
  destruct (flatten4d3d emb) as [ef|]; [|discriminate]. obind.
  destruct (tf.expand_dims ef 2) as [ef'|]; [|discriminate]. obind.
  destruct (decode _ _ _ _ _ _ _) as [dec_c|]; [|discriminate]. obind.
  destruct (tf.reshape dec_c _) as [dec_c'|]; [|discriminate]. obind.
  destruct (tf.dense _ _ _ _ _) as [c_z|]; [|discriminate]. obind.
  destruct (tf.softmax_cross_entropy_with_logits hot c_z) as [rl|];
    [|discriminate].
  obind.
  destruct (ae_decompress _ _ _ _ _ _ _ _) as [z'|] eqn:Ed; [|discriminate].
  obind. destruct (tf.mul rl _) as [rl'|]; [|discriminate]. obind.
  intros [= <- _].
  exists ae, hot, kl, emb.
  split; [first [exact Eac | reflexivity]|].
  split; [first [exact Eemb | reflexivity]|].
  split; [first [exact Ed | reflexivity]|].
  destruct (ae_compress_shapes p _ _ _ _ _ _ _ _ _ Hshapes Eac)
    as (c0 & Hc0 & Hsh).
  rewrite compress_rounds_all in Hc0. fold n in Hc0.
  set (two_d := truthy (is_2d hparams)) in *.
  assert (Hrounds : forall i, i <= n ->
            exists cur,
              compress_rounds padded None (is_2d hparams) hparams
                ("ae_transformer" +:+ "/ae" +:+ "/compress") (rnd 1) i
              = Some cur /\
              shape cur
              = [b; Lp / 2 ^ i; compressed_width p two_d w i; h]).
  { intros i Hi.
    destruct (compress_rounds_prefix padded (is_2d hparams) hparams
                ("ae_transformer" +:+ "/ae" +:+ "/compress") (rnd 1) n i Hi)
      as [cur Hcur]; [eexists; exact Hc0|].
    exists cur. split; [exact Hcur|].
    pose proof (compress_rounds_shape p _ _ _ _ _ _ _ Hshapes Hcur) as Hs.
    rewrite Hsp in Hs. fold two_d in Hs.
    unfold h in Hs.
    rewrite (compress_loop_shape p two_d hparams b Lp w n i Hdiv Hi) in Hs.
    injection Hs as <-. reflexivity. }
  split.
  - intros i Hi. destruct (Hrounds i Hi) as (cur & Hcur & Hs).
    exists cur, (compressed_width p two_d w i).
    split; [exact Hcur|]. split; [exact Hs|].
    intros Hlt. apply (divide_pow2_step n i Lp Hdiv Hlt).
  - destruct (Hrounds n (Nat.le_refl n)) as (c0' & Hc0' & Hs0).
    assert (Ec : Some c0' = Some c0)
      by (rewrite <- Hc0', <- Hc0; reflexivity).
    injection Ec as ->.
    fold k in Hs0.
    destruct (Hsh b (Lp / k) (compressed_width p two_d w n) Hs0)
      as [Hsae Hshot].
    pose proof (ae_embed_shape _ _ _ _ _ _ _ _ Eemb Hshot) as Hsemb.
    destruct (ae_decompress_rounds_all _ _ _ _ _ _ _ _ _ Ed)
      as (zd & d & Hzd & Hd).
    assert (Hszd : shape zd
                   = [b; Lp / k; compressed_width p two_d w n; h]).
    { rewrite (ae_decompress_input_shape emb ae zd hparams (rnd 3));
        [exact Hsemb | | exact Hzd].
      rewrite Hsemb, Hsae. reflexivity. }
    exists zd, d, (compressed_width p two_d w n),
      (decompressed_width two_d (compressed_width p two_d w n) n).
    split; [exact Hzd|]. split; [exact Hszd|]. split; [exact Hd|].
    pose proof (ae_decompress_rounds_shape p _ _ _ _ _ _ _ Hshapes Hd) as Hs.
    rewrite Hszd in Hs. fold two_d in Hs. unfold h in Hs.
    rewrite decompress_loop_shape in Hs.
    + injection Hs as <-. do 2 f_equal. fold k.
      destruct Hdiv as [m ->]. rewrite Nat.div_mul by lia. reflexivity.
    + intros E. rewrite E, compressed_width_1d. apply Hw. exact E.
Qed.

(** ** The properties at concrete inputs *)

Lemma interleave_spec_witness :
  exists r,
    interleave example_x example_hot 1 = Some r /\
    shape r = [1; 2; 2; 1; 2].
Proof.
  destruct (interleave_spec example_x example_hot 1 [1; 2] [1; 2])
    as (r & Hr & Hs & _); [reflexivity | reflexivity | reflexivity |].
  exists r. split; [exact Hr | exact Hs].
Defined.

Lemma expand_batch_repeats_witness :
  exists r, expand_batch example_x 3 = Some r /\ shape r = [3; 2; 1; 2].
Proof.
  destruct (expand_batch_repeats example_x 3 1 2 1 2)
    as (r & Hr & Hs & _); [reflexivity | lia | lia | lia |].
  exists r. split; [exact Hr | exact Hs].
Defined.

Lemma expand_batch_rank3_witness : expand_batch example_pair 2 = Some example_pair.
Proof.
  destruct (expand_batch_rank3 example_pair 2 2 1 1) as (_ & Hsame & _);
    [reflexivity | reflexivity | lia | lia |].
  apply Hsame. left. reflexivity.
Defined.

Lemma attend_width_witness : shape example_x !! 2 = Some 1.
Proof.
  eapply (@attend_width example_layers example_transformer_layers
            example_x example_x _ example_attention_hparams "attend").
  reflexivity.
Defined.

Lemma decompress_step_splits_channels_witness :
  exists r,
    @decompress_step example_layers example_transformer_layers
      example_thick None example_attention_hparams true 0 "decompress_0"
    = Some r /\
    shape r = [1; 4; 1; 2].
Proof.
  destruct (@decompress_step_splits_channels example_layers
              example_transformer_layers example_thick example_thick
              example_attention_hparams true "decompress_0" 1 2 1 [1; 4])
    as [Hok _]; [reflexivity | reflexivity | reflexivity | reflexivity |].
  destruct (Hok eq_refl) as (r & Hr & Hs & _).
  exists r. split; [exact Hr | exact Hs].
Defined.

Lemma compress_context_needs_width_1_witness : shape example_x !! 2 = Some 1.
Proof.
  eapply (@compress_context_needs_width_1 example_layers
            example_transformer_layers example_x example_x _ 0
            example_attention_hparams "compress" (fun _ _ => 0%R)).
  - simpl. lia.
  - reflexivity.
Defined.

Lemma dae_distributions_witness :
  exists m s kl,
    @dae example_layers example_model_vars example_x example_hparams "dae"
         (fun _ => 0%R) = Some (m, s, kl) /\
    (0 <= kl <= ln (INR 2))%R.
Proof.
  destruct (@dae_distributions example_layers example_model_vars example_x
              example_hparams "dae" (fun _ => 0%R) [1; 2; 1] 2
              (Tensor [2; 2] [1; 0; 0; 1]%R) (Tensor [2] [0; 0]%R))
    as (m & s & kl & Hd & _ & _ & _ & Hkl).
  - reflexivity.
  - split; reflexivity.
  - simpl. lia.
  - intros _. lra.
  - simpl. lra.
  - exists m, s, kl. split; [exact Hd | exact Hkl].
Defined.

Lemma vae_kl_nonneg_witness :
  exists z kl mu log_sigma,
    vae example_vars example_wide example_hparams "vae" (fun _ => 0%R)
    = Some (z, kl, mu, log_sigma) /\
    (0 <= kl)%R.
Proof.
  do 4 eexists. split; [reflexivity|].
  eapply (vae_kl_nonneg example_vars example_wide example_hparams "vae"
                        (fun _ => 0%R)).
  reflexivity.
Defined.

Lemma kmeans_codes_and_loss_witness :
  nearest example_x example_means example_hparams = Some example_hot.
Proof.
  destruct (kmeans_codes_and_loss example_x example_means example_hot
              example_hparams "kmeans" 30%R kmeans_example) as (Hn & _ & _).
  exact Hn.
Defined.

Lemma nearest_scale_invariant_witness :
  exists x',
    tf.mul (tf.scalar 2) example_x = Some x' /\
    nearest x' example_means example_hparams
    = nearest example_x example_means example_hparams.
Proof.
  eexists. split; [reflexivity|].
  apply (nearest_scale_invariant example_x _ example_means example_hparams
                                 1 2 1 2%R);
    [reflexivity | reflexivity | reflexivity | simpl; lia | simpl; lia
    | lra | reflexivity].
Defined.

Lemma mix_endpoints_witness :
  @mix example_layers example_x example_hot 3 1 1 "lin" false (fun _ => 0%R)
  = Some example_x.
Proof.
  destruct (@mix_endpoints example_layers example_x example_hot 3 1%R 1%R
              "lin" (fun _ => 0%R)) as [Hfirst _].
  - reflexivity.
  - reflexivity.
  - reflexivity.
  - intros _. lra.
  - apply Hfirst. unfold mix_alpha_p. simpl. lra.
Defined.

Lemma dropout_zero_deterministic_witness :
  @residual_conv example_layers example_x 2 (3, 1) example_hparams "rc"
                 (fun _ _ => 0%R)
  = @residual_conv example_layers example_x 2 (3, 1) example_hparams "rc"
                   (fun _ _ => (1 / 2)%R).
Proof.
  destruct (@dropout_zero_deterministic example_layers
              example_transformer_layers example_attention_hparams
              (fun _ _ => 0%R) (fun _ _ => (1 / 2)%R)) as [Hrc _].
  - reflexivity.
  - reflexivity.
  - intros _ _. lra.
  - intros _ _. lra.
  - apply Hrc.
Defined.

Lemma ae_compress_then_ae_embed_witness :
  exists cur hot loss emb,
    @ae_compress example_layers example_transformer_layers
      example_model_vars example_x 0 example_attention_hparams "ae"
      (fun _ _ => 0%R) = Some (cur, hot, loss) /\
    ae_embed example_model_vars hot example_attention_hparams "ae"
    = Some emb /\
    shape emb = [1; 2; 1; 2].
Proof.
  assert (H := fun compressed mid Hc Hm Hs =>
            @ae_compress_then_ae_embed example_layers
              example_transformer_layers example_model_vars example_x 0
              example_attention_hparams "ae" (fun _ _ => 0%R)
              compressed mid example_means (Tensor [2; 2] [1; 0; 0; 1]%R)
              (Tensor [2] [0; 0]%R) 1 2 1 Hc Hm Hs eq_refl
              (conj eq_refl eq_refl) (Nat.lt_0_succ 1) (Nat.lt_0_succ 1)).
  edestruct H
    as (cur & hot & loss & x_means & emb & Hc & _ & _ & _ & He & _ & _ & Hs);
    [reflexivity | reflexivity | reflexivity |].
  exists cur, hot, loss, emb. repeat split; assumption.
Defined.

Lemma ae_decompress_outside_training_witness :
  @ae_decompress example_layers example_transformer_layers
    example_model_vars example_x example_hot example_x 0
    example_eval_hparams "ae"
    (fun i => if i =? 1 then (fun _ => (1 / 2)%R) else (fun _ => 0%R))
  = @ae_decompress example_layers example_transformer_layers
      example_model_vars example_x example_hot example_x 0
      example_eval_hparams "ae" (fun _ _ => 0%R).
Proof.
  destruct (@ae_decompress_outside_training example_layers
              example_transformer_layers example_model_vars example_x
              example_hot example_x 0 example_eval_hparams "ae"
              (fun _ _ => 0%R)) as [Hcond _].
  - discriminate.
  - intros _ _. lra.
  - apply (Hcond (fun _ => (1 / 2)%R)). intros _. lra.
Defined.

Lemma model_fn_body_needs_keys_witness :
  @model_fn_body example_layers example_transformer_layers
    example_model_vars ∅ example_attention_hparams (fun _ _ _ => 0%R)
  = None.
Proof.
  apply (@model_fn_body_needs_keys example_layers example_transformer_layers
           example_model_vars ∅ example_attention_hparams
           (fun _ _ _ => 0%R) "inputs").
  - simpl. tauto.
  - reflexivity.
Defined.

Lemma infer_touches_inputs_and_targets_witness :
  exists after,
    (@infer example_model (Some example_features) 50 1 1 false 0%R).1
    = Some after /\
    after !! "partial_targets" = None.
Proof.
  destruct (@infer_touches_inputs_and_targets example_model example_features
              50 1 1 false 0%R "partial_targets")
    as (after & Ha & Hk); [discriminate | discriminate |].
  exists after. split; [exact Ha | exact Hk].
Defined.

Lemma infer_requires_inputs_witness :
  @infer example_model None 50 1 1 false 0%R = (None, None).
Proof.
  apply (@infer_requires_inputs example_model None 50 1 1 false 0%R);
    reflexivity.
Defined.

Lemma infer_raise_leaves_inputs_expanded_witness :
  exists after,
    (@infer raising_model (Some example_features) 50 1 1 false 0%R).1
    = Some after /\
    after !! "inputs" = Some (Tensor [1; 1; 1; 1] [7%Z]).
Proof.
  apply (@infer_raise_leaves_inputs_expanded raising_model example_features
           (Tensor [1; 1; 1] [7%Z]) (Tensor [1; 1; 1; 1] [7%Z])
           50 1 1 false 0%R).
  - reflexivity.
  - simpl. lia.
  - reflexivity.
  - reflexivity.
Defined.

Lemma compress_decompress_round_trip_witness :
  Shapes.compress SAME [3; 8; 1; 2] None false example_hparams
  = Some [3; 2; 1; 2] /\
  Shapes.decompress_loop SAME [3; 2; 1; 2] false example_hparams 2
  = Some [3; 8; 1; 2].
Proof.
  apply (compress_decompress_round_trip SAME example_hparams 3 8 1).
  - exists 2. reflexivity.
  - reflexivity.
Defined.

Lemma shaped_layers_conv_shapes (p : Padding) :
  conv_shapes p (shaped_layers p).
Proof.
  split.
  - intros scope x filters dks args name y. cbn [conv_block shaped_layers].
    destruct (Shapes.conv_block p (shape x) filters dks args) as [s|];
      [|discriminate].
    intros [= <-]. split; [reflexivity | apply wf_tabulate].
  - intros scope x filters name y. cbn [layer_norm shaped_layers].
    intros [= <-]. reflexivity.
Qed.

Lemma shapes_of_values_witness :
  exists r,
    @compress (shaped_layers VALID) example_transformer_layers
      (tf.zeros_float [1; 8; 1; 2]) None 0 example_attention_hparams
      "compress" (fun _ _ => 0%R) = Some r /\
    Shapes.compress VALID [1; 8; 1; 2] None false example_hparams
    = Some (shape r).
Proof.
  eexists. split; [reflexivity|].
  destruct (@shapes_of_values (shaped_layers VALID)
              example_transformer_layers VALID example_attention_hparams 0
              "compress" (shaped_layers_conv_shapes VALID)) as [Hc _].
  apply (Hc (tf.zeros_float [1; 8; 1; 2]) _ (fun _ _ => 0%R)).
  reflexivity.
Defined.

Lemma example_ae_transformer_internal_returns :
  is_Some (@ae_transformer_internal example_layers example_transformer_layers
             example_model_vars example_x example_x (tf.scalar 0)
             example_eval_hparams (fun _ _ _ => 0%R)).
Proof.
  apply is_Some_match.
  unfold ae_transformer_internal, ae_decompress.
  destruct (Rlt_dec _ _); vm_compute; exact I.
Qed.

Lemma ae_transformer_internal_losses_witness :
  exists z losses kl,
    @ae_transformer_internal example_layers example_transformer_layers
      example_model_vars example_x example_x (tf.scalar 0)
      example_eval_hparams (fun _ _ _ => 0%R) = Some (z, losses) /\
    losses !! "kl" = Some (tf.scalar kl) /\
    (0 <= kl)%R.
Proof.
  destruct example_ae_transformer_internal_returns as [[z losses] Hr].
  destruct (@ae_transformer_internal_losses example_layers
              example_transformer_layers example_model_vars example_x
              example_x (tf.scalar 0) example_eval_hparams
              (fun _ _ _ => 0%R) z losses Hr)
    as (kl & reconstruction & -> & Hkl & _).
  - simpl. lra.
  - simpl. lra.
  - exists z. eexists. exists kl. split; [exact Hr|].
    split; [reflexivity | exact Hkl].
Defined.

Lemma nearest_defined_witness :
  is_Some (nearest example_x example_means example_hparams).
Proof.
  apply (nearest_defined example_x example_means example_hparams 1 2 1 2);
    [reflexivity | reflexivity | lia | lia | lia | lia | simpl; lia |].
  split; [reflexivity|]. exists 2. split; [lia | reflexivity].
Defined.

Lemma example_ae_decompress_2d_returns :
  is_Some (@ae_decompress example_layers example_transformer_layers
             example_2d_vars example_x example_hot example_x 1
             example_eval_hparams "ae" (fun _ _ => 0%R)).
Proof.
  apply is_Some_match. unfold ae_decompress.
  destruct (Rlt_dec _ _); vm_compute; exact I.
Qed.

Lemma ae_decompress_2d_ignores_targets_witness :
  is_Some (@ae_decompress example_layers example_transformer_layers
             example_2d_vars example_x example_hot example_x 1
             example_eval_hparams "ae" (fun _ _ => 0%R)) /\
  @ae_decompress example_layers example_transformer_layers
    example_2d_vars example_x example_hot example_x 1
    example_eval_hparams "ae" (fun _ _ => 0%R)
  = @ae_decompress example_layers example_transformer_layers
      example_2d_vars example_x example_hot example_hot 1
      example_eval_hparams "ae" (fun _ _ => 0%R).
Proof.
  split; [exact example_ae_decompress_2d_returns|].
  apply (@ae_decompress_2d_ignores_targets example_layers
           example_transformer_layers example_2d_vars example_x
           example_hot example_x example_hot 1 example_eval_hparams "ae"
           (fun _ _ => 0%R)); reflexivity.
Defined.

Lemma nearest_minimizes_distance_witness :
  exists (hot : tensor R) (sel : list nat -> nat),
    nearest example_x example_means example_hparams = Some hot /\
    (forall pos, in_range [1; 2; 1] pos ->
       sel pos < 2 /\
       (forall c, c < 2 ->
          tget 0%R hot (pos ++ [c]) = if c =? sel pos then 1%R else 0%R) /\
       (forall j, j < 2 ->
          (normalized_distance 2 example_x example_means pos (sel pos)
           <= normalized_distance 2 example_x example_means pos j)%R)).
Proof.
  apply (nearest_minimizes_distance example_x example_means example_hparams
                                    1 2 1);
    [reflexivity | reflexivity | reflexivity | simpl; lia | simpl; lia |].
  intros j Hj. cbn [hidden_size v_size example_hparams] in *.
  unfold tf.l2_epsilon, Rsum_n, Rsum, tget.
  destruct j as [|[|j]]; [| |lia];
    cbn [seq map fold_right example_means shape data ravel numel nth
         Nat.mul Nat.add]; lra.
Defined.

Lemma example_compression_call_returns :
  is_Some (@ae_transformer_internal (shaped_layers VALID)
             example_transformer_layers example_model_vars example_x
             example_targets (tf.scalar 0) example_compress_hparams
             (fun _ _ _ => 0%R)).
Proof.
  apply is_Some_match.
  unfold ae_transformer_internal, ae_decompress.
  destruct (Rlt_dec _ _); vm_compute; exact I.
Qed.

Lemma compression_divisibility_witness :
  shape (common_layers.pad_to_same_length example_targets 2) = [1; 4; 1; 2] /\
  exists zd d wn wd,
    @ae_decompress_rounds (shaped_layers VALID) example_transformer_layers
      zd 0 example_compress_hparams "ae_transformer/ae" (fun _ _ => 0%R) 1
    = Some d /\
    shape zd = [1; 2; wn; 2] /\
    shape d = [1; 4; wd; 2].
Proof.
  destruct example_compression_call_returns as [[z losses] Hr].
  destruct (@compression_divisibility (shaped_layers VALID)
              example_transformer_layers VALID example_model_vars example_x
              example_targets (tf.scalar 0) example_compress_hparams
              (fun _ _ _ => 0%R) 1 3 1 z losses
              (shaped_layers_conv_shapes VALID) eq_refl
              (fun _ => eq_refl) Hr)
    as (Hp & _ & _ & ae & hot & kl & emb & _ & _ & _ & _
        & zd & d & wn & wd & _ & Hzd & Hd & Hsd).
  split; [exact Hp|].
  exists zd, d, wn, wd. split; [exact Hd|]. split; [exact Hzd | exact Hsd].
Defined.
